(** * Verification of the error-classification and history pipeline

    Shallow embedding of [generate_feedback_1.py]: the message normalizer
    ([condense]), the error classifier ([classify_errors_with_bank]), the
    student history store ([load_student_errors], [save_student_errors],
    [record_student_submission]), the history summarizer
    ([summarize_history]), the code excerpt reader
    ([read_student_code_excerpt]) and the per-submission loop of
    [generate_feedback].

    Conventions of the embedding.
    - A Python [str] is a list of Unicode code points ([N]); string
      constants of the source are written [lit "..."].
    - A Python [int] is a [Z].
    - A Python [dict] is an association list in insertion order with
      unique keys; [dict_set] updates in place or appends, as the
      interpreter does.
    - A call that may raise returns a [result]; [Raise e] stands for the
      exception propagating to the caller.
    - Libraries outside the repository are modelled only as far as the
      code relies on them: [re.search] is a parameter of the classifier,
      [json.dumps]/[json.loads] are given by an executable printer and a
      recursive-descent decoder over the JSON grammar. *)

From Stdlib Require Import String Ascii.
From Stdlib Require Import List ZArith NArith Bool Lia Arith.
From Stdlib Require Import Sorting.Sorted Sorting.Permutation.
From Stdlib Require DecimalN DecimalPos DecimalFacts Decimal.
Import ListNotations.

Set Default Goal Selector "!".

(* ================================================================== *)
(** * Part I: the program                                              *)
(* ================================================================== *)

(** ** Python values used throughout *)

Abbreviation char := N (only parsing).
Abbreviation str := (list N) (only parsing).

(** A string constant of the source. *)
Definition lit (s : string) : str :=
  map N_of_ascii (list_ascii_of_string s).

Arguments lit s%_string.

Fixpoint str_eqb (a b : str) : bool :=
  match a, b with
  | [], [] => true
  | x :: a', y :: b' => N.eqb x y && str_eqb a' b'
  | _, _ => false
  end.

(** Lexicographic comparison by code point, the order of [<] on [str]. *)
Fixpoint str_compare (a b : str) : comparison :=
  match a, b with
  | [], [] => Eq
  | [], _ :: _ => Lt
  | _ :: _, [] => Gt
  | x :: a', y :: b' =>
      match N.compare x y with
      | Eq => str_compare a' b'
      | c => c
      end
  end.

Definition str_leb (a b : str) : bool :=
  match str_compare a b with
  | Gt => false
  | _ => true
  end.

(** Exceptions of the interpreter and of the libraries the code calls. *)
Inductive exn : Type :=
| ReError            (* re.error *)
| JSONDecodeError
| AttributeError
| KeyError
| IndexError
| TypeError
| UnboundLocalError
| IsADirectoryError
| OtherError (name : str).

Inductive result (A : Type) : Type :=
| Ok (a : A)
| Raise (e : exn).

Arguments Ok {A} a.
Arguments Raise {A} e.

Definition bind {A B : Type} (m : result A) (k : A -> result B) : result B :=
  match m with
  | Ok a => k a
  | Raise e => Raise e
  end.

Notation "x <- m ;; k" := (bind m (fun x => k))
  (at level 61, m at next level, right associativity).

(** ** Dictionaries in insertion order *)

Section Dict.
Variables K V : Type.
Variable keqb : K -> K -> bool.

Definition dict := list (K * V).

Fixpoint dict_get (k : K) (d : dict) : option V :=
  match d with
  | [] => None
  | (k', v) :: d' => if keqb k k' then Some v else dict_get k d'
  end.

(** [d[k] = v]: an existing key keeps its position, a new key goes last. *)
Fixpoint dict_set (k : K) (v : V) (d : dict) : dict :=
  match d with
  | [] => [(k, v)]
  | (k', v') :: d' =>
      if keqb k k' then (k', v) :: d' else (k', v') :: dict_set k v d'
  end.

Definition dict_keys (d : dict) : list K := map fst d.
Definition dict_values (d : dict) : list V := map snd d.
End Dict.

Arguments dict_get {K V} keqb k d.
Arguments dict_set {K V} keqb k v d.
Arguments dict_keys {K V} d.
Arguments dict_values {K V} d.

Definition sdict (V : Type) := dict str V.
Definition sget {V} (k : str) (d : sdict V) : option V := dict_get str_eqb k d.
Definition sset {V} (k : str) (v : V) (d : sdict V) : sdict V :=
  dict_set str_eqb k v d.

(** Membership test of a [set] of strings. *)
Definition str_mem (c : str) (s : list str) : bool := existsb (str_eqb c) s.

(** ** String methods of the interpreter *)

(** [str.splitlines] boundaries. *)
Definition is_linebreak (c : char) : bool :=
  ((10 <=? c) && (c <=? 13) || (28 <=? c) && (c <=? 30) ||
   (c =? 133) || (c =? 8232) || (c =? 8233))%N.

(** The characters [str.strip] removes: those for which [str.isspace]. *)
Definition is_space (c : char) : bool :=
  ((9 <=? c) && (c <=? 13) || (28 <=? c) && (c <=? 32) ||
   (c =? 133) || (c =? 160) || (c =? 5760) ||
   (8192 <=? c) && (c <=? 8202) || (c =? 8232) || (c =? 8233) ||
   (c =? 8239) || (c =? 8287) || (c =? 12288))%N.

Fixpoint lstrip (s : str) : str :=
  match s with
  | [] => []
  | c :: s' => if is_space c then lstrip s' else s
  end.

Fixpoint rstrip (s : str) : str :=
  match s with
  | [] => []
  | c :: s' =>
      match rstrip s' with
      | [] => if is_space c then [] else [c]
      | r => c :: r
      end
  end.

Definition strip (s : str) : str := rstrip (lstrip s).

(** [s.splitlines()]: [line] is the line being read. A carriage return
    followed by a line feed is one boundary; no empty last line. *)
Fixpoint splitlines_from (line : str) (s : str) : list str :=
  match s with
  | [] => match line with [] => [] | _ => [line] end
  | c :: s' =>
      if is_linebreak c then
        line ::
          match s' with
          | c' :: s'' =>
              if ((c =? 13) && (c' =? 10))%N then splitlines_from [] s''
              else splitlines_from [] s'
          | [] => splitlines_from [] s'
          end
      else splitlines_from (line ++ [c]) s'
  end.

Definition splitlines (s : str) : list str := splitlines_from [] s.

(** [sep.join(parts)]. *)
Fixpoint join (sep : str) (parts : list str) : str :=
  match parts with
  | [] => []
  | [p] => p
  | p :: rest => p ++ sep ++ join sep rest
  end.

(** [s[:stop]] for any integer [stop] (a negative one counts from the end). *)
Definition slice_to {A} (s : list A) (stop : Z) : list A :=
  if (0 <=? stop)%Z then firstn (Z.to_nat stop) s
  else firstn (length s - Z.to_nat (- stop)) s.

(** [s[start:]] for any integer [start]. *)
Definition slice_from {A} (s : list A) (start : Z) : list A :=
  if (0 <=? start)%Z then skipn (Z.to_nat start) s
  else skipn (length s - Z.to_nat (- start)) s.

(** [len(s)]. *)
Definition len {A} (s : list A) : Z := Z.of_nat (length s).

(** [s.endswith(suffix)] and [s.startswith(prefix)]. *)
Fixpoint startswith (prefix s : str) : bool :=
  match prefix, s with
  | [], _ => true
  | p :: prefix', c :: s' => N.eqb p c && startswith prefix' s'
  | _ :: _, [] => false
  end.

Definition endswith (suffix s : str) : bool :=
  startswith (rev suffix) (rev s).

(** [sorted(xs)] on strings; [sorted(xs, key=...)] is stable, so is the
    insertion below. *)
Section Sorting.
Variable A : Type.
Variable leb : A -> A -> bool.

Fixpoint insert_sorted (x : A) (l : list A) : list A :=
  match l with
  | [] => [x]
  | y :: l' => if leb x y then x :: l else y :: insert_sorted x l'
  end.

Definition sorted (l : list A) : list A :=
  fold_right insert_sorted [] l.
End Sorting.

Arguments insert_sorted {A} leb x l.
Arguments sorted {A} leb l.

(** Decimal digits of a number, as [str(n)] prints them. *)
Fixpoint str_of_uint (d : Decimal.uint) : str :=
  match d with
  | Decimal.Nil => []
  | Decimal.D0 d => 48%N :: str_of_uint d
  | Decimal.D1 d => 49%N :: str_of_uint d
  | Decimal.D2 d => 50%N :: str_of_uint d
  | Decimal.D3 d => 51%N :: str_of_uint d
  | Decimal.D4 d => 52%N :: str_of_uint d
  | Decimal.D5 d => 53%N :: str_of_uint d
  | Decimal.D6 d => 54%N :: str_of_uint d
  | Decimal.D7 d => 55%N :: str_of_uint d
  | Decimal.D8 d => 56%N :: str_of_uint d
  | Decimal.D9 d => 57%N :: str_of_uint d
  end.

Definition str_of_Z (z : Z) : str :=
  match z with
  | Z0 => lit "0"
  | Zpos p => str_of_uint (Pos.to_uint p)
  | Zneg p => 45%N :: str_of_uint (Pos.to_uint p)
  end.


(** ** Message normalizer *)

Definition MAX_ASSIGNMENT_CHARS : Z := 1200.
Definition MAX_CASES_PER_SUB : Z := 50.
Definition MAX_CHARS_PER_OUTPUT : Z := 400.
Definition MAX_CODE_CHARS : Z := 1600.

(** [one.replace("\\\\", "\\")]: the first literal is two backslashes, the
    second is one; occurrences are replaced left to right without overlap. *)
Fixpoint replace_double_backslash (s : str) : str :=
  match s with
  | [] => []
  | c :: s' =>
      match s' with
      | c' :: s'' =>
          if ((c =? 92) && (c' =? 92))%N
          then 92%N :: replace_double_backslash s''
          else c :: replace_double_backslash s'
      | [] => [c]
      end
  end.

(** [" ".join(line.strip() for line in msg.splitlines() if line.strip())] *)
Definition one_line (msg : str) : str :=
  join (lit " ")
    (map strip
       (filter (fun line => negb (str_eqb (strip line) []))
          (splitlines msg))).

(** [condense(msg, limit)]; [None] is the Python [None]. *)
Definition condense (msg : option str) (limit : Z) : str :=
  match msg with
  | None => []
  | Some [] => []
  | Some m => slice_to (replace_double_backslash (one_line m)) limit
  end.


(** ** Error bank and classifier *)

(** An entry of [error_bank.json]; a field is [None] when its key is
    missing, which the code reads with [entry.get(key, default)]. *)
Record BankEntry : Type := {
  category : option str;
  regex : option (list str)
}.

Definition Bank := sdict BankEntry.

Definition UNCLASSIFIED : str := lit "UNCLASSIFIED".

(** [seen, out = set(), []]; [for c in codes: if c not in seen: ...] *)
Definition dedupe_step (st : list str * list str) (c : str)
  : list str * list str :=
  let '(seen, out) := st in
  if str_mem c seen then (seen, out) else (c :: seen, out ++ [c]).

Definition dedupe (codes : list str) : list str :=
  snd (fold_left dedupe_step codes ([], [])).

Section Classifier.
(** [re_search pat i] is [re.search(pat, i, re.I | re.S)]: [Ok true] for
    a match object, [Ok false] for [None], [Raise ReError] when the
    pattern does not compile. *)
Variable re_search : str -> str -> result bool.

(** The loop over [entry.get("regex", [])] with its [try]/[except
    re.error: continue]; [Ok true] is the [break] after a match. *)
Fixpoint search_patterns (pats : list str) (i : str) : result bool :=
  match pats with
  | [] => Ok false
  | pat :: pats' =>
      match re_search pat i with
      | Ok true => Ok true
      | Ok false => search_patterns pats' i
      | Raise ReError => search_patterns pats' i
      | Raise e => Raise e
      end
  end.

(** The loop over [bank.items()]; the result is the first code one of
    whose patterns matches. *)
Fixpoint search_bank (entries : Bank) (i : str) : result (option str) :=
  match entries with
  | [] => Ok None
  | (code, entry) :: entries' =>
      if str_eqb code UNCLASSIFIED then search_bank entries' i
      else
        matched <- search_patterns
                     (match regex entry with Some ps => ps | None => [] end)
                     i ;;
        if matched then Ok (Some code) else search_bank entries' i
  end.

(** The code appended to [codes] for one message. *)
Definition message_code (bank : Bank) (i : str) : result str :=
  found <- search_bank bank i ;;
  Ok (match found with Some code => code | None => UNCLASSIFIED end).

(** [codes] after the loop over [raw_messages]. *)
Fixpoint message_codes (raw_messages : list str) (bank : Bank)
  : result (list str) :=
  match raw_messages with
  | [] => Ok []
  | i :: rest =>
      c <- message_code bank i ;;
      cs <- message_codes rest bank ;;
      Ok (c :: cs)
  end.

Definition classify_errors_with_bank (raw_messages : list str) (bank : Bank)
  : result (list str) :=
  codes <- message_codes raw_messages bank ;;
  Ok (match dedupe codes with
      | [] => [UNCLASSIFIED]
      | out => out
      end).
End Classifier.

(** Position of the first occurrence of [c] in [l] ([length l] if none). *)
Fixpoint first_index (c : str) (l : list str) : nat :=
  match l with
  | [] => 0
  | x :: l' => if str_eqb c x then 0 else S (first_index c l')
  end.

(** A bank with every pattern removed on which [re_search] raises
    [re.error] for the message [i]. *)
Definition drop_invalid (re_search : str -> str -> result bool) (i : str)
  (bank : Bank) : Bank :=
  map (fun ce : str * BankEntry =>
         (fst ce,
          {| category := category (snd ce);
             regex :=
               match regex (snd ce) with
               | None => None
               | Some ps =>
                   Some (filter (fun pat =>
                                   match re_search pat i with
                                   | Raise ReError => false
                                   | _ => true
                                   end) ps)
               end |}))
      bank.

(** ** Student history store: records *)

Record HistoryEntry : Type := {
  submission_id : str;
  error_codes : list str;
  feedback : str
}.

Record StudentRecord : Type := {
  full_name : str;
  feedback_count : Z;
  history : list HistoryEntry
}.

Definition Totals := sdict StudentRecord.

(** The default of [totals.setdefault(full_name, {...})]. *)
Definition new_student (name : str) : StudentRecord :=
  {| full_name := name; feedback_count := 0%Z; history := [] |}.

(** [feedback_text or ''] *)
Definition or_empty (s : option str) : str :=
  match s with
  | Some t => t
  | None => []
  end.

Definition record_student_submission (totals : Totals) (name : str)
  (sid : str) (codes : list str) (feedback_text : option str) : Totals :=
  (* student = totals.setdefault(full_name, {...}) *)
  let totals1 :=
    match sget name totals with
    | Some _ => totals
    | None => sset name (new_student name) totals
    end in
  let student :=
    match sget name totals1 with
    | Some s => s
    | None => new_student name
    end in
  (* student["feedback_count"] += 1 *)
  let student1 :=
    {| full_name := full_name student;
       feedback_count := (feedback_count student + 1)%Z;
       history := history student |} in
  (* student["history"].append({...}) *)
  let student2 :=
    {| full_name := full_name student1;
       feedback_count := feedback_count student1;
       history := history student1 ++
                  [{| submission_id := sid;
                      error_codes := codes;
                      feedback := or_empty feedback_text |}] |} in
  (* totals[full_name] = student *)
  sset name student2 totals1.

(** One call of [record_student_submission] for the same student. *)
Record RecordCall : Type := {
  call_sid : str;
  call_codes : list str;
  call_feedback : option str
}.

Definition record_calls (totals : Totals) (name : str)
  (calls : list RecordCall) : Totals :=
  fold_left
    (fun t c =>
       record_student_submission t name (call_sid c) (call_codes c)
         (call_feedback c))
    calls totals.

(** [feedback_count == len(history)] for every student of the store. *)
Definition record_consistent (s : StudentRecord) : Prop :=
  feedback_count s = len (history s).

Definition store_consistent (totals : Totals) : Prop :=
  Forall (fun kv => record_consistent (snd kv)) totals.


(** ** Vocabulary for the classifier's properties *)

(** The contract of [re.search] the classifier relies on: a pattern that
    cannot be compiled raises [re.error] and nothing else is raised. *)
Definition re_raises_only_re_error (re_search : str -> str -> result bool)
  : Prop :=
  forall pat i e, re_search pat i = Raise e -> e = ReError.

(** No pattern of any entry of the bank matches the message [i]. *)
Definition no_pattern_matches (re_search : str -> str -> result bool)
  (bank : Bank) (i : str) : Prop :=
  forall code entry pats pat,
    In (code, entry) bank -> regex entry = Some pats -> In pat pats ->
    re_search pat i <> Ok true.

(** Codes in the order of their first occurrence in [codes]. *)
Definition first_occurrence_order (codes out : list str) : Prop :=
  StronglySorted
    (fun x y => first_index x codes < first_index y codes) out.

(** The deduplication loop as a recursion on the codes still to read. *)
Fixpoint first_occurrences (seen codes : list str) : list str :=
  match codes with
  | [] => []
  | c :: codes' =>
      if str_mem c seen then first_occurrences seen codes'
      else c :: first_occurrences (c :: seen) codes'
  end.

(** A matcher to run the classifier on: literal, case-sensitive
    containment, with the pattern ["("] rejected as [re.compile] rejects
    an unbalanced parenthesis. *)
Fixpoint contains (pat i : str) : bool :=
  startswith pat i ||
  match i with
  | [] => false
  | _ :: i' => contains pat i'
  end.

Definition literal_search (pat i : str) : result bool :=
  if str_eqb pat (lit "(") then Raise ReError else Ok (contains pat i).

Definition sample_bank : Bank :=
  [ (lit "FLOAT_ON_NONE",
      {| category := Some (lit "Type");
         regex := Some [lit "("; lit "NoneType"] |});
    (lit "LOOP_BAD_RANGE",
      {| category := Some (lit "Loops");
         regex := Some [lit "range"] |}) ].

Definition sample_messages : list str :=
  [ lit "IndexError: range object index out of range";
    lit "unsupported operand type(s) for +: 'NoneType' and 'int'";
    lit "off by one in range()";
    lit "AssertionError" ].


(** ** History summarizer *)

(** A [collections.Counter]: keys in order of first insertion. *)
Definition Counter := sdict Z.

(** [cnt[c]]: a missing key counts zero. *)
Definition count_of (cnt : Counter) (c : str) : Z :=
  match sget c cnt with
  | Some n => n
  | None => 0%Z
  end.

(** [cnt.update(xs)] for an iterable of keys. *)
Definition counter_update (cnt : Counter) (xs : list str) : Counter :=
  fold_left (fun acc x => sset x (count_of acc x + 1)%Z acc) xs cnt.

(** [life]: every occurrence in every entry counts. *)
Definition lifetime_counts (hist : list HistoryEntry) : Counter :=
  fold_left (fun acc h => counter_update acc (error_codes h)) hist [].

(** [recent]: the entries [hist[-window:]], each code once per entry. *)
Definition recent_counts (hist : list HistoryEntry) (window : Z) : Counter :=
  fold_left (fun acc h => counter_update acc (dedupe (error_codes h)))
    (slice_from hist (- window)) [].

(** [{c for c, n in cnt.items() if n >= 2}] *)
Definition at_least_twice (cnt : Counter) : list str :=
  map fst (filter (fun cn => (2 <=? snd cn)%Z) cnt).

Definition frequent_codes (hist : list HistoryEntry) (window : Z) : list str :=
  at_least_twice (lifetime_counts hist) ++
  at_least_twice (recent_counts hist window).

(** [sorted(list(set(now_codes) & frequent))] *)
Definition overlap_of (now_codes frequent : list str) : list str :=
  sorted str_leb
    (filter (fun c => str_mem c frequent) (dedupe now_codes)).

(** [cnt.most_common(k)]: by decreasing count, ties in insertion order. *)
Definition most_common (cnt : Counter) (k : Z) : list (str * Z) :=
  firstn (Z.to_nat k)
    (sorted (fun a b : str * Z => (snd b <=? snd a)%Z) cnt).

Definition HUMANIZE : sdict str :=
  [ (lit "TYPE_NONE", lit "mixing None with numbers/operations");
    (lit "FLOAT_ON_NONE", lit "calling float() on None");
    (lit "OUTPUT_MISMATCH", lit "output formatting mismatch");
    (lit "MATH_OPS_INCORRECT", lit "incorrect math operations");
    (lit "LOOP_NEVER_UPDATES",
      lit "loop condition never updates (possible infinite loop)");
    (lit "LOOP_BAD_RANGE", lit "range() bounds/off-by-one");
    (lit "FUNC_ARGS_ORDER", lit "wrong function arguments or order");
    (lit "FUNC_MISSING_RETURN", lit "missing return (returning None)");
    (lit "TYPE_MIX_STR_INT", lit "mixing str and int without casting");
    (lit "FILE_PATH_ERROR", lit "bad file path or missing file") ].

Definition NEWLINE : str := [10%N].

Definition no_prior_feedback : str := lit "(no prior feedback)".

(** [summarize_history(student, now_codes, top_k, window)]; [student] is
    [None] for the empty dict that [student_totals.get(full_name, {})]
    returns for an unknown student. *)
Definition summarize_history (student : option StudentRecord)
  (now_codes : list str) (top_k window : Z) : str * list str :=
  match student with
  | None => (no_prior_feedback, [])
  | Some s =>
      match history s with
      | [] => (no_prior_feedback, [])
      | hist =>
          let life := lifetime_counts hist in
          let frequent := frequent_codes hist window in
          let overlap := overlap_of now_codes frequent in
          let top :=
            map (fun cn : str * Z =>
                   fst cn ++ lit "(" ++ str_of_Z (count_of life (fst cn))
                     ++ lit ")")
                (most_common life top_k) in
          let lines :=
            [ lit "Total prior feedback items: " ++ str_of_Z (len hist);
              match top with
              | [] => lit "Most frequent codes: (none)"
              | _ => lit "Most frequent codes: " ++ join (lit ", ") top
              end;
              match now_codes with
              | [] => lit "Current codes: (none)"
              | _ => lit "Current codes: " ++ join (lit ", ") now_codes
              end ] in
          let lines :=
            match overlap with
            | [] => lines
            | _ =>
                let human :=
                  map (fun c => match sget c HUMANIZE with
                                | Some h => h
                                | None => c
                                end) overlap in
                lines ++
                [ lit "Frequent codes also present now: " ++
                    join (lit ", ") overlap;
                  lit "Humanized: " ++ join (lit "; ") human ]
            end in
          (join NEWLINE lines, overlap)
      end
  end.

(** ** Student code excerpt *)

(** A child of the submission directory as [sub_dir.glob] yields it:
    its name and what [read_text(errors="ignore")] returns, [None] when
    that call raises (a directory, a file that cannot be read). *)
Record DirEntry : Type := {
  entry_name : str;
  entry_text : option str
}.

(** The argument [sub_dir]: the Python [None], a path that does not
    exist, or an existing path with its children (none when the path is
    not a directory). *)
Inductive SubDir : Type :=
| NoPath
| MissingPath
| ExistingPath (children : list DirEntry).

(** [sorted(sub_dir.glob("*.py"))] *)
Definition py_files_of (children : list DirEntry) : list DirEntry :=
  sorted (fun a b => str_leb (entry_name a) (entry_name b))
    (filter (fun e => endswith (lit ".py") (entry_name e)) children).

(** The body of [for py in py_files], with [pieces] and [total] as the
    loop carries them; stopping is the [break]. *)
Fixpoint excerpt_pieces (py_files : list DirEntry) (pieces : list str)
  (total limit : Z) : list str :=
  match py_files with
  | [] => pieces
  | py :: rest =>
      let header := lit "# FILE: " ++ entry_name py ++ NEWLINE in
      let code := match entry_text py with Some t => t | None => [] end in
      let chunk := header ++ code in
      let chunk :=
        if (total + len chunk >? limit)%Z
        then slice_to chunk (Z.max 0 (limit - total))
        else chunk in
      let pieces := pieces ++ [chunk] in
      let total := (total + len chunk)%Z in
      if (total >=? limit)%Z then pieces
      else excerpt_pieces rest pieces total limit
  end.

Definition read_student_code_excerpt (sub_dir : SubDir) (limit : Z) : str :=
  match sub_dir with
  | NoPath => []
  | MissingPath => []
  | ExistingPath children =>
      strip (join NEWLINE (excerpt_pieces (py_files_of children) [] 0 limit))
  end.


(** ** Vocabulary for the history store and the summarizer *)

(** The record of a student before a call: the stored one, or the one
    [setdefault] creates. *)
Definition student_or_new (totals : Totals) (name : str) : StudentRecord :=
  match sget name totals with
  | Some s => s
  | None => new_student name
  end.

(** The history entry a call appends. *)
Definition entry_of_call (c : RecordCall) : HistoryEntry :=
  {| submission_id := call_sid c;
     error_codes := call_codes c;
     feedback := or_empty (call_feedback c) |}.

(** Number of occurrences of [c] in [l]. *)
Definition occurrences (c : str) (l : list str) : Z :=
  len (filter (str_eqb c) l).

(** Lifetime count of a code: every occurrence in every entry. *)
Definition lifetime_count (hist : list HistoryEntry) (c : str) : Z :=
  occurrences c (flat_map error_codes hist).

(** Recent count of a code: the entries of [hist[-window:]] that hold it. *)
Definition recent_count (hist : list HistoryEntry) (window : Z) (c : str) : Z :=
  len (filter (fun h => str_mem c (error_codes h))
         (slice_from hist (- window))).

Definition sorted_strings (l : list str) : Prop :=
  StronglySorted (fun a b => str_leb a b = true) l.

Definition sample_history_entry : HistoryEntry :=
  {| submission_id := lit "submission_1";
     error_codes := [lit "LOOP_BAD_RANGE"];
     feedback := [] |}.

Definition sample_student : StudentRecord :=
  {| full_name := lit "Alex Kim";
     feedback_count := 2;
     history := [sample_history_entry; sample_history_entry] |}.

Definition sample_totals : Totals := [(lit "Alex Kim", sample_student)].

Definition sample_calls : list RecordCall :=
  [ {| call_sid := lit "submission_2";
       call_codes := [lit "TYPE_NONE"];
       call_feedback := Some (lit "Check for None before adding.") |};
    {| call_sid := lit "submission_3";
       call_codes := [lit "UNCLASSIFIED"];
       call_feedback := None |} ].

(** A submission directory with two Python files of a thousand
    characters each, header included. *)
Definition long_code : str := repeat 120%N 987.

Definition sample_dir : SubDir :=
  ExistingPath
    [ {| entry_name := lit "b.py"; entry_text := Some long_code |};
      {| entry_name := lit "notes.txt"; entry_text := Some (lit "n") |};
      {| entry_name := lit "a.py"; entry_text := Some long_code |} ].


(** ** JSON values, [json.dumps(..., indent=2)] and [json.loads] *)

(** What [json.loads] returns. A number with a fraction or an exponent
    and the constants [NaN], [Infinity], [-Infinity] are Python floats;
    the literal read is kept, its value is not computed. *)
Unset Elimination Schemes.

Inductive json : Type :=
| JNull
| JBool (b : bool)
| JInt (z : Z)
| JFloat (literal : str)
| JString (s : str)
| JArray (items : list json)
| JObject (members : list (str * json)).

Set Elimination Schemes.

(** *** Encoder *)

Definition hex_digit (n : N) : char :=
  if (n <? 10)%N then (48 + n)%N else (87 + n)%N.

(** ['\\u{0:04x}'.format(n)] for [n < 0x10000]. *)
Definition escape_u (n : N) : str :=
  [92%N; 117%N;
   hex_digit (N.shiftr n 12); hex_digit (N.land (N.shiftr n 8) 15);
   hex_digit (N.land (N.shiftr n 4) 15); hex_digit (N.land n 15)].

(** [py_encode_basestring_ascii]: the replacement of one character. *)
Definition escape_char (c : char) : str :=
  if (c =? 34)%N then [92%N; 34%N]
  else if (c =? 92)%N then [92%N; 92%N]
  else if (c =? 10)%N then [92%N; 110%N]
  else if (c =? 13)%N then [92%N; 114%N]
  else if (c =? 9)%N then [92%N; 116%N]
  else if (c =? 8)%N then [92%N; 98%N]
  else if (c =? 12)%N then [92%N; 102%N]
  else if ((32 <=? c) && (c <=? 126))%N then [c]
  else if (c <? 65536)%N then escape_u c
  else
    let n := (c - 65536)%N in
    escape_u (N.lor 55296 (N.land (N.shiftr n 10) 1023)) ++
    escape_u (N.lor 56320 (N.land n 1023)).

Definition quote (s : str) : str :=
  34%N :: flat_map escape_char s ++ [34%N].

(** A line feed and the indentation of nesting level [level]. *)
Definition newline_indent (level : nat) : str :=
  10%N :: repeat 32%N (2 * level).

Fixpoint dumps_at (level : nat) (v : json) : str :=
  match v with
  | JNull => lit "null"
  | JBool true => lit "true"
  | JBool false => lit "false"
  | JInt z => str_of_Z z
  | JFloat literal => literal
  | JString s => quote s
  | JArray [] => lit "[]"
  | JArray items =>
      lit "[" ++ newline_indent (S level) ++
      join (lit "," ++ newline_indent (S level))
        (map (dumps_at (S level)) items) ++
      newline_indent level ++ lit "]"
  | JObject [] => lit "{}"
  | JObject members =>
      lit "{" ++ newline_indent (S level) ++
      join (lit "," ++ newline_indent (S level))
        (map (fun kv : str * json =>
                quote (fst kv) ++ lit ": " ++ dumps_at (S level) (snd kv))
           members) ++
      newline_indent level ++ lit "}"
  end.

(** [json.dumps(v, indent=2)] *)
Definition json_dumps (v : json) : str := dumps_at 0 v.

(** *** Decoder *)

Definition is_ws (c : char) : bool :=
  ((c =? 32) || (c =? 9) || (c =? 10) || (c =? 13))%N.

Fixpoint skip_ws (s : str) : str :=
  match s with
  | [] => []
  | c :: s' => if is_ws c then skip_ws s' else s
  end.

Definition is_digit (c : char) : bool := ((48 <=? c) && (c <=? 57))%N.

Definition hex_val (c : char) : option N :=
  if is_digit c then Some (c - 48)%N
  else if ((97 <=? c) && (c <=? 102))%N then Some (c - 87)%N
  else if ((65 <=? c) && (c <=? 70))%N then Some (c - 55)%N
  else None.

Definition hex4 (h1 h2 h3 h4 : char) : option N :=
  match hex_val h1, hex_val h2, hex_val h3, hex_val h4 with
  | Some a, Some b, Some c, Some d =>
      Some (((a * 16 + b) * 16 + c) * 16 + d)%N
  | _, _, _, _ => None
  end.

Definition is_high_surrogate (n : N) : bool :=
  ((55296 <=? n) && (n <=? 56319))%N.

Definition is_low_surrogate (n : N) : bool :=
  ((56320 <=? n) && (n <=? 57343))%N.

Definition join_surrogates (hi lo : N) : N :=
  (65536 + N.lor (N.shiftl (hi - 55296) 10) (lo - 56320))%N.

(** The character of a one-letter escape. *)
Definition unescape (e : char) : option char :=
  if (e =? 34)%N then Some 34%N
  else if (e =? 92)%N then Some 92%N
  else if (e =? 47)%N then Some 47%N
  else if (e =? 98)%N then Some 8%N
  else if (e =? 102)%N then Some 12%N
  else if (e =? 110)%N then Some 10%N
  else if (e =? 114)%N then Some 13%N
  else if (e =? 116)%N then Some 9%N
  else None.

Definition push (c : char) (r : option (str * str)) : option (str * str) :=
  match r with
  | Some (t, rest) => Some (c :: t, rest)
  | None => None
  end.

(** [scanstring] in strict mode, after the opening quote: the string
    read and the text after the closing quote. *)
Fixpoint scan_string (s : str) : option (str * str) :=
  match s with
  | [] => None
  | c :: s1 =>
      if (c =? 34)%N then Some ([], s1)
      else if (c =? 92)%N then
        match s1 with
        | [] => None
        | e :: s2 =>
            if (e =? 117)%N then
              match s2 with
              | h1 :: h2 :: h3 :: h4 :: s3 =>
                  match hex4 h1 h2 h3 h4 with
                  | None => None
                  | Some uni =>
                      if is_high_surrogate uni then
                        match s3 with
                        | b :: u :: s4 =>
                            if ((b =? 92) && (u =? 117))%N then
                              match s4 with
                              | g1 :: g2 :: g3 :: g4 :: s5 =>
                                  match hex4 g1 g2 g3 g4 with
                                  | None => None
                                  | Some uni2 =>
                                      if is_low_surrogate uni2
                                      then push (join_surrogates uni uni2)
                                             (scan_string s5)
                                      else push uni (scan_string s3)
                                  end
                              | _ => None
                              end
                            else push uni (scan_string s3)
                        | _ => push uni (scan_string s3)
                        end
                      else push uni (scan_string s3)
                  end
              | _ => None
              end
            else
              match unescape e with
              | Some ch => push ch (scan_string s2)
              | None => None
              end
        end
      else if (c <? 32)%N then None
      else push c (scan_string s1)
  end.

Definition digit_cons (c : char) (u : Decimal.uint) : Decimal.uint :=
  if (c =? 48)%N then Decimal.D0 u
  else if (c =? 49)%N then Decimal.D1 u
  else if (c =? 50)%N then Decimal.D2 u
  else if (c =? 51)%N then Decimal.D3 u
  else if (c =? 52)%N then Decimal.D4 u
  else if (c =? 53)%N then Decimal.D5 u
  else if (c =? 54)%N then Decimal.D6 u
  else if (c =? 55)%N then Decimal.D7 u
  else if (c =? 56)%N then Decimal.D8 u
  else Decimal.D9 u.

(** The longest run of decimal digits at the head of [s]. *)
Fixpoint span_digits (s : str) : str * str :=
  match s with
  | [] => ([], [])
  | c :: s' =>
      if is_digit c then
        let '(ds, rest) := span_digits s' in (c :: ds, rest)
      else ([], s)
  end.

Definition uint_of_digits (ds : str) : Decimal.uint :=
  fold_right digit_cons Decimal.Nil ds.

(** [int(digits)] *)
Definition Z_of_digits (ds : str) : Z := Z.of_N (N.of_uint (uint_of_digits ds)).

(** The integer part of [NUMBER_RE]: an optional minus sign, then a
    single zero or a digit from one to nine followed by any digits. The
    result is the sign, the digits and the text that follows. *)
Definition scan_integer (s : str) : option (bool * str * str) :=
  let '(neg, s1) :=
    match s with
    | c :: s' => if (c =? 45)%N then (true, s') else (false, s)
    | [] => (false, s)
    end in
  match s1 with
  | c :: s2 =>
      if (c =? 48)%N then Some (neg, [c], s2)
      else if is_digit c then
        let '(ds, rest) := span_digits s2 in Some (neg, c :: ds, rest)
      else None
  | [] => None
  end.

(** The optional fraction of [NUMBER_RE]: a dot and at least one digit. *)
Definition scan_fraction (s : str) : str * str :=
  match s with
  | c :: s' =>
      if (c =? 46)%N then
        match span_digits s' with
        | ([], _) => ([], s)
        | (ds, rest) => (c :: ds, rest)
        end
      else ([], s)
  | [] => ([], s)
  end.

(** The optional exponent of [NUMBER_RE]: [e] or [E], an optional sign
    and at least one digit. *)
Definition scan_exponent (s : str) : str * str :=
  match s with
  | c :: s' =>
      if ((c =? 101) || (c =? 69))%N then
        let '(sign, s'') :=
          match s' with
          | d :: t => if ((d =? 43) || (d =? 45))%N then ([d], t) else ([], s')
          | [] => ([], s')
          end in
        match span_digits s'' with
        | ([], _) => ([], s)
        | (ds, rest) => (c :: sign ++ ds, rest)
        end
      else ([], s)
  | [] => ([], s)
  end.

Definition scan_number (s : str) : option (json * str) :=
  match scan_integer s with
  | None => None
  | Some (neg, ds, s1) =>
      let '(frac, s2) := scan_fraction s1 in
      let '(exp, s3) := scan_exponent s2 in
      match frac, exp with
      | [], [] =>
          Some (JInt (if neg then (- Z_of_digits ds)%Z else Z_of_digits ds), s3)
      | _, _ =>
          Some (JFloat ((if neg then [45%N] else []) ++ ds ++ frac ++ exp), s3)
      end
  end.

(** [dict(pairs)]: a repeated key keeps its first position and takes the
    last value. *)
Definition dict_of_pairs (pairs : list (str * json)) : sdict json :=
  fold_left (fun d kv => sset (fst kv) (snd kv) d) pairs [].

(** The scanner. [fuel] bounds the depth of the calls; [json_loads]
    gives one more than the length of the text: every value, element and
    member takes at least one character of its own. [parse_items] starts
    at an element of an array, [parse_members] after the opening quote
    of a key. *)
Fixpoint parse_value (fuel : nat) (s : str) {struct fuel}
  : option (json * str) :=
  match fuel with
  | O => None
  | S fuel' =>
      match s with
      | [] => None
      | c :: s' =>
          if (c =? 34)%N then
            match scan_string s' with
            | Some (t, rest) => Some (JString t, rest)
            | None => None
            end
          else if (c =? 123)%N then
            match skip_ws s' with
            | c1 :: r1 =>
                if (c1 =? 125)%N then Some (JObject [], r1)
                else if (c1 =? 34)%N then
                  match parse_members fuel' r1 with
                  | Some (pairs, rest) =>
                      Some (JObject (dict_of_pairs pairs), rest)
                  | None => None
                  end
                else None
            | [] => None
            end
          else if (c =? 91)%N then
            match skip_ws s' with
            | c1 :: r1 =>
                if (c1 =? 93)%N then Some (JArray [], r1)
                else
                  match parse_items fuel' (c1 :: r1) with
                  | Some (items, rest) => Some (JArray items, rest)
                  | None => None
                  end
            | [] => None
            end
          else if startswith (lit "null") s then Some (JNull, skipn 4 s)
          else if startswith (lit "true") s then Some (JBool true, skipn 4 s)
          else if startswith (lit "false") s then Some (JBool false, skipn 5 s)
          else
            match scan_number s with
            | Some r => Some r
            | None =>
                if startswith (lit "NaN") s
                then Some (JFloat (lit "NaN"), skipn 3 s)
                else if startswith (lit "Infinity") s
                then Some (JFloat (lit "Infinity"), skipn 8 s)
                else if startswith (lit "-Infinity") s
                then Some (JFloat (lit "-Infinity"), skipn 9 s)
                else None
            end
      end
  end

with parse_items (fuel : nat) (s : str) {struct fuel}
  : option (list json * str) :=
  match fuel with
  | O => None
  | S fuel' =>
      match parse_value fuel' s with
      | None => None
      | Some (v, r1) =>
          match skip_ws r1 with
          | c :: r2 =>
              if (c =? 93)%N then Some ([v], r2)
              else if (c =? 44)%N then
                match parse_items fuel' (skip_ws r2) with
                | Some (vs, rest) => Some (v :: vs, rest)
                | None => None
                end
              else None
          | [] => None
          end
      end
  end

with parse_members (fuel : nat) (s : str) {struct fuel}
  : option (list (str * json) * str) :=
  match fuel with
  | O => None
  | S fuel' =>
      match scan_string s with
      | None => None
      | Some (key, r1) =>
          match skip_ws r1 with
          | c :: r2 =>
              if (c =? 58)%N then
                match parse_value fuel' (skip_ws r2) with
                | None => None
                | Some (v, r3) =>
                    match skip_ws r3 with
                    | d :: r4 =>
                        if (d =? 125)%N then Some ([(key, v)], r4)
                        else if (d =? 44)%N then
                          match skip_ws r4 with
                          | q :: r5 =>
                              if (q =? 34)%N then
                                match parse_members fuel' r5 with
                                | Some (ms, rest) =>
                                    Some ((key, v) :: ms, rest)
                                | None => None
                                end
                              else None
                          | [] => None
                          end
                        else None
                    | [] => None
                    end
                end
              else None
          | [] => None
          end
      end
  end.

(** [json.loads(s)]: one value with white space around it; anything
    else raises [JSONDecodeError]. The limits of an interpreter (depth
    of recursion, number of digits of an integer) are not part of the
    model: integers are unbounded. *)
Definition json_loads (s : str) : result json :=
  match parse_value (S (length s)) (skip_ws s) with
  | Some (v, rest) =>
      match skip_ws rest with
      | [] => Ok v
      | _ => Raise JSONDecodeError
      end
  | None => Raise JSONDecodeError
  end.

(** *** The history store as JSON *)

Definition json_of_entry (h : HistoryEntry) : json :=
  JObject [ (lit "submission_id", JString (submission_id h));
            (lit "error_codes", JArray (map JString (error_codes h)));
            (lit "feedback", JString (feedback h)) ].

Definition json_of_student (s : StudentRecord) : json :=
  JObject [ (lit "full_name", JString (full_name s));
            (lit "feedback_count", JInt (feedback_count s));
            (lit "history", JArray (map json_of_entry (history s))) ].

Definition json_of_totals (totals : Totals) : sdict json :=
  map (fun kv => (fst kv, json_of_student (snd kv))) totals.


(** ** The file system and the persistence of the history store *)

(** A path is the list of its components; [path.parent] drops the last. *)
Definition Path := list str.

Definition parent (p : Path) : Path := removelast p.

Fixpoint path_eqb (p q : Path) : bool :=
  match p, q with
  | [], [] => true
  | a :: p', b :: q' => str_eqb a b && path_eqb p' q'
  | _, _ => false
  end.

(** Regular files with their text, and directories. *)
Record FS : Type := {
  files : Path -> option str;
  dirs : Path -> bool
}.

(** [path.exists()] *)
Definition path_exists (fs : FS) (p : Path) : bool :=
  match files fs p with
  | Some _ => true
  | None => dirs fs p
  end.

(** [path.read_text()] *)
Definition read_text (fs : FS) (p : Path) : result str :=
  match files fs p with
  | Some text => Ok text
  | None =>
      if dirs fs p then Raise IsADirectoryError
      else Raise (OtherError (lit "FileNotFoundError"))
  end.

(** [load_student_errors(path)] *)
Definition load_student_errors (fs : FS) (path : Path) : result (sdict json) :=
  if negb (path_exists fs path) then Ok []
  else
    match (text <- read_text fs path ;; json_loads text) with
    | Ok (JObject data) => Ok data          (* isinstance(data, dict) *)
    | Ok _ => Ok []
    | Raise JSONDecodeError => Ok []        (* the warning is printed *)
    | Raise e => Raise e
    end.

(** The steps by which [save_student_errors] changes the file system. *)
Inductive fs_op : Type :=
| MkdirParents (d : Path)
    (* path.parent.mkdir(parents=True, exist_ok=True) *)
| CreateFile (p : Path)
    (* NamedTemporaryFile("w", delete=False, dir=...): a new, empty file *)
| AppendText (p : Path) (chunk : str)
    (* text of tmp.write(...) reaching the file *)
| Replace (src dst : Path).
    (* Path(temp_name).replace(path): an atomic rename *)

Definition is_prefix_path (d p : Path) : bool :=
  path_eqb d (firstn (length d) p).

Definition apply_op (op : fs_op) (fs : FS) : FS :=
  match op with
  | MkdirParents d =>
      {| files := files fs;
         dirs := fun q => dirs fs q || is_prefix_path q d |}
  | CreateFile p =>
      {| files := fun q => if path_eqb q p then Some [] else files fs q;
         dirs := dirs fs |}
  | AppendText p chunk =>
      {| files := fun q =>
                    if path_eqb q p
                    then match files fs p with
                         | Some text => Some (text ++ chunk)
                         | None => None
                         end
                    else files fs q;
         dirs := dirs fs |}
  | Replace src dst =>
      if path_eqb src dst then fs
      else
        {| files := fun q =>
                      if path_eqb q dst then files fs src
                      else if path_eqb q src then None
                      else files fs q;
           dirs := dirs fs |}
  end.

Definition run_ops (ops : list fs_op) (fs : FS) : FS :=
  fold_left (fun st op => apply_op op st) ops fs.

(** The temporary file: a name chosen by [tempfile] in [path.parent]. *)
Definition temp_path (path : Path) (temp_name : str) : Path :=
  parent path ++ [temp_name].

(** The steps of [save_student_errors(path, data)], the text reaching
    the temporary file one character at a time. *)
Definition save_ops (path : Path) (temp_name : str) (text : str)
  : list fs_op :=
  [MkdirParents (parent path); CreateFile (temp_path path temp_name)] ++
  map (fun c => AppendText (temp_path path temp_name) [c]) text ++
  [Replace (temp_path path temp_name) path].

Definition save_student_errors (path : Path) (temp_name : str)
  (data : sdict json) (fs : FS) : FS :=
  run_ops (save_ops path temp_name (json_dumps (JObject data))) fs.

(** The file system when the process stops after [k] steps of the save. *)
Definition save_interrupted (k : nat) (path : Path) (temp_name : str)
  (data : sdict json) (fs : FS) : FS :=
  run_ops (firstn k (save_ops path temp_name (json_dumps (JObject data)))) fs.

(** A step that writes to no file but [tmp]. *)
Definition touches_only (tmp : Path) (op : fs_op) : Prop :=
  match op with
  | MkdirParents _ => True
  | CreateFile p => p = tmp
  | AppendText p _ => p = tmp
  | Replace _ _ => False
  end.

(** Values that [json.dumps] then [json.loads] give back unchanged: no
    float, and objects with distinct keys, as every Python [dict] has.
    The strings are text: code points up to [0x10FFFF], none of them a
    surrogate. *)
Definition is_scalar_value (c : char) : bool :=
  ((c <? 55296) || (57343 <? c) && (c <=? 1114111))%N.

Definition text_ok (s : str) : bool := forallb is_scalar_value s.

Fixpoint keys_distinct (ks : list str) : bool :=
  match ks with
  | [] => true
  | k :: ks' => negb (str_mem k ks') && keys_distinct ks'
  end.

Fixpoint json_ok (v : json) : bool :=
  match v with
  | JNull => true
  | JBool _ => true
  | JInt _ => true
  | JFloat _ => false
  | JString s => text_ok s
  | JArray items => forallb json_ok items
  | JObject members =>
      keys_distinct (map fst members) &&
      forallb (fun kv : str * json => text_ok (fst kv) && json_ok (snd kv))
        members
  end.

(** The same for a history store. *)
Definition entry_ok (h : HistoryEntry) : bool :=
  text_ok (submission_id h) && forallb text_ok (error_codes h) &&
  text_ok (feedback h).

Definition student_ok (s : StudentRecord) : bool :=
  text_ok (full_name s) && forallb entry_ok (history s).

Definition totals_ok (totals : Totals) : bool :=
  keys_distinct (map fst totals) &&
  forallb (fun kv : str * StudentRecord =>
             text_ok (fst kv) && student_ok (snd kv)) totals.

(** A file system with a history file written by an earlier run. *)
Definition store_path : Path := [lit "student_feedback_total.json"].

Definition sample_fs : FS :=
  {| files := fun q =>
                if path_eqb q store_path
                then Some (json_dumps (JObject (json_of_totals sample_totals)))
                else None;
     dirs := fun q => path_eqb q [] |}.

Definition fs_with (path : Path) (text : str) : FS :=
  {| files := fun q => if path_eqb q path then Some text else None;
     dirs := fun q => path_eqb q [] |}.


(** ** Feedback orchestrator: the loop of [generate_feedback] *)

(** An entry of the name map built from the roster export. *)
Record SubmitterMeta : Type := {
  meta_full_name : option str;
  meta_sid : option str;
  meta_email : option str
}.

Definition NameMap := sdict SubmitterMeta.

(** One iteration's input: the submission, its failure outputs and the
    text the text-generation service answers for it. The prompt is built
    from values that are not used afterwards, so the answer stands for
    the call. *)
Record Submission : Type := {
  sub_id : str;
  sub_outputs : list str;
  sub_response : str
}.

Record FeedbackRecord : Type := {
  fr_submission_id : str;
  fr_full_name : str;
  fr_feedback : str
}.

(** The variables of [generate_feedback] that live across iterations.
    [msg] is [None] until the first assignment to the local [msg]. *)
Record LoopState : Type := {
  student_totals : Totals;
  results_out : list FeedbackRecord;
  msg : option str
}.

Definition is_empty {A} (l : list A) : bool :=
  match l with
  | [] => true
  | _ => false
  end.

(** The value of the exponent of a float literal: [exp] is empty, or
    [e] or [E] followed by an optional sign and digits. *)
Definition exponent_of (exp : str) : Z :=
  match exp with
  | _ :: c :: ds =>
      if (c =? 45)%N then (- Z_of_digits ds)%Z
      else if (c =? 43)%N then Z_of_digits ds
      else Z_of_digits (c :: ds)
  | _ => 0%Z
  end.

(** A float literal that [float()] reads as zero. The conversion rounds
    the decimal value to the nearest double, ties to the even one; the
    smallest positive double is [2^-1074], so a literal [n * 10^e] is
    read as [0.0] or [-0.0] exactly when [n * 10^e <= 2^-1075]. [NaN]
    and the infinities are not zero. *)
Definition float_is_zero (literal : str) : bool :=
  let body :=
    match literal with
    | c :: r => if (c =? 45)%N then r else literal
    | [] => literal
    end in
  match body with
  | c :: _ =>
      if is_digit c then
        let '(ds, r1) := span_digits body in
        let '(frac, r2) := scan_fraction r1 in
        let '(exp, _) := scan_exponent r2 in
        let n := Z_of_digits (ds ++ tl frac) in
        let e := (exponent_of exp - len (tl frac))%Z in
        (n =? 0)%Z || ((e <? 0)%Z && (n * 2 ^ 1075 <=? 10 ^ (- e))%Z)
      else false
  | [] => false
  end.

(** Truth value of an object in a condition. *)
Definition truthy (v : json) : bool :=
  match v with
  | JNull => false
  | JBool b => b
  | JInt z => negb (z =? 0)%Z
  | JFloat literal => negb (float_is_zero literal)
  | JString s => negb (is_empty s)
  | JArray items => negb (is_empty items)
  | JObject members => negb (is_empty members)
  end.

(** [fb_list[0]] *)
Definition item0 (v : json) : result json :=
  match v with
  | JArray (x :: _) => Ok x
  | JArray [] => Raise IndexError
  | JString (c :: _) => Ok (JString [c])
  | JString [] => Raise IndexError
  | JObject _ => Raise KeyError
  | _ => Raise TypeError
  end.

(** [first.get('message', '').strip()] *)
Definition message_of (first : json) : result str :=
  match first with
  | JObject members =>
      match sget (lit "message") members with
      | None => Ok (strip [])
      | Some (JString t) => Ok (strip t)
      | Some _ => Raise AttributeError
      end
  | _ => Raise AttributeError
  end.

(** The first three statements of the [try] block: [parsed], [fb_list]
    and the value assigned to [msg]. *)
Definition parse_feedback (text : str) : result str :=
  parsed <- json_loads text ;;
  match parsed with
  | JObject members =>
      let fb_list :=
        match sget (lit "feedback") members with
        | Some v => v
        | None => JArray []
        end in
      if truthy fb_list then first <- item0 fb_list ;; message_of first
      else Ok []
  | _ => Raise AttributeError
  end.

(** [(name_map.get(submission_id, {}) or {}).get("full_name")] *)
Definition lookup_full_name (name_map : NameMap) (sid : str) : option str :=
  match sget sid name_map with
  | Some meta => meta_full_name meta
  | None => None
  end.

(** How an iteration ends: the loop goes on, or an exception leaves
    [generate_feedback]; both with the variables as they are then. *)
Inductive Outcome : Type :=
| Continue (st : LoopState)
| Abort (e : exn) (st : LoopState).

Definition state_of (o : Outcome) : LoopState :=
  match o with
  | Continue st => st
  | Abort _ st => st
  end.

Section Orchestrator.
Variable re_search : str -> str -> result bool.
Variable error_bank : Bank.
Variable name_map : NameMap.

(** [error_codes] of the iteration. *)
Definition submission_codes (sub : Submission) : result (list str) :=
  let condensed :=
    map (fun o => condense (Some o) MAX_CHARS_PER_OUTPUT)
      (slice_to (sub_outputs sub) MAX_CASES_PER_SUB) in
  classify_errors_with_bank re_search condensed error_bank.

(** The body of [for submission_id, outputs in outputs_by_sid.items()]. *)
Definition process_submission (st : LoopState) (sub : Submission)
  : Outcome :=
  match submission_codes sub with
  | Raise e => Abort e st
  | Ok error_codes =>
      (* full_name = (meta.get('full_name') or '').strip() *)
      let full_name_top :=
        strip (or_empty (lookup_full_name name_map (sub_id sub))) in
      (* student_profile, history_block, pattern_block and user_prompt
         go into the request only; text = resp.output_text *)
      match parse_feedback (sub_response sub) with
      | Ok m =>
          (* full_name = (...).get('full_name') or '' *)
          let name := or_empty (lookup_full_name name_map (sub_id sub)) in
          let totals :=
            record_student_submission (student_totals st) name
              (sub_id sub) error_codes
              (if is_empty m then None else Some m) in
          Continue
            {| student_totals := totals;
               results_out :=
                 if is_empty m then results_out st
                 else results_out st ++
                      [{| fr_submission_id := sub_id sub;
                          fr_full_name := name;
                          fr_feedback := m |}];
               msg := Some m |}
      | Raise _ =>
          (* except Exception as e: print(...); if msg: ... *)
          match msg st with
          | None => Abort UnboundLocalError st
          | Some m =>
              if is_empty m then Continue st
              else
                Continue
                  {| student_totals := student_totals st;
                     results_out :=
                       results_out st ++
                       [{| fr_submission_id := sub_id sub;
                           fr_full_name := full_name_top;
                           fr_feedback := m |}];
                     msg := msg st |}
          end
      end
  end.

Fixpoint generate_feedback_loop (st : LoopState) (subs : list Submission)
  : Outcome :=
  match subs with
  | [] => Continue st
  | sub :: rest =>
      match process_submission st sub with
      | Continue st' => generate_feedback_loop st' rest
      | Abort e st' => Abort e st'
      end
  end.

(** The scenario of the specification for an unusable answer, at one
    state and submission: the loop goes on, nothing is added to the
    feedback output, and the store holds the submission's codes with
    empty feedback text. *)
Definition skipped_and_recorded (st : LoopState) (sub : Submission) : Prop :=
  exists codes st',
    submission_codes sub = Ok codes /\
    process_submission st sub = Continue st' /\
    results_out st' = results_out st /\
    student_totals st' =
      record_student_submission (student_totals st)
        (or_empty (lookup_full_name name_map (sub_id sub)))
        (sub_id sub) codes None.
End Orchestrator.

(** The state in which the loop starts. *)
Definition initial_state (totals : Totals) : LoopState :=
  {| student_totals := totals; results_out := []; msg := None |}.

Definition sample_name_map : NameMap :=
  [ (lit "submission_1",
      {| meta_full_name := Some (lit "Alex Kim");
         meta_sid := Some (lit "1001");
         meta_email := None |});
    (lit "submission_2",
      {| meta_full_name := Some (lit "Sam Lee");
         meta_sid := Some (lit "1002");
         meta_email := None |}) ].

(** An answer in the expected format. *)
Definition good_response : str :=
  json_dumps
    (JObject
       [ (lit "submission_id", JString (lit "submission_1"));
         (lit "feedback",
           JArray [JObject [(lit "message",
                             JString (lit "Check the bounds of range()."))]]) ]).

Definition good_submission : Submission :=
  {| sub_id := lit "submission_1";
     sub_outputs := [lit "IndexError: range object index out of range"];
     sub_response := good_response |}.

Definition bad_submission : Submission :=
  {| sub_id := lit "submission_2";
     sub_outputs := [lit "TypeError: 'NoneType' and 'int'"];
     sub_response := lit "not json" |}.


(** ** Vocabulary for the round trip of the encoder and the decoder *)

(** Text that may follow a value in what the encoder writes: nothing, a
    line feed or a comma. *)
Definition delim (rest : str) : bool :=
  match rest with
  | [] => true
  | c :: _ => ((c =? 10) || (c =? 44))%N
  end.

Definition no_digit_head (rest : str) : bool :=
  match rest with
  | [] => true
  | c :: _ => negb (is_digit c)
  end.

(** Fuel that is enough for the scanner to read back a value. *)
Fixpoint need (v : json) : nat :=
  match v with
  | JArray items => S (fold_right (fun x n => S (need x + n)) 0 items)
  | JObject members =>
      S (fold_right (fun kv n => S (need (snd kv) + n)) 0 members)
  | _ => 1
  end.

Definition need_items (items : list json) : nat :=
  fold_right (fun x n => S (need x + n)) 0 items.

Definition need_members (members : list (str * json)) : nat :=
  fold_right (fun kv n => S (need (snd kv) + n)) 0 members.

(** The elements of an array as the encoder writes them at nesting level
    [level], up to the closing bracket, followed by [tail]. *)
Fixpoint items_text (level : nat) (items : list json) (tail : str) : str :=
  match items with
  | [] => tail
  | x :: rest =>
      dumps_at (S level) x ++
      match rest with
      | [] => newline_indent level ++ 93%N :: tail
      | _ => 44%N :: newline_indent (S level) ++ items_text level rest tail
      end
  end.

(** The members of an object after the opening quote of the first key. *)
Fixpoint members_text (level : nat) (members : list (str * json))
  (tail : str) : str :=
  match members with
  | [] => tail
  | kv :: rest =>
      flat_map escape_char (fst kv) ++ 34%N :: 58%N :: 32%N ::
      dumps_at (S level) (snd kv) ++
      match rest with
      | [] => newline_indent level ++ 125%N :: tail
      | _ =>
          44%N :: newline_indent (S level) ++
          34%N :: members_text level rest tail
      end
  end.

(** Induction on JSON values, with the property known of the elements
    of an array and of the values of an object. *)
Section JsonInduction.
Variable P : json -> Prop.
Hypothesis Hnull : P JNull.
Hypothesis Hbool : forall b, P (JBool b).
Hypothesis Hint : forall z, P (JInt z).
Hypothesis Hfloat : forall literal, P (JFloat literal).
Hypothesis Hstring : forall s, P (JString s).
Hypothesis Harray : forall items, Forall P items -> P (JArray items).
Hypothesis Hobject :
  forall members,
    Forall (fun kv : str * json => P (snd kv)) members ->
    P (JObject members).

Fixpoint json_induction (v : json) : P v :=
  match v with
  | JNull => Hnull
  | JBool b => Hbool b
  | JInt z => Hint z
  | JFloat literal => Hfloat literal
  | JString s => Hstring s
  | JArray items =>
      Harray items
        ((fix all (l : list json) : Forall P l :=
            match l with
            | [] => Forall_nil P
            | x :: l' => Forall_cons x (json_induction x) (all l')
            end) items)
  | JObject members =>
      Hobject members
        ((fix all (l : list (str * json))
            : Forall (fun kv : str * json => P (snd kv)) l :=
            match l with
            | [] => Forall_nil _
            | kv :: l' =>
                Forall_cons kv (json_induction (snd kv)) (all l')
            end) members)
  end.
End JsonInduction.

(** The values the decoder is known to give back. *)
Definition parses_back (v : json) : Prop :=
  forall level fuel rest,
    json_ok v = true -> need v <= fuel -> delim rest = true ->
    parse_value fuel (dumps_at level v ++ rest) = Some (v, rest).


(** ** Grouping with [setdefault] *)

(** [d.setdefault(k, []).append(v)] *)
Definition setdefault_append {V} (k : str) (v : V) (d : sdict (list V))
  : sdict (list V) :=
  match sget k d with
  | Some l => sset k (l ++ [v]) d
  | None => sset k [v] d
  end.

(** ** Failure outputs by submission *)

(** [fetch_grouped_outputs(conn)]; [rows] is what [conn.execute(q)]
    yields, a row being the submission and its output, [None] for a
    NULL. *)
Definition fetch_grouped_outputs (rows : list (str * option str))
  : sdict (list str) :=
  fold_left
    (fun grouped row =>
       setdefault_append (fst row) (or_empty (snd row)) grouped)
    rows [].

(** The outputs of the rows of one submission, in the order of the rows. *)
Definition outputs_of (sid : str) (rows : list (str * option str))
  : list str :=
  map (fun row => or_empty (snd row))
    (filter (fun row => str_eqb (fst row) sid) rows).

(** ** Error categories of a submission *)

(** [bank.get(i, {}).get("category", "Unclassified")] *)
Definition category_of (bank : Bank) (i : str) : str :=
  match sget i bank with
  | Some entry =>
      match category entry with
      | Some c => c
      | None => lit "Unclassified"
      end
  | None => lit "Unclassified"
  end.

(** [by_category] after the loop over [error_codes]. *)
Definition by_category (bank : Bank) (error_codes : list str)
  : sdict (list str) :=
  fold_left (fun d i => setdefault_append (category_of bank i) i d)
    error_codes [].

(** [f"{category}: {formatted_codes}"] *)
Definition pattern_line (category : str) (codes : list str) : str :=
  category ++ lit ": " ++ join (lit ", ") (sorted str_leb codes).

Definition make_student_pattern_block_for_submission (bank : Bank)
  (error_codes : list str) : str :=
  match error_codes with
  | [] => lit "none"
  | _ =>
      join NEWLINE
        (map (fun kv => pattern_line (fst kv) (snd kv))
           (by_category bank error_codes))
  end.

(** The codes of [error_codes] that the bank puts in [category]. *)
Definition codes_in (bank : Bank) (category : str) (error_codes : list str)
  : list str :=
  filter (fun i => str_eqb (category_of bank i) category) error_codes.


(** ** Excerpt of the assignment brief *)

(** [read_excerpt(p, limit)] *)
Definition read_excerpt (fs : FS) (p : Path) (limit : Z) : result str :=
  if negb (path_exists fs p) then Ok []
  else text <- read_text fs p ;; Ok (strip (slice_to text limit)).


(** ** Vocabulary for a whole run of the loop *)

(** Number of history entries of the store, all students together. *)
Definition history_size (totals : Totals) : Z :=
  fold_right (fun kv n => (len (history (snd kv)) + n)%Z) 0%Z totals.

(** The answer for the submission can be read: the statements of the
    [try] block up to the assignment to [msg] raise nothing. *)
Definition usable (sub : Submission) : bool :=
  match parse_feedback (sub_response sub) with
  | Ok _ => true
  | Raise _ => false
  end.

(** [a] is [b] with some elements left out. *)
Inductive subsequence {A : Type} : list A -> list A -> Prop :=
| subsequence_nil : subsequence [] []
| subsequence_skip (x : A) (a b : list A) :
    subsequence a b -> subsequence a (x :: b)
| subsequence_take (x : A) (a b : list A) :
    subsequence a b -> subsequence (x :: a) (x :: b).


(** ** The feedback file: merging the records of a run *)

(** A record of [results_out] as a row of [feedback.json]. *)
Definition json_of_feedback (r : FeedbackRecord) : json :=
  JObject [ (lit "submission_id", JString (fr_submission_id r));
            (lit "full_name", JString (fr_full_name r));
            (lit "feedback", JString (fr_feedback r)) ].

(** [existing] after the [try] block of [generate_feedback]: the rows of
    the file, or the empty list when the file is absent, cannot be
    read, is not JSON or does not hold a list. *)
Definition load_existing_feedback (fs : FS) (p : Path) : list json :=
  if path_exists fs p then
    match (text <- read_text fs p ;; json_loads text) with
    | Ok (JArray rows) => rows
    | _ => []
    end
  else [].

(** [row["submission_id"]] *)
Definition row_key (row : json) : result json :=
  match row with
  | JObject members =>
      match sget (lit "submission_id") members with
      | Some key => Ok key
      | None => Raise KeyError
      end
  | _ => Raise TypeError
  end.

Section Merge.
(** [a == b] for two numbers read from JSON, each a [bool], an [int]
    or a [float]. *)
Variable num_eqb : json -> json -> bool.

(** [a == b] for two keys of a [dict]. *)
Definition key_eqb (a b : json) : bool :=
  match a, b with
  | JString x, JString y => str_eqb x y
  | JNull, JNull => true
  | (JBool _ | JInt _ | JFloat _), (JBool _ | JInt _ | JFloat _) =>
      num_eqb a b
  | _, _ => false
  end.

(** [merged[row["submission_id"]] = row]; a list or a dict is not
    hashable. *)
Definition merge_row (merged : dict json json) (row : json)
  : result (dict json json) :=
  key <- row_key row ;;
  match key with
  | JArray _ => Raise TypeError
  | JObject _ => Raise TypeError
  | _ => Ok (dict_set key_eqb key row merged)
  end.

Fixpoint merge_rows (merged : dict json json) (rows : list json)
  : result (dict json json) :=
  match rows with
  | [] => Ok merged
  | row :: rest => m <- merge_row merged row ;; merge_rows m rest
  end.

(** [list(merged.values())] after the loops over [existing] and over
    [results_out]. *)
Definition merge_feedback (existing : list json)
  (results_out : list FeedbackRecord) : result (list json) :=
  m1 <- merge_rows [] existing ;;
  m2 <- merge_rows m1 (map json_of_feedback results_out) ;;
  Ok (dict_values m2).
End Merge.

(** [path.write_text(text)] *)
Definition write_text (fs : FS) (p : Path) (text : str) : result FS :=
  if dirs fs p then Raise IsADirectoryError
  else
    match files fs (parent p) with
    | Some _ => Raise (OtherError (lit "NotADirectoryError"))
    | None =>
        if dirs fs (parent p) then
          Ok {| files := fun q => if path_eqb q p then Some text
                                  else files fs q;
                dirs := dirs fs |}
        else Raise (OtherError (lit "FileNotFoundError"))
    end.

(** The end of [generate_feedback]: the rows of the file and the
    records of the run are merged and written back. *)
Definition write_feedback (num_eqb : json -> json -> bool) (fs : FS)
  (p : Path) (results_out : list FeedbackRecord) : result FS :=
  rows <- merge_feedback num_eqb (load_existing_feedback fs p) results_out ;;
  write_text fs p (json_dumps (JArray rows)).

(** *** Vocabulary *)

(** The row carries the submission id [sid]. *)
Definition has_id (sid : str) (row : json) : bool :=
  match row_key row with
  | Ok (JString s) => str_eqb sid s
  | _ => false
  end.

(** The first and the last row of [rows] with the id [sid]. *)
Definition first_row (sid : str) (rows : list json) : option json :=
  find (has_id sid) rows.

Definition last_row (sid : str) (rows : list json) : option json :=
  find (has_id sid) (rev rows).

(** The row can be a key of [merged]: it is an object whose
    ["submission_id"] is hashable. *)
Definition mergeable (row : json) : bool :=
  match row_key row with
  | Ok (JArray _) => false
  | Ok (JObject _) => false
  | Ok _ => true
  | Raise _ => false
  end.

(** The key under which a row is stored in [merged] is a given string
    exactly when the row carries that string as its id. *)
Definition keyed_by_id (num_eqb : json -> json -> bool)
  (merged : dict json json) : Prop :=
  Forall (fun e => forall sid,
              key_eqb num_eqb (JString sid) (fst e) = has_id sid (snd e))
    merged.

(** No string is a key of [merged] twice. *)
Definition string_keys_once (num_eqb : json -> json -> bool)
  (merged : dict json json) : Prop :=
  forall sid,
    length (filter (fun k => key_eqb num_eqb (JString sid) k)
              (dict_keys merged)) <= 1.

(** Equality of numbers by their kind and text; enough to run the merge
    on rows whose ids are strings. *)
Definition literal_num_eqb (a b : json) : bool :=
  match a, b with
  | JBool x, JBool y => Bool.eqb x y
  | JInt x, JInt y => (x =? y)%Z
  | JFloat x, JFloat y => str_eqb x y
  | _, _ => false
  end.

Definition stale_row : json :=
  JObject [ (lit "submission_id", JString (lit "submission_1"));
            (lit "full_name", JString (lit "Alex Kim"));
            (lit "feedback", JString (lit "Old comment.")) ].

Definition other_row : json :=
  JObject [ (lit "submission_id", JString (lit "submission_7"));
            (lit "full_name", JString (lit "Kim Park"));
            (lit "feedback", JString (lit "Return the value.")) ].

Definition new_record : FeedbackRecord :=
  {| fr_submission_id := lit "submission_1";
     fr_full_name := lit "Alex Kim";
     fr_feedback := lit "Check the bounds of range()." |}.

Definition feedback_path : Path := [lit "feedback.json"].


(** ** The name map built from the roster export *)

(** An entry of the map that [load_name_map_from_yaml] returns. *)
Record RosterEntry : Type := {
  roster_full_name : option str;
  roster_sid : option str;
  roster_email : option json
}.

(** [d.get(k)] *)
Definition get_or_null (k : str) (d : sdict json) : json :=
  match sget k d with
  | Some v => v
  | None => JNull
  end.

(** [a or b] *)
Definition py_or (a b : json) : json := if truthy a then a else b.

(** [d.get(":" + k) or d.get(k) or default]: the keys of the export
    have a leading colon or not, depending on how it was serialized. *)
Definition get_either (k : str) (d : sdict json) (default : json) : json :=
  py_or (get_or_null (58%N :: k) d) (py_or (get_or_null k d) default).

Section NameMap.
(** [yaml.safe_load(text)], for the documents whose nodes are of the
    types of JSON: mappings with string keys, sequences, strings,
    numbers, booleans and null. *)
Variable yaml_safe_load : str -> result json.

(** [str(v)] for a float, a list or a dict. *)
Variable repr : json -> str.

(** [str(v)] *)
Definition py_str (v : json) : str :=
  match v with
  | JString s => s
  | JInt z => str_of_Z z
  | JBool true => lit "True"
  | JBool false => lit "False"
  | JNull => lit "None"
  | _ => repr v
  end.

(** The body of the loop over [data.items()] for one [payload]. *)
Definition roster_entry (payload : json) : result RosterEntry :=
  let submitters :=
    match payload with
    | JObject members => get_either (lit "submitters") members (JArray [])
    | _ => JArray []
    end in
  match submitters with
  | JArray (s0 :: _) =>
      match s0 with
      | JObject fields =>
          (* (s0.get(":name") or s0.get("name") or "").strip() *)
          name <- match get_either (lit "name") fields (JString []) with
                  | JString s => Ok (strip s)
                  | _ => Raise AttributeError
                  end ;;
          let sid := get_either (lit "sid") fields (JString []) in
          let email := get_either (lit "email") fields (JString []) in
          Ok {| roster_full_name :=
                  if is_empty name then None else Some name;
                roster_sid := Some (py_str sid);
                roster_email := if truthy email then Some email else None |}
      | _ => Raise AttributeError
      end
  | _ =>
      Ok {| roster_full_name := None;
            roster_sid := None;
            roster_email := None |}
  end.

(** The loop, with [out] as it stands. *)
Fixpoint roster_entries (items : list (str * json))
  (out : sdict RosterEntry) : result (sdict RosterEntry) :=
  match items with
  | [] => Ok out
  | (sub_key, payload) :: rest =>
      entry <- roster_entry payload ;;
      roster_entries rest (sset sub_key entry out)
  end.

(** The function after [yaml.safe_load]: [data] is what it returned. *)
Definition name_map_of (data : json) : result (sdict RosterEntry) :=
  match (if truthy data then data else JObject []) with
  | JObject items => roster_entries items []
  | _ => Ok []
  end.

Definition load_name_map_from_yaml (fs : FS) (yml_path : Path)
  : result (sdict RosterEntry) :=
  text <- read_text fs yml_path ;;
  data <- yaml_safe_load text ;;
  name_map_of data.
End NameMap.

(** A full name as the loop of [generate_feedback] can use it as a key:
    not empty, no white space around it. *)
Definition name_normalized (n : str) : Prop := n <> [] /\ strip n = n.

(** The first submitter of a payload, when the payload is a mapping
    with a list of submitters that is not empty. *)
Definition first_submitter (payload : json) : option json :=
  match payload with
  | JObject members =>
      match get_either (lit "submitters") members (JArray []) with
      | JArray (s0 :: _) => Some s0
      | _ => None
      end
  | _ => None
  end.

(** The submitter is a mapping whose name is a string, or is missing,
    null or otherwise false. *)
Definition submitter_well_formed (s0 : json) : bool :=
  match s0 with
  | JObject fields =>
      match get_either (lit "name") fields (JString []) with
      | JString _ => true
      | _ => false
      end
  | _ => false
  end.

(** A document with two submissions, one of them without submitters. *)
Definition sample_roster : json :=
  JObject
    [ (lit "submission_1",
        JObject
          [ (lit ":submitters",
              JArray
                [ JObject
                    [ (lit ":name", JString (lit "  Alex Kim "));
                      (lit ":sid", JInt 1001);
                      (lit ":email", JString (lit "akim@example.edu")) ] ]) ]);
      (lit "submission_2",
        JObject [ (lit ":status", JString (lit "processed")) ]) ].


(** ** The end of a run: the store, then the feedback file *)

(** The statements of [generate_feedback] after the loop, from the state
    [st] in which the loop ended: the store is saved, then the feedback
    file is merged and written. The result is the file system as it is
    left and the exception, if one is raised. *)
Definition generate_feedback_end (num_eqb : json -> json -> bool)
  (temp_name : str) (st : LoopState) (fs : FS) : FS * option exn :=
  let saved :=
    save_student_errors store_path temp_name
      (json_of_totals (student_totals st)) fs in
  match write_feedback num_eqb saved feedback_path (results_out st) with
  | Ok written => (written, None)
  | Raise e => (saved, Some e)
  end.


(* ================================================================== *)
(** * Part II: properties                                              *)
(* ================================================================== *)


(** ** Strings and dictionaries *)

Lemma str_eqb_spec (a b : str) : reflect (a = b) (str_eqb a b).
Proof.
  revert b; induction a as [|x a IH]; intros [|y b]; simpl;
    try (constructor; congruence).
  destruct (N.eqb_spec x y) as [->|Hxy]; simpl.
  - destruct (IH b) as [->|Hab]; constructor; congruence.
  - constructor; congruence.
Qed.

Lemma str_eqb_eq (a b : str) : str_eqb a b = true <-> a = b.
Proof. destruct (str_eqb_spec a b); split; congruence. Qed.

Lemma str_eqb_refl (a : str) : str_eqb a a = true.
Proof. apply str_eqb_eq; reflexivity. Qed.

Lemma str_eqb_neq (a b : str) : str_eqb a b = false <-> a <> b.
Proof. destruct (str_eqb_spec a b); split; congruence. Qed.

Lemma str_mem_In (c : str) (s : list str) : str_mem c s = true <-> In c s.
Proof.
  unfold str_mem; rewrite existsb_exists; split.
  - intros [x [Hin Heq]]; apply str_eqb_eq in Heq; subst; exact Hin.
  - intros Hin; exists c; split; [exact Hin | apply str_eqb_refl].
Qed.

Lemma str_mem_not_In (c : str) (s : list str) :
  str_mem c s = false <-> ~ In c s.
Proof.
  rewrite <- str_mem_In; destruct (str_mem c s); split; congruence.
Qed.

Lemma str_compare_refl (a : str) : str_compare a a = Eq.
Proof.
  induction a as [|x a IH]; simpl; [reflexivity|].
  rewrite N.compare_refl; exact IH.
Qed.

Lemma str_compare_antisym (a b : str) :
  str_compare b a = CompOpp (str_compare a b).
Proof.
  revert b; induction a as [|x a IH]; intros [|y b]; simpl; try reflexivity.
  rewrite (N.compare_antisym x y).
  destruct (N.compare x y); simpl; auto.
Qed.

Lemma str_compare_eq (a b : str) : str_compare a b = Eq -> a = b.
Proof.
  revert b; induction a as [|x a IH]; intros [|y b]; simpl;
    try discriminate; auto.
  destruct (N.compare x y) eqn:E; try discriminate.
  apply N.compare_eq in E; subst; intros H; f_equal; auto.
Qed.

Lemma str_leb_total (a b : str) : str_leb a b = true \/ str_leb b a = true.
Proof.
  unfold str_leb; rewrite (str_compare_antisym a b).
  destruct (str_compare a b); simpl; auto.
Qed.

Lemma str_compare_lt_trans (a b c : str) :
  str_compare a b = Lt -> str_compare b c = Lt -> str_compare a c = Lt.
Proof.
  revert b c; induction a as [|x a IH]; intros [|y b] [|z c]; simpl;
    try discriminate; auto.
  destruct (N.compare x y) eqn:Exy; try discriminate;
    destruct (N.compare y z) eqn:Eyz; try discriminate; intros H1 H2.
  - apply N.compare_eq in Exy, Eyz; subst; rewrite N.compare_refl; eauto.
  - apply N.compare_eq in Exy; subst; rewrite Eyz; reflexivity.
  - apply N.compare_eq in Eyz; subst; rewrite Exy; reflexivity.
  - rewrite N.compare_lt_iff in Exy, Eyz.
    assert (Hxz : (x < z)%N) by lia.
    rewrite <- N.compare_lt_iff in Hxz; rewrite Hxz; reflexivity.
Qed.

Lemma str_leb_trans (a b c : str) :
  str_leb a b = true -> str_leb b c = true -> str_leb a c = true.
Proof.
  unfold str_leb.
  destruct (str_compare a b) eqn:Eab; try discriminate;
    destruct (str_compare b c) eqn:Ebc; try discriminate; intros _ _.
  - apply str_compare_eq in Eab; subst; rewrite Ebc; reflexivity.
  - apply str_compare_eq in Eab; subst; rewrite Ebc; reflexivity.
  - apply str_compare_eq in Ebc; subst; rewrite Eab; reflexivity.
  - rewrite (str_compare_lt_trans _ _ _ Eab Ebc); reflexivity.
Qed.

Section DictFacts.
Variable V : Type.
Implicit Types (d : sdict V) (k : str) (v : V).

Lemma sget_sset_same k v d : sget k (sset k v d) = Some v.
Proof.
  unfold sget, sset; induction d as [|[k' v'] d IH]; simpl.
  - rewrite str_eqb_refl; reflexivity.
  - destruct (str_eqb k k') eqn:E; simpl; rewrite E; auto.
Qed.

Lemma sget_sset_other k k' v d :
  k' <> k -> sget k' (sset k v d) = sget k' d.
Proof.
  unfold sget, sset; intros Hne; induction d as [|[k0 v0] d IH]; simpl.
  - apply str_eqb_neq in Hne; rewrite Hne; reflexivity.
  - destruct (str_eqb k k0) eqn:E; simpl.
    + apply str_eqb_eq in E; subst k0.
      apply str_eqb_neq in Hne; rewrite Hne; reflexivity.
    + destruct (str_eqb k' k0); auto.
Qed.

Lemma sget_In k v d : sget k d = Some v -> In (k, v) d.
Proof.
  unfold sget; induction d as [|[k' v'] d IH]; simpl; [discriminate|].
  destruct (str_eqb_spec k k') as [->|Hne].
  - intros [= ->]; auto.
  - auto.
Qed.

Lemma sget_None_keys k d : sget k d = None <-> ~ In k (dict_keys d).
Proof.
  unfold sget, dict_keys; induction d as [|[k' v'] d IH]; simpl.
  - tauto.
  - destruct (str_eqb_spec k k') as [->|Hne].
    + split; [discriminate | intros H; exfalso; auto].
    + rewrite IH; split; [intros H [E|E]; [congruence | auto] | tauto].
Qed.

Lemma sget_Some_keys k v d : sget k d = Some v -> In k (dict_keys d).
Proof.
  intros H; apply sget_In in H.
  unfold dict_keys; apply in_map_iff; exists (k, v); auto.
Qed.

(** Values of the store after an assignment: the new one or old ones. *)
Lemma In_sset k v d kv :
  In kv (sset k v d) -> snd kv = v \/ In kv d.
Proof.
  unfold sset; induction d as [|[k0 v0] d IH]; simpl.
  - intros [<-|[]]; auto.
  - destruct (str_eqb k k0); simpl; intros [<-|H]; auto.
    destruct (IH H); auto.
Qed.

Lemma sset_keys_present k v v0 d :
  sget k d = Some v0 -> dict_keys (sset k v d) = dict_keys d.
Proof.
  unfold sget, sset, dict_keys; induction d as [|[k' v'] d IH]; simpl;
    [discriminate|].
  destruct (str_eqb k k'); simpl; intros H; [reflexivity|].
  f_equal; auto.
Qed.

Lemma sset_absent k v d : sget k d = None -> sset k v d = d ++ [(k, v)].
Proof.
  unfold sget, sset; induction d as [|[k' v'] d IH]; simpl; [reflexivity|].
  destruct (str_eqb k k'); [discriminate|].
  intros H; f_equal; auto.
Qed.
End DictFacts.

(** ** Slices, joins and strips *)

Lemma slice_to_length_le {A} (s : list A) (stop : Z) :
  (0 <= stop)%Z -> (len (slice_to s stop) <= stop)%Z.
Proof.
  intros H; unfold slice_to, len.
  destruct (Z.leb_spec 0 stop); [|lia].
  rewrite length_firstn; lia.
Qed.

Lemma slice_to_length_le_len {A} (s : list A) (stop : Z) :
  (len (slice_to s stop) <= len s)%Z.
Proof.
  unfold slice_to, len.
  destruct (0 <=? stop)%Z; rewrite length_firstn; lia.
Qed.

Lemma In_firstn_list {A} (n : nat) (s : list A) (x : A) :
  In x (firstn n s) -> In x s.
Proof.
  revert s; induction n as [|n IH]; intros [|y s]; simpl; try tauto.
  intros [H|H]; auto.
Qed.

Lemma In_skipn_list {A} (n : nat) (s : list A) (x : A) :
  In x (skipn n s) -> In x s.
Proof.
  revert s; induction n as [|n IH]; intros [|y s]; simpl; try tauto.
  auto.
Qed.

Lemma In_slice_to {A} (s : list A) (stop : Z) (x : A) :
  In x (slice_to s stop) -> In x s.
Proof.
  unfold slice_to; destruct (0 <=? stop)%Z; apply In_firstn_list.
Qed.

Lemma In_slice_from {A} (s : list A) (start : Z) (x : A) :
  In x (slice_from s start) -> In x s.
Proof.
  unfold slice_from; destruct (0 <=? start)%Z; apply In_skipn_list.
Qed.

Lemma In_lstrip (s : str) (c : char) : In c (lstrip s) -> In c s.
Proof.
  induction s as [|x s IH]; simpl; [tauto|].
  destruct (is_space x); simpl; tauto.
Qed.

Lemma In_rstrip (s : str) (c : char) : In c (rstrip s) -> In c s.
Proof.
  induction s as [|x s IH]; simpl; [tauto|].
  destruct (rstrip s) as [|y r] eqn:E.
  - destruct (is_space x); simpl; tauto.
  - simpl in *; intros [H|H]; auto.
Qed.

Lemma In_strip (s : str) (c : char) : In c (strip s) -> In c s.
Proof. intros H; apply In_lstrip, In_rstrip, H. Qed.

Lemma length_lstrip (s : str) : length (lstrip s) <= length s.
Proof.
  induction s as [|x s IH]; simpl; [lia|].
  destruct (is_space x); simpl; lia.
Qed.

Lemma length_rstrip (s : str) : length (rstrip s) <= length s.
Proof.
  induction s as [|x s IH]; simpl; [lia|].
  destruct (rstrip s) as [|y r] eqn:E.
  - destruct (is_space x); simpl; lia.
  - simpl in *; lia.
Qed.

Lemma length_strip (s : str) : length (strip s) <= length s.
Proof.
  unfold strip.
  pose proof (length_rstrip (lstrip s)); pose proof (length_lstrip s); lia.
Qed.

Lemma In_join (sep : str) (parts : list str) (c : char) :
  In c (join sep parts) -> In c sep \/ exists p, In p parts /\ In c p.
Proof.
  induction parts as [|p rest IH]; simpl; [tauto|].
  destruct rest as [|q rest'].
  - intros H; right; exists p; auto.
  - rewrite !in_app_iff; intros [H|[H|H]].
    + right; exists p; auto.
    + auto.
    + destruct (IH H) as [Hs|[p' [Hp Hc]]]; [auto|].
      right; exists p'; split; [right; exact Hp | exact Hc].
Qed.

Lemma splitlines_from_no_break (s line l : str) (c : char) :
  (forall x, In x line -> is_linebreak x = false) ->
  In l (splitlines_from line s) -> In c l -> is_linebreak c = false.
Proof.
  revert line.
  enough (Hboth :
    (forall line,
        (forall x, In x line -> is_linebreak x = false) ->
        In l (splitlines_from line s) -> In c l -> is_linebreak c = false) /\
    (forall a line,
        (forall x, In x line -> is_linebreak x = false) ->
        In l (splitlines_from line (a :: s)) -> In c l ->
        is_linebreak c = false)) by apply Hboth.
  induction s as [|b s [IH0 IH1]].
  - split.
    + intros line Hline; simpl; destruct line; simpl; [tauto|].
      intros [<-|[]]; auto.
    + intros a line Hline; simpl.
      destruct (is_linebreak a) eqn:Ea; simpl.
      * intros [<-|[]]; auto.
      * intros Hin Hc.
        assert (Hl : l = line ++ [a]).
        { destruct (line ++ [a]) eqn:E; simpl in Hin; [tauto|].
          destruct Hin as [<-|[]]; reflexivity. }
        subst l; apply in_app_iff in Hc as [Hc|[<-|[]]]; auto.
  - split; [exact (IH1 b)|].
    intros a line Hline; simpl.
    destruct (is_linebreak a) eqn:Ea.
    + simpl; intros [<-|Hin]; [auto|].
      destruct ((a =? 13) && (b =? 10))%N.
      * apply (IH0 []); [simpl; tauto | exact Hin].
      * apply (IH1 b []); [simpl; tauto | exact Hin].
    + apply (IH1 b (line ++ [a])).
      intros x Hx; apply in_app_iff in Hx as [Hx|[<-|[]]]; auto.
Qed.

Lemma splitlines_no_break (s l : str) (c : char) :
  In l (splitlines s) -> In c l -> is_linebreak c = false.
Proof.
  apply splitlines_from_no_break; simpl; tauto.
Qed.

Lemma In_replace_double_backslash (s : str) (c : char) :
  In c (replace_double_backslash s) -> In c s.
Proof.
  enough (Hboth :
    (In c (replace_double_backslash s) -> In c s) /\
    (forall a, In c (replace_double_backslash (a :: s)) -> In c (a :: s)))
    by apply Hboth.
  induction s as [|b s [IH0 IH1]].
  - split; simpl; tauto.
  - split; [exact (IH1 b)|].
    intros a; cbn [replace_double_backslash].
    destruct ((a =? 92) && (b =? 92))%N eqn:E.
    + apply andb_true_iff in E as [Ea Eb].
      apply N.eqb_eq in Ea, Eb; subst.
      intros [<-|H]; [left; reflexivity|].
      right; right; exact (IH0 H).
    + intros [<-|H]; [left; reflexivity|].
      right; exact (IH1 b H).
Qed.


(** ** Message normalizer *)

Lemma one_line_no_break (m : str) (c : char) :
  In c (one_line m) -> is_linebreak c = false.
Proof.
  unfold one_line; intros H.
  apply In_join in H as [H|[p [Hp Hc]]].
  - simpl in H; destruct H as [<-|[]]; reflexivity.
  - apply in_map_iff in Hp as [l [<- Hl]].
    apply filter_In in Hl as [Hl _].
    apply In_strip in Hc.
    exact (splitlines_no_break _ _ _ Hl Hc).
Qed.

Lemma condense_no_break (msg : option str) (limit : Z) (c : char) :
  In c (condense msg limit) -> is_linebreak c = false.
Proof.
  destruct msg as [[|x m]|]; simpl; try tauto.
  intros H; apply In_slice_to, In_replace_double_backslash in H.
  exact (one_line_no_break _ _ H).
Qed.

(** C7, as amended. For a limit that is not negative the output of
    [condense] has at most [limit] characters; for every limit the output
    contains no line feed, no carriage return and no other line boundary;
    [None] and the empty string give the empty string. *)
Theorem condense_bounded_single_line (msg : option str) (limit : Z) :
  ((0 <= limit)%Z -> (len (condense msg limit) <= limit)%Z) /\
  (forall c, In c (condense msg limit) -> is_linebreak c = false) /\
  ~ In 10%N (condense msg limit) /\
  ~ In 13%N (condense msg limit) /\
  condense None limit = [] /\
  condense (Some []) limit = [].
Proof.
  split; [|split; [|split; [|split; [|split]]]]; try reflexivity.
  - intros Hl; destruct msg as [[|x m]|]; simpl; try (unfold len; simpl; lia).
    apply slice_to_length_le; exact Hl.
  - intros c; apply condense_no_break.
  - intros H; apply condense_no_break in H; discriminate.
  - intros H; apply condense_no_break in H; discriminate.
Qed.

Lemma condense_bounded_single_line_witness :
  (len (condense (Some (lit "Traceback:  x\\y ")) 9) <= 9)%Z.
Proof.
  apply (proj1 (condense_bounded_single_line
                  (Some (lit "Traceback:  x\\y ")) 9)).
  lia.
Defined.

(** C7 as stated fails for a negative limit: [s[:-1]] drops the last
    character only, so ["abc"] condensed with limit [-1] is ["ab"], whose
    length exceeds the limit. *)
Lemma condense_negative_limit_counterexample :
  condense (Some (lit "abc")) (-1) = lit "ab" /\
  ~ (len (condense (Some (lit "abc")) (-1)) <= -1)%Z.
Proof.
  split; [reflexivity|].
  vm_compute; intros H; apply H; reflexivity.
Qed.


(** ** Error classifier *)

Lemma dedupe_fold (codes seen out : list str) :
  snd (fold_left dedupe_step codes (seen, out)) =
  out ++ first_occurrences seen codes.
Proof.
  revert seen out; induction codes as [|c codes IH]; intros seen out; simpl.
  - rewrite app_nil_r; reflexivity.
  - destruct (str_mem c seen); rewrite IH; [reflexivity|].
    rewrite <- app_assoc; reflexivity.
Qed.

Lemma dedupe_first_occurrences (codes : list str) :
  dedupe codes = first_occurrences [] codes.
Proof. unfold dedupe; rewrite dedupe_fold; reflexivity. Qed.

Lemma first_occurrences_In (codes seen : list str) (c : str) :
  In c (first_occurrences seen codes) <-> In c codes /\ ~ In c seen.
Proof.
  revert seen; induction codes as [|x codes IH]; intros seen; simpl.
  - tauto.
  - destruct (str_mem x seen) eqn:E.
    + apply str_mem_In in E; rewrite IH.
      split; [tauto|]; intros [[->|H] Hn]; tauto.
    + apply str_mem_not_In in E; simpl; rewrite IH; simpl.
      destruct (str_eqb_spec x c) as [->|Hne]; [tauto|].
      split; [tauto|]; intros [[H|H] Hn]; [congruence|].
      right; split; [exact H|]; intros [H'|H']; auto.
Qed.

Lemma first_occurrences_NoDup (codes seen : list str) :
  NoDup (first_occurrences seen codes).
Proof.
  revert seen; induction codes as [|x codes IH]; intros seen; simpl.
  - constructor.
  - destruct (str_mem x seen); [apply IH|].
    constructor; [|apply IH].
    rewrite first_occurrences_In; simpl; tauto.
Qed.

Lemma StronglySorted_weaken {A} (R R' : A -> A -> Prop) (l : list A) :
  (forall x y, In x l -> In y l -> R x y -> R' x y) ->
  StronglySorted R l -> StronglySorted R' l.
Proof.
  intros Himp Hs; induction Hs as [|a l Hs IH Hall]; constructor.
  - apply IH; intros x y Hx Hy; apply Himp; simpl; auto.
  - rewrite Forall_forall in *; intros y Hy.
    apply Himp; simpl; auto.
Qed.

Lemma first_index_cons_other (c x : str) (l : list str) :
  c <> x -> first_index c (x :: l) = S (first_index c l).
Proof. intros H; simpl; apply str_eqb_neq in H; rewrite H; reflexivity. Qed.

Lemma first_occurrences_order (codes seen : list str) :
  first_occurrence_order codes (first_occurrences seen codes).
Proof.
  unfold first_occurrence_order.
  revert seen; induction codes as [|x codes IH]; intros seen; simpl.
  - constructor.
  - destruct (str_mem x seen) eqn:E.
    + apply str_mem_In in E.
      apply StronglySorted_weaken with (2 := IH seen).
      intros a b Ha Hb Hab.
      apply first_occurrences_In in Ha as [_ Ha], Hb as [_ Hb].
      destruct (str_eqb_spec a x) as [->|_]; [tauto|].
      destruct (str_eqb_spec b x) as [->|_]; [tauto|].
      lia.
    + constructor.
      * apply StronglySorted_weaken with (2 := IH (x :: seen)).
        intros a b Ha Hb Hab.
        apply first_occurrences_In in Ha as [_ Ha], Hb as [_ Hb].
        simpl in Ha, Hb.
        destruct (str_eqb_spec a x) as [->|_]; [tauto|].
        destruct (str_eqb_spec b x) as [->|_]; [tauto|].
        lia.
      * apply Forall_forall; intros b Hb.
        apply first_occurrences_In in Hb as [_ Hb]; simpl in Hb.
        rewrite str_eqb_refl.
        destruct (str_eqb_spec b x) as [->|_]; [tauto|].
        lia.
Qed.

Lemma dedupe_In (codes : list str) (c : str) :
  In c (dedupe codes) <-> In c codes.
Proof.
  rewrite dedupe_first_occurrences, first_occurrences_In; simpl; tauto.
Qed.

Lemma dedupe_NoDup (codes : list str) : NoDup (dedupe codes).
Proof. rewrite dedupe_first_occurrences; apply first_occurrences_NoDup. Qed.

Lemma dedupe_order (codes : list str) :
  first_occurrence_order codes (dedupe codes).
Proof. rewrite dedupe_first_occurrences; apply first_occurrences_order. Qed.

Lemma dedupe_nil (codes : list str) : dedupe codes = [] -> codes = [].
Proof.
  destruct codes as [|c codes]; [reflexivity|]; intros H.
  assert (Hin : In c (dedupe (c :: codes))) by (apply dedupe_In; simpl; auto).
  rewrite H in Hin; destruct Hin.
Qed.

Lemma dedupe_all_same (codes : list str) (u : str) :
  codes <> [] -> (forall c, In c codes -> c = u) -> dedupe codes = [u].
Proof.
  intros Hne Hall.
  pose proof (dedupe_NoDup codes) as Hnd.
  assert (Hin : forall c, In c (dedupe codes) -> c = u)
    by (intros c Hc; apply Hall, dedupe_In, Hc).
  destruct (dedupe codes) as [|a [|b rest]] eqn:E.
  - apply dedupe_nil in E; contradiction.
  - f_equal; apply Hin; simpl; auto.
  - exfalso; inversion Hnd as [|? ? Hna _]; subst.
    apply Hna; rewrite (Hin a), (Hin b); simpl; auto.
Qed.

Section ClassifierFacts.
Variable re_search : str -> str -> result bool.

(** A pattern that raises [re.error] is passed over. *)
Lemma search_patterns_skip (pat : str) (pats : list str) (i : str) :
  re_search pat i = Raise ReError ->
  search_patterns re_search (pat :: pats) i =
  search_patterns re_search pats i.
Proof. intros H; simpl; rewrite H; reflexivity. Qed.

Lemma search_patterns_filter (pats : list str) (i : str) :
  search_patterns re_search
    (filter (fun pat => match re_search pat i with
                        | Raise ReError => false
                        | _ => true
                        end) pats) i =
  search_patterns re_search pats i.
Proof.
  induction pats as [|pat pats IH]; simpl; [reflexivity|].
  destruct (re_search pat i) as [[|]|e] eqn:E; simpl; try rewrite E; auto.
  destruct e; simpl; try rewrite E; auto.
Qed.

Lemma search_bank_drop_invalid (bank : Bank) (i : str) :
  search_bank re_search (drop_invalid re_search i bank) i =
  search_bank re_search bank i.
Proof.
  induction bank as [|[code entry] bank IH]; simpl; [reflexivity|].
  destruct (str_eqb code UNCLASSIFIED); [exact IH|].
  destruct (regex entry) as [ps|]; simpl.
  - rewrite search_patterns_filter.
    destruct (search_patterns re_search ps i) as [[|]|e]; simpl; auto.
  - exact IH.
Qed.

Hypothesis re_safe : re_raises_only_re_error re_search.

Lemma search_patterns_total (pats : list str) (i : str) :
  exists b, search_patterns re_search pats i = Ok b.
Proof.
  induction pats as [|pat pats [b IH]]; simpl; [eauto|].
  destruct (re_search pat i) as [[|]|e] eqn:E; eauto.
  rewrite (re_safe _ _ _ E); eauto.
Qed.

Lemma search_bank_total (bank : Bank) (i : str) :
  exists found, search_bank re_search bank i = Ok found.
Proof.
  induction bank as [|[code entry] bank [found IH]]; simpl; [eauto|].
  destruct (str_eqb code UNCLASSIFIED); [eauto|].
  destruct (search_patterns_total
              (match regex entry with Some ps => ps | None => [] end) i)
    as [[|] ->]; simpl; eauto.
Qed.

Lemma message_codes_total (msgs : list str) (bank : Bank) :
  exists codes,
    message_codes re_search msgs bank = Ok codes /\
    length codes = length msgs.
Proof.
  induction msgs as [|i msgs [codes [IH Hlen]]]; simpl; [eauto|].
  unfold message_code.
  destruct (search_bank_total bank i) as [found ->]; simpl.
  rewrite IH; simpl; eexists; split; [reflexivity|simpl; lia].
Qed.

Lemma search_patterns_no_match (pats : list str) (i : str) :
  (forall pat, In pat pats -> re_search pat i <> Ok true) ->
  search_patterns re_search pats i = Ok false.
Proof.
  induction pats as [|pat pats IH]; simpl; intros H; [reflexivity|].
  destruct (re_search pat i) as [[|]|e] eqn:E.
  - exfalso; apply (H pat); auto.
  - apply IH; intros p Hp; apply H; auto.
  - rewrite (re_safe _ _ _ E); apply IH; intros p Hp; apply H; auto.
Qed.

Lemma search_bank_no_match (bank : Bank) (i : str) :
  no_pattern_matches re_search bank i ->
  search_bank re_search bank i = Ok None.
Proof.
  unfold no_pattern_matches.
  induction bank as [|[code entry] bank IH]; simpl; intros H; [reflexivity|].
  assert (IH' : search_bank re_search bank i = Ok None)
    by (apply IH; intros c e ps p Hin; apply (H c e ps p); auto).
  destruct (str_eqb code UNCLASSIFIED); [exact IH'|].
  rewrite search_patterns_no_match; simpl; [exact IH'|].
  destruct (regex entry) as [ps|] eqn:E; simpl; [|tauto].
  intros pat Hp; apply (H code entry ps pat); auto.
Qed.

Lemma message_codes_no_match (msgs : list str) (bank : Bank) :
  (forall i, In i msgs -> no_pattern_matches re_search bank i) ->
  message_codes re_search msgs bank = Ok (map (fun _ => UNCLASSIFIED) msgs).
Proof.
  induction msgs as [|i msgs IH]; simpl; intros H; [reflexivity|].
  unfold message_code; rewrite search_bank_no_match by auto; simpl.
  rewrite IH by auto; reflexivity.
Qed.
End ClassifierFacts.

(** C2. Provided [re.search] raises nothing but [re.error], [classify]
    returns, for every list of messages and every bank, a sequence [out]
    that is never empty, has no duplicates, holds every per-message code
    and lists the codes in the order of their first occurrence; for a
    non-empty list it holds nothing but per-message codes; for the empty
    list, and when no pattern of the bank matches any message, it is
    exactly ["UNCLASSIFIED"]. *)
Theorem classify_nonempty_unique_ordered
  (re_search : str -> str -> result bool) (msgs : list str) (bank : Bank) :
  re_raises_only_re_error re_search ->
  exists codes out,
    message_codes re_search msgs bank = Ok codes /\
    classify_errors_with_bank re_search msgs bank = Ok out /\
    length codes = length msgs /\
    out <> [] /\
    NoDup out /\
    first_occurrence_order codes out /\
    (forall c, In c codes -> In c out) /\
    (msgs <> [] -> forall c, In c out -> In c codes) /\
    (msgs = [] -> out = [UNCLASSIFIED]) /\
    ((forall i, In i msgs -> no_pattern_matches re_search bank i) ->
     out = [UNCLASSIFIED]).
Proof.
  intros Hsafe.
  destruct (message_codes_total _ Hsafe msgs bank) as [codes [Hcodes Hlen]].
  exists codes.
  exists (match dedupe codes with [] => [UNCLASSIFIED] | out => out end).
  unfold classify_errors_with_bank; rewrite Hcodes; simpl.
  split; [reflexivity|]. split; [reflexivity|]. split; [exact Hlen|].
  pose proof (dedupe_NoDup codes) as Hnd.
  pose proof (dedupe_order codes) as Hord.
  pose proof (dedupe_In codes) as Hin.
  destruct (dedupe codes) as [|a out] eqn:E.
  - apply dedupe_nil in E; subst codes.
    destruct msgs; [|discriminate].
    repeat split; try congruence.
    + constructor; [simpl; tauto | constructor].
    + constructor; [constructor | constructor].
    + simpl; tauto.
  - repeat split; try congruence; try assumption.
    + intros c Hc; apply Hin; exact Hc.
    + intros _ c Hc; apply Hin; exact Hc.
    + intros ->; simpl in Hcodes; injection Hcodes as <-.
      discriminate E.
    + intros Hno.
      rewrite (message_codes_no_match _ Hsafe msgs bank Hno) in Hcodes.
      injection Hcodes as <-.
      destruct msgs as [|i msgs]; [discriminate E|].
      rewrite <- E; apply dedupe_all_same; [discriminate|].
      intros c Hc; apply in_map_iff in Hc as [_ [<- _]]; reflexivity.
Qed.

Lemma literal_search_safe : re_raises_only_re_error literal_search.
Proof.
  intros pat i e; unfold literal_search.
  destruct (str_eqb pat (lit "(")); congruence.
Qed.

Lemma classify_nonempty_unique_ordered_witness :
  sample_messages <> [] /\
  classify_errors_with_bank literal_search sample_messages sample_bank =
    Ok [lit "LOOP_BAD_RANGE"; lit "FLOAT_ON_NONE"; lit "UNCLASSIFIED"] /\
  exists codes out,
    message_codes literal_search sample_messages sample_bank = Ok codes /\
    classify_errors_with_bank literal_search sample_messages sample_bank =
      Ok out /\
    length codes = length sample_messages /\
    out <> [] /\
    NoDup out /\
    first_occurrence_order codes out /\
    (forall c, In c codes -> In c out) /\
    (sample_messages <> [] -> forall c, In c out -> In c codes) /\
    (sample_messages = [] -> out = [UNCLASSIFIED]) /\
    ((forall i, In i sample_messages ->
                no_pattern_matches literal_search sample_bank i) ->
     out = [UNCLASSIFIED]).
Proof.
  split; [discriminate|].
  split; [vm_compute; reflexivity|].
  exact (classify_nonempty_unique_ordered literal_search sample_messages
           sample_bank literal_search_safe).
Defined.

(** C8. A pattern on which [re.search] raises [re.error] is passed over:
    the remaining patterns of the entry and the remaining entries are
    tested as if the pattern were not in the bank, and, [re.error] being
    the only exception of [re.search], [classify] returns for every list
    of messages and every bank. *)
Theorem classify_skips_invalid_patterns
  (re_search : str -> str -> result bool) (msgs : list str) (bank : Bank) :
  re_raises_only_re_error re_search ->
  (exists out, classify_errors_with_bank re_search msgs bank = Ok out) /\
  (forall pat pats i,
      re_search pat i = Raise ReError ->
      search_patterns re_search (pat :: pats) i =
      search_patterns re_search pats i) /\
  (forall i,
      search_bank re_search bank i =
      search_bank re_search (drop_invalid re_search i bank) i).
Proof.
  intros Hsafe; split; [|split].
  - destruct (message_codes_total _ Hsafe msgs bank) as [codes [Hcodes _]].
    unfold classify_errors_with_bank; rewrite Hcodes; simpl; eauto.
  - intros pat pats i; apply search_patterns_skip.
  - intros i; symmetry; apply search_bank_drop_invalid.
Qed.

Lemma classify_skips_invalid_patterns_witness :
  literal_search (lit "(") (lit "NoneType") = Raise ReError /\
  (exists out,
      classify_errors_with_bank literal_search sample_messages sample_bank =
        Ok out) /\
  search_patterns literal_search [lit "("; lit "NoneType"] (lit "NoneType") =
    Ok true.
Proof.
  split; [reflexivity|].
  destruct (classify_skips_invalid_patterns literal_search sample_messages
              sample_bank literal_search_safe) as [Hret [Hskip _]].
  split; [exact Hret|].
  rewrite (Hskip (lit "(") [lit "NoneType"] (lit "NoneType") eq_refl).
  reflexivity.
Defined.


(** ** Student history store: [record_student_submission] *)

Lemma record_get_same (totals : Totals) (name sid : str) (codes : list str)
  (fb : option str) :
  sget name (record_student_submission totals name sid codes fb) =
  Some {| full_name := full_name (student_or_new totals name);
          feedback_count := feedback_count (student_or_new totals name) + 1;
          history := history (student_or_new totals name) ++
                     [{| submission_id := sid;
                         error_codes := codes;
                         feedback := or_empty fb |}] |}.
Proof.
  unfold record_student_submission, student_or_new.
  rewrite sget_sset_same.
  destruct (sget name totals) as [s|] eqn:E.
  - rewrite E; reflexivity.
  - rewrite sget_sset_same; reflexivity.
Qed.

Lemma record_get_other (totals : Totals) (name name' sid : str)
  (codes : list str) (fb : option str) :
  name' <> name ->
  sget name' (record_student_submission totals name sid codes fb) =
  sget name' totals.
Proof.
  intros Hne; unfold record_student_submission.
  rewrite sget_sset_other by exact Hne.
  destruct (sget name totals); [reflexivity|].
  apply sget_sset_other; exact Hne.
Qed.

Lemma student_or_new_record (totals : Totals) (name sid : str)
  (codes : list str) (fb : option str) :
  student_or_new (record_student_submission totals name sid codes fb) name =
  {| full_name := full_name (student_or_new totals name);
     feedback_count := feedback_count (student_or_new totals name) + 1;
     history := history (student_or_new totals name) ++
                [{| submission_id := sid;
                    error_codes := codes;
                    feedback := or_empty fb |}] |}.
Proof.
  unfold student_or_new at 1; rewrite record_get_same; reflexivity.
Qed.

Lemma store_consistent_sset (totals : Totals) (name : str)
  (s : StudentRecord) :
  store_consistent totals -> record_consistent s ->
  store_consistent (sset name s totals).
Proof.
  unfold store_consistent; rewrite !Forall_forall; intros Hall Hs kv Hin.
  apply In_sset in Hin as [->|Hin]; auto.
Qed.

Lemma store_consistent_get (totals : Totals) (name : str) (s : StudentRecord) :
  store_consistent totals -> sget name totals = Some s -> record_consistent s.
Proof.
  unfold store_consistent; rewrite Forall_forall; intros Hall Hget.
  exact (Hall _ (sget_In _ _ _ _ Hget)).
Qed.

Lemma record_consistent_new (name : str) : record_consistent (new_student name).
Proof. reflexivity. Qed.

Lemma record_preserves_consistency (totals : Totals) (name sid : str)
  (codes : list str) (fb : option str) :
  store_consistent totals ->
  store_consistent (record_student_submission totals name sid codes fb).
Proof.
  intros Hc; unfold record_student_submission.
  set (totals1 := match sget name totals with
                  | Some _ => totals
                  | None => sset name (new_student name) totals
                  end).
  assert (Hc1 : store_consistent totals1).
  { subst totals1; destruct (sget name totals); [exact Hc|].
    apply store_consistent_sset; [exact Hc | apply record_consistent_new]. }
  apply store_consistent_sset; [exact Hc1|].
  assert (Hs : record_consistent
                 (match sget name totals1 with
                  | Some s => s
                  | None => new_student name
                  end)).
  { destruct (sget name totals1) as [s|] eqn:E.
    - exact (store_consistent_get _ _ _ Hc1 E).
    - apply record_consistent_new. }
  unfold record_consistent, len in *; simpl.
  rewrite length_app; simpl; lia.
Qed.

Lemma record_calls_consistent (calls : list RecordCall) (totals : Totals)
  (name : str) :
  store_consistent totals -> store_consistent (record_calls totals name calls).
Proof.
  unfold record_calls; revert totals.
  induction calls as [|c calls IH]; intros totals Hc; simpl; [exact Hc|].
  apply IH, record_preserves_consistency, Hc.
Qed.

Lemma record_calls_student (calls : list RecordCall) (totals : Totals)
  (name : str) :
  student_or_new (record_calls totals name calls) name =
  {| full_name := full_name (student_or_new totals name);
     feedback_count :=
       feedback_count (student_or_new totals name) + len calls;
     history :=
       history (student_or_new totals name) ++ map entry_of_call calls |}.
Proof.
  unfold record_calls; revert totals.
  induction calls as [|c calls IH]; intros totals; simpl.
  - rewrite Z.add_0_r, app_nil_r.
    destruct (student_or_new totals name); reflexivity.
  - rewrite IH, student_or_new_record; simpl.
    f_equal; [unfold len; simpl length; lia|].
    rewrite <- app_assoc; reflexivity.
Qed.

Lemma record_calls_other (calls : list RecordCall) (totals : Totals)
  (name name' : str) :
  name' <> name ->
  sget name' (record_calls totals name calls) = sget name' totals.
Proof.
  intros Hne; unfold record_calls; revert totals.
  induction calls as [|c calls IH]; intros totals; simpl; [reflexivity|].
  rewrite IH; apply record_get_other; exact Hne.
Qed.

(** C3. On a store in which every record has [feedback_count ==
    len(history)], [record] for a student who is absent creates the
    record from [feedback_count = 0] and [history = []] and stores it with
    one entry; after every call, and after any number of calls, every
    record of the store still has [feedback_count == len(history)]; [N]
    calls for one student raise the student's [feedback_count] and the
    length of the student's history by exactly [N] over the values before
    (zero for a student who was absent), appending one entry per call in
    call order, and leave every other student's record as it was. *)
Theorem record_counts_history (totals : Totals) (name : str)
  (calls : list RecordCall) :
  store_consistent totals ->
  (forall sid codes fb,
      sget name totals = None ->
      sget name (record_student_submission totals name sid codes fb) =
      Some {| full_name := name;
              feedback_count := 0 + 1;
              history := [] ++ [{| submission_id := sid;
                                   error_codes := codes;
                                   feedback := or_empty fb |}] |}) /\
  (forall sid codes fb,
      store_consistent (record_student_submission totals name sid codes fb)) /\
  store_consistent (record_calls totals name calls) /\
  feedback_count (student_or_new (record_calls totals name calls) name) =
    (feedback_count (student_or_new totals name) + len calls)%Z /\
  len (history (student_or_new (record_calls totals name calls) name)) =
    (len (history (student_or_new totals name)) + len calls)%Z /\
  history (student_or_new (record_calls totals name calls) name) =
    history (student_or_new totals name) ++ map entry_of_call calls /\
  (calls <> [] -> sget name (record_calls totals name calls) <> None) /\
  (forall other, other <> name ->
      sget other (record_calls totals name calls) = sget other totals).
Proof.
  intros Hc.
  split; [|split; [|split; [|split; [|split; [|split; [|split]]]]]].
  - intros sid codes fb Habs.
    rewrite record_get_same; unfold student_or_new; rewrite Habs.
    reflexivity.
  - intros sid codes fb; apply record_preserves_consistency, Hc.
  - apply record_calls_consistent, Hc.
  - rewrite record_calls_student; reflexivity.
  - rewrite record_calls_student; simpl.
    unfold len; rewrite length_app, length_map; lia.
  - rewrite record_calls_student; reflexivity.
  - destruct calls as [|c calls]; [congruence|]; intros _.
    unfold record_calls; simpl.
    fold (record_calls
            (record_student_submission totals name (call_sid c)
               (call_codes c) (call_feedback c)) name calls).
    intros Hnone.
    pose proof (record_calls_student calls
                  (record_student_submission totals name (call_sid c)
                     (call_codes c) (call_feedback c)) name) as Hs.
    unfold student_or_new at 1 in Hs; rewrite Hnone in Hs.
    apply (f_equal (fun s => length (history s))) in Hs; simpl in Hs.
    rewrite student_or_new_record in Hs; simpl in Hs.
    rewrite !length_app in Hs; simpl in Hs; lia.
  - intros other Hne; apply record_calls_other, Hne.
Qed.

Lemma sample_totals_consistent : store_consistent sample_totals.
Proof. repeat constructor. Qed.

Lemma record_counts_history_witness :
  store_consistent sample_totals /\
  feedback_count
    (student_or_new (record_calls sample_totals (lit "Alex Kim") sample_calls)
       (lit "Alex Kim")) = 4%Z /\
  store_consistent (record_calls sample_totals (lit "Alex Kim") sample_calls).
Proof.
  pose proof (record_counts_history sample_totals (lit "Alex Kim")
                sample_calls sample_totals_consistent)
    as [_ [_ [Hcons [Hcount _]]]].
  split; [exact sample_totals_consistent|].
  split; [rewrite Hcount; reflexivity | exact Hcons].
Defined.


(** ** Sorting *)

Section SortingFacts.
Variable A : Type.
Variable leb : A -> A -> bool.

Lemma In_insert_sorted (a x : A) (l : list A) :
  In x (insert_sorted leb a l) <-> x = a \/ In x l.
Proof.
  induction l as [|y l IH]; simpl.
  - intuition congruence.
  - destruct (leb a y); simpl; [intuition congruence|].
    rewrite IH; intuition congruence.
Qed.

Lemma In_sorted (x : A) (l : list A) : In x (sorted leb l) <-> In x l.
Proof.
  induction l as [|y l IH]; simpl; [tauto|].
  rewrite In_insert_sorted, IH; intuition congruence.
Qed.

Lemma length_insert_sorted (a : A) (l : list A) :
  length (insert_sorted leb a l) = S (length l).
Proof.
  induction l as [|y l IH]; simpl; [reflexivity|].
  destruct (leb a y); simpl; congruence.
Qed.

Lemma length_sorted (l : list A) : length (sorted leb l) = length l.
Proof.
  induction l as [|y l IH]; simpl; [reflexivity|].
  rewrite length_insert_sorted; congruence.
Qed.

Hypothesis leb_total : forall a b, leb a b = true \/ leb b a = true.
Hypothesis leb_trans :
  forall a b c, leb a b = true -> leb b c = true -> leb a c = true.

Lemma insert_sorted_StronglySorted (a : A) (l : list A) :
  StronglySorted (fun x y => leb x y = true) l ->
  StronglySorted (fun x y => leb x y = true) (insert_sorted leb a l).
Proof.
  intros Hs; induction Hs as [|y l Hs IH Hall]; simpl.
  - constructor; constructor.
  - destruct (leb a y) eqn:E.
    + constructor; [constructor; assumption|].
      constructor; [exact E|].
      rewrite Forall_forall in *; intros z Hz.
      apply leb_trans with y; auto.
    + constructor; [exact IH|].
      rewrite Forall_forall in *; intros z Hz.
      apply In_insert_sorted in Hz as [->|Hz]; [|auto].
      destruct (leb_total a y) as [H|H]; congruence.
Qed.

Lemma sorted_StronglySorted (l : list A) :
  StronglySorted (fun x y => leb x y = true) (sorted leb l).
Proof.
  induction l as [|y l IH]; simpl; [constructor|].
  apply insert_sorted_StronglySorted, IH.
Qed.
End SortingFacts.

(** ** History summarizer *)

Lemma count_of_sset (cnt : Counter) (k c : str) (n : Z) :
  count_of (sset k n cnt) c = if str_eqb c k then n else count_of cnt c.
Proof.
  unfold count_of; destruct (str_eqb_spec c k) as [->|Hne].
  - rewrite sget_sset_same; reflexivity.
  - rewrite sget_sset_other by exact Hne; reflexivity.
Qed.

Lemma occurrences_cons (c x : str) (l : list str) :
  occurrences c (x :: l) =
  ((if str_eqb c x then 1 else 0) + occurrences c l)%Z.
Proof.
  unfold occurrences, len; simpl.
  destruct (str_eqb c x); simpl length; lia.
Qed.

Lemma occurrences_app (c : str) (l1 l2 : list str) :
  occurrences c (l1 ++ l2) = (occurrences c l1 + occurrences c l2)%Z.
Proof.
  unfold occurrences, len; rewrite filter_app, length_app; lia.
Qed.

Lemma count_of_counter_update (xs : list str) (cnt : Counter) (c : str) :
  count_of (counter_update cnt xs) c = (count_of cnt c + occurrences c xs)%Z.
Proof.
  unfold counter_update; revert cnt.
  induction xs as [|x xs IH]; intros cnt; simpl.
  - unfold occurrences, len; simpl; lia.
  - rewrite IH, count_of_sset, occurrences_cons.
    destruct (str_eqb_spec c x) as [->|Hne]; lia.
Qed.

Lemma count_of_lifetime_fold (hist : list HistoryEntry) (acc : Counter)
  (c : str) :
  count_of (fold_left (fun a h => counter_update a (error_codes h)) hist acc) c
  = (count_of acc c + lifetime_count hist c)%Z.
Proof.
  unfold lifetime_count; revert acc.
  induction hist as [|h hist IH]; intros acc; simpl.
  - unfold occurrences, len; simpl; lia.
  - rewrite IH, count_of_counter_update, occurrences_app; lia.
Qed.

Lemma count_of_lifetime (hist : list HistoryEntry) (c : str) :
  count_of (lifetime_counts hist) c = lifetime_count hist c.
Proof.
  unfold lifetime_counts; rewrite count_of_lifetime_fold; reflexivity.
Qed.

Lemma occurrences_not_In (c : str) (l : list str) :
  ~ In c l -> occurrences c l = 0%Z.
Proof.
  induction l as [|x l IH]; intros Hn; [reflexivity|].
  rewrite occurrences_cons, IH by (simpl in Hn; tauto).
  destruct (str_eqb_spec c x) as [->|_]; [simpl in Hn; tauto | reflexivity].
Qed.

Lemma occurrences_NoDup (c : str) (l : list str) :
  NoDup l -> occurrences c l = if str_mem c l then 1%Z else 0%Z.
Proof.
  intros Hnd; induction Hnd as [|x l Hx Hnd IH].
  - reflexivity.
  - rewrite occurrences_cons.
    unfold str_mem in *; simpl.
    destruct (str_eqb_spec c x) as [->|Hne]; simpl.
    + rewrite occurrences_not_In by exact Hx; reflexivity.
    + rewrite IH; reflexivity.
Qed.

Lemma str_mem_dedupe (c : str) (l : list str) :
  str_mem c (dedupe l) = str_mem c l.
Proof.
  destruct (str_mem c l) eqn:E.
  - apply str_mem_In, dedupe_In, str_mem_In, E.
  - apply str_mem_not_In; rewrite dedupe_In; apply str_mem_not_In, E.
Qed.

Lemma count_of_recent_fold (hist : list HistoryEntry) (acc : Counter)
  (c : str) :
  count_of
    (fold_left (fun a h => counter_update a (dedupe (error_codes h))) hist acc)
    c
  = (count_of acc c +
     len (filter (fun h => str_mem c (error_codes h)) hist))%Z.
Proof.
  revert acc; induction hist as [|h hist IH]; intros acc; simpl.
  - unfold len; simpl; lia.
  - rewrite IH, count_of_counter_update.
    rewrite occurrences_NoDup by apply dedupe_NoDup.
    rewrite str_mem_dedupe.
    destruct (str_mem c (error_codes h)); unfold len; simpl length; lia.
Qed.

Lemma count_of_recent (hist : list HistoryEntry) (window : Z) (c : str) :
  count_of (recent_counts hist window) c = recent_count hist window c.
Proof.
  unfold recent_counts, recent_count; rewrite count_of_recent_fold.
  reflexivity.
Qed.

(** A code seen in recent entries has been seen at least as often over
    the whole history. *)
Lemma recent_le_lifetime (hist : list HistoryEntry) (window : Z) (c : str) :
  (recent_count hist window c <= lifetime_count hist c)%Z.
Proof.
  unfold recent_count, lifetime_count, slice_from.
  set (n := if (0 <=? - window)%Z then Z.to_nat (- window)
            else length hist - Z.to_nat (- - window)).
  replace (if (0 <=? - window)%Z then skipn (Z.to_nat (- window)) hist
           else skipn (length hist - Z.to_nat (- - window)) hist)
    with (skipn n hist) by (subst n; destruct (0 <=? - window)%Z; reflexivity).
  clearbody n; revert n.
  induction hist as [|h hist IH]; intros n.
  - rewrite skipn_nil; unfold occurrences, len; simpl; lia.
  - assert (Hfull :
      (len (filter (fun h0 => str_mem c (error_codes h0)) (h :: hist)) <=
       occurrences c (flat_map error_codes (h :: hist)))%Z).
    { specialize (IH 0%nat); simpl skipn in IH.
      simpl flat_map; rewrite occurrences_app; simpl filter.
      assert (Hh : ((if str_mem c (error_codes h) then 1 else 0) <=
                    occurrences c (error_codes h))%Z).
      { destruct (str_mem c (error_codes h)) eqn:E.
        - apply str_mem_In in E.
          induction (error_codes h) as [|x l IHl]; [destruct E|].
          rewrite occurrences_cons.
          destruct (str_eqb_spec c x) as [->|Hne].
          + unfold occurrences, len; lia.
          + destruct E as [E|E]; [congruence|].
            specialize (IHl E); lia.
        - unfold occurrences, len; lia. }
      destruct (str_mem c (error_codes h));
        unfold len in *; simpl length; lia. }
    destruct n as [|n]; [exact Hfull|].
    simpl skipn; specialize (IH n).
    simpl flat_map; rewrite occurrences_app.
    unfold occurrences, len in *; lia.
Qed.

Lemma sset_keys_NoDup {V} (k : str) (v : V) (d : sdict V) :
  NoDup (dict_keys d) -> NoDup (dict_keys (sset k v d)).
Proof.
  intros Hnd; destruct (sget k d) as [v0|] eqn:E.
  - rewrite (sset_keys_present _ _ _ _ _ E); exact Hnd.
  - rewrite (sset_absent _ _ _ _ E).
    unfold dict_keys in *; rewrite map_app; simpl.
    apply NoDup_app; [exact Hnd | repeat constructor; simpl; tauto |].
    intros x Hx [<-|[]].
    apply (proj1 (sget_None_keys _ _ _) E); exact Hx.
Qed.

Lemma counter_update_keys_NoDup (xs : list str) (cnt : Counter) :
  NoDup (dict_keys cnt) -> NoDup (dict_keys (counter_update cnt xs)).
Proof.
  unfold counter_update; revert cnt.
  induction xs as [|x xs IH]; intros cnt Hnd; simpl; [exact Hnd|].
  apply IH, sset_keys_NoDup, Hnd.
Qed.

Lemma counter_fold_keys_NoDup (f : HistoryEntry -> list str)
  (hist : list HistoryEntry) (acc : Counter) :
  NoDup (dict_keys acc) ->
  NoDup (dict_keys (fold_left (fun a h => counter_update a (f h)) hist acc)).
Proof.
  revert acc; induction hist as [|h hist IH]; intros acc Hnd; simpl;
    [exact Hnd|].
  apply IH, counter_update_keys_NoDup, Hnd.
Qed.

Lemma sget_of_In_NoDup {V} (k : str) (v : V) (d : sdict V) :
  NoDup (dict_keys d) -> In (k, v) d -> sget k d = Some v.
Proof.
  unfold sget, dict_keys; induction d as [|[k' v'] d IH]; simpl;
    intros Hnd Hin; [destruct Hin|].
  inversion Hnd as [|? ? Hk Hnd']; subst.
  destruct Hin as [[= -> ->]|Hin].
  - rewrite str_eqb_refl; reflexivity.
  - destruct (str_eqb_spec k k') as [->|_]; [|auto].
    exfalso; apply Hk, in_map_iff; exists (k', v); auto.
Qed.

Lemma In_at_least_twice (cnt : Counter) (c : str) :
  NoDup (dict_keys cnt) ->
  In c (at_least_twice cnt) <-> (2 <= count_of cnt c)%Z.
Proof.
  intros Hnd; unfold at_least_twice, count_of; split.
  - intros Hin; apply in_map_iff in Hin as [[k n] [<- Hin]].
    apply filter_In in Hin as [Hin Hn]; simpl in *.
    rewrite (sget_of_In_NoDup _ _ _ Hnd Hin); lia.
  - destruct (sget c cnt) as [n|] eqn:E; [|lia]; intros Hn.
    apply in_map_iff; exists (c, n); split; [reflexivity|].
    apply filter_In; split; [apply sget_In, E | simpl; lia].
Qed.

Lemma In_frequent_codes (hist : list HistoryEntry) (window : Z) (c : str) :
  In c (frequent_codes hist window) <->
  (2 <= lifetime_count hist c)%Z \/ (2 <= recent_count hist window c)%Z.
Proof.
  unfold frequent_codes; rewrite in_app_iff.
  rewrite !In_at_least_twice.
  - rewrite count_of_lifetime, count_of_recent; reflexivity.
  - apply counter_fold_keys_NoDup; constructor.
  - apply counter_fold_keys_NoDup; constructor.
Qed.

Lemma In_overlap_of (now_codes frequent : list str) (c : str) :
  In c (overlap_of now_codes frequent) <-> In c now_codes /\ In c frequent.
Proof.
  unfold overlap_of.
  rewrite In_sorted, filter_In, dedupe_In, str_mem_In; reflexivity.
Qed.

Lemma overlap_of_sorted (now_codes frequent : list str) :
  sorted_strings (overlap_of now_codes frequent).
Proof.
  apply sorted_StronglySorted; [apply str_leb_total | apply str_leb_trans].
Qed.

Lemma NoDup_insert_sorted {A} (leb : A -> A -> bool) (a : A) (l : list A) :
  ~ In a l -> NoDup l -> NoDup (insert_sorted leb a l).
Proof.
  intros Ha Hnd; induction Hnd as [|y l Hy Hnd IH]; simpl.
  - repeat constructor; simpl; tauto.
  - destruct (leb a y).
    + constructor; [exact Ha | constructor; assumption].
    + constructor; [|apply IH; simpl in Ha; tauto].
      rewrite In_insert_sorted; simpl in Ha; intuition congruence.
Qed.

Lemma NoDup_sorted {A} (leb : A -> A -> bool) (l : list A) :
  NoDup l -> NoDup (sorted leb l).
Proof.
  intros Hnd; induction Hnd as [|y l Hy Hnd IH]; simpl; [constructor|].
  apply NoDup_insert_sorted; [rewrite In_sorted; exact Hy | exact IH].
Qed.

Lemma overlap_of_NoDup (now_codes frequent : list str) :
  NoDup (overlap_of now_codes frequent).
Proof.
  unfold overlap_of; apply NoDup_sorted, NoDup_filter, dedupe_NoDup.
Qed.

Lemma summarize_history_overlap (s : StudentRecord) (now_codes : list str)
  (top_k window : Z) :
  history s <> [] ->
  snd (summarize_history (Some s) now_codes top_k window) =
  overlap_of now_codes (frequent_codes (history s) window).
Proof.
  intros Hne; unfold summarize_history.
  destruct (history s) as [|h hist]; [congruence|]; reflexivity.
Qed.

(** C6. For every student record, list of current codes, [top_k] and
    [window]: every code of the overlap returned by [summarize] is one of
    [now_codes] and is frequent in the student's history (lifetime count
    at least two, or at least two of the entries of the recent window hold
    it); the overlap is sorted and has no duplicates; conversely every
    current code that is frequent is in the overlap; an unknown student
    and a student whose history is empty give exactly the pair of
    ["(no prior feedback)"] and the empty list. *)
Theorem summarize_overlap_frequent (student : option StudentRecord)
  (now_codes : list str) (top_k window : Z) :
  (forall c,
      In c (snd (summarize_history student now_codes top_k window)) ->
      In c now_codes /\
      exists s, student = Some s /\
                ((2 <= lifetime_count (history s) c)%Z \/
                 (2 <= recent_count (history s) window c)%Z)) /\
  (forall s c,
      student = Some s -> In c now_codes ->
      (2 <= lifetime_count (history s) c)%Z \/
      (2 <= recent_count (history s) window c)%Z ->
      In c (snd (summarize_history student now_codes top_k window))) /\
  sorted_strings (snd (summarize_history student now_codes top_k window)) /\
  NoDup (snd (summarize_history student now_codes top_k window)) /\
  summarize_history None now_codes top_k window =
    (lit "(no prior feedback)", []) /\
  (forall s, history s = [] ->
             summarize_history (Some s) now_codes top_k window =
             (lit "(no prior feedback)", [])).
Proof.
  assert (Hempty : forall s, history s = [] ->
             summarize_history (Some s) now_codes top_k window =
             (lit "(no prior feedback)", []))
    by (intros s Hs; unfold summarize_history; rewrite Hs; reflexivity).
  split; [|split; [|split; [|split; [|split]]]];
    try reflexivity; try exact Hempty.
  - intros c; destruct student as [s|]; [|simpl; tauto].
    destruct (history s) as [|h hist] eqn:Eh.
    + rewrite (Hempty s Eh); simpl; tauto.
    + rewrite summarize_history_overlap by congruence.
      rewrite In_overlap_of, In_frequent_codes, Eh; intros [Hn Hf].
      split; [exact Hn|]; exists s; rewrite Eh; auto.
  - intros s c -> Hn Hf.
    destruct (history s) as [|h hist] eqn:Eh.
    + exfalso; unfold lifetime_count, recent_count, slice_from in Hf.
      destruct (0 <=? - window)%Z; rewrite ?skipn_nil in Hf;
        unfold occurrences, len in Hf; simpl in Hf; lia.
    + rewrite summarize_history_overlap by congruence.
      rewrite In_overlap_of, In_frequent_codes, Eh; auto.
  - destruct student as [s|]; [|constructor].
    destruct (history s) as [|h hist] eqn:Eh.
    + rewrite (Hempty s Eh); constructor.
    + rewrite summarize_history_overlap by congruence.
      apply overlap_of_sorted.
  - destruct student as [s|]; [|constructor].
    destruct (history s) as [|h hist] eqn:Eh.
    + rewrite (Hempty s Eh); constructor.
    + rewrite summarize_history_overlap by congruence.
      apply overlap_of_NoDup.
Qed.

(** The scenario of the specification: two past entries with
    [LOOP_BAD_RANGE], current codes [LOOP_BAD_RANGE] and [TYPE_NONE]. *)
Example summarize_history_scenario :
  snd (summarize_history (Some sample_student)
         [lit "LOOP_BAD_RANGE"; lit "TYPE_NONE"] 3 5) =
  [lit "LOOP_BAD_RANGE"].
Proof. vm_compute; reflexivity. Qed.


(** ** Student code excerpt *)

Lemma len_app {A} (a b : list A) : len (a ++ b) = (len a + len b)%Z.
Proof. unfold len; rewrite length_app; lia. Qed.

Lemma len_nonneg {A} (a : list A) : (0 <= len a)%Z.
Proof. unfold len; lia. Qed.

Lemma len_join (sep : str) (parts : list str) :
  len (join sep parts) =
  (len (concat parts) + len sep * Z.of_nat (pred (length parts)))%Z.
Proof.
  induction parts as [|p rest IH]; [unfold len; simpl; lia|].
  destruct rest as [|q rest'].
  - simpl; rewrite app_nil_r; lia.
  - change (join sep (p :: q :: rest')) with (p ++ sep ++ join sep (q :: rest')).
    rewrite !len_app, IH.
    change (concat (p :: q :: rest')) with (p ++ concat (q :: rest')).
    rewrite len_app; simpl length; simpl pred; lia.
Qed.

(** What the loop does keep within the limit: the characters of the
    pieces, separators not counted. *)
Lemma excerpt_pieces_total (py_files : list DirEntry) (pieces : list str)
  (total limit : Z) :
  total = len (concat pieces) -> (total <= limit)%Z ->
  (len (concat (excerpt_pieces py_files pieces total limit)) <= limit)%Z /\
  length (excerpt_pieces py_files pieces total limit) <=
    length pieces + length py_files.
Proof.
  revert pieces total; induction py_files as [|py rest IH];
    intros pieces total Htot Hle.
  - cbn [excerpt_pieces length]; split; lia.
  - cbn [excerpt_pieces].
    match goal with
    | |- context [slice_to ?c0 _] => set (chunk0 := c0)
    end.
    match goal with
    | |- context [pieces ++ [?c]] => set (chunk := c)
    end.
    assert (Hchunk : (total + len chunk <= limit)%Z).
    { subst chunk; destruct (Z.gtb_spec (total + len chunk0) limit).
      - pose proof (slice_to_length_le chunk0 (Z.max 0 (limit - total))); lia.
      - lia. }
    assert (Hsum : (total + len chunk)%Z = len (concat (pieces ++ [chunk]))).
    { rewrite concat_app, len_app; simpl; rewrite app_nil_r; lia. }
    destruct (total + len chunk >=? limit)%Z.
    + split; [lia|]; rewrite length_app; simpl; lia.
    + destruct (IH (pieces ++ [chunk]) (total + len chunk)%Z Hsum Hchunk)
        as [H1 H2].
      split; [exact H1|].
      rewrite length_app in H2; simpl in *; lia.
Qed.

(** The bound the code does enforce: the limit plus one separator per
    file after the first. *)
Lemma read_student_code_excerpt_bound (sub_dir : SubDir) (limit : Z) :
  (0 <= limit)%Z ->
  (len (read_student_code_excerpt sub_dir limit) <=
   limit + match sub_dir with
           | ExistingPath children =>
               Z.of_nat (pred (length (py_files_of children)))
           | _ => 0
           end)%Z.
Proof.
  intros Hl; destruct sub_dir as [| |children]; simpl;
    try (unfold len; simpl; lia).
  pose proof (excerpt_pieces_total (py_files_of children) [] 0 limit
                eq_refl Hl) as [Hsum Hlen].
  pose proof (length_strip
                (join NEWLINE
                   (excerpt_pieces (py_files_of children) [] 0 limit))) as Hs.
  pose proof (len_join NEWLINE
                (excerpt_pieces (py_files_of children) [] 0 limit)) as Hj.
  change (len NEWLINE) with 1%Z in Hj.
  unfold len in *; simpl length in Hlen; lia.
Qed.

(** C9, where the code departs from it. With the limit of the program,
    1600, a directory with two Python files of a thousand characters each
    (header included) gives an excerpt of 1601 characters: the first file
    in full, the line feed that joins the pieces, and 600 characters of
    the second file. A missing directory gives the empty string. *)
Theorem read_student_code_excerpt_over_limit :
  len (read_student_code_excerpt sample_dir MAX_CODE_CHARS) = 1601%Z /\
  ~ (len (read_student_code_excerpt sample_dir MAX_CODE_CHARS) <=
     MAX_CODE_CHARS)%Z /\
  (forall limit, read_student_code_excerpt NoPath limit = []) /\
  (forall limit, read_student_code_excerpt MissingPath limit = []).
Proof.
  assert (H : len (read_student_code_excerpt sample_dir MAX_CODE_CHARS)
              = 1601%Z) by (vm_compute; reflexivity).
  split; [exact H|]; split; [rewrite H; unfold MAX_CODE_CHARS; lia|].
  split; reflexivity.
Qed.

(** The same with a small limit, to be followed by hand: limit 14, an
    empty [a.py] and any [b.py]. The excerpt is the 13 characters of the
    first header, the joining line feed and one character of the second
    header. *)
Example read_student_code_excerpt_small :
  read_student_code_excerpt
    (ExistingPath
       [ {| entry_name := lit "a.py"; entry_text := Some [] |};
         {| entry_name := lit "b.py"; entry_text := Some (lit "y") |} ])
    14
  = lit "# FILE: a.py" ++ NEWLINE ++ NEWLINE ++ lit "#".
Proof. vm_compute; reflexivity. Qed.


(** ** Loading and saving the history store *)

Lemma path_eqb_spec (p q : Path) : reflect (p = q) (path_eqb p q).
Proof.
  revert q; induction p as [|a p IH]; intros [|b q]; simpl;
    try (constructor; congruence).
  destruct (str_eqb_spec a b) as [->|Hab]; simpl.
  - destruct (IH q) as [->|Hpq]; constructor; congruence.
  - constructor; congruence.
Qed.

Lemma path_eqb_refl (p : Path) : path_eqb p p = true.
Proof. destruct (path_eqb_spec p p); congruence. Qed.

Lemma path_eqb_neq (p q : Path) : p <> q -> path_eqb p q = false.
Proof. destruct (path_eqb_spec p q); congruence. Qed.

(** The decoder raises nothing but [JSONDecodeError]. *)
Lemma json_loads_raises (text : str) (e : exn) :
  json_loads text = Raise e -> e = JSONDecodeError.
Proof.
  unfold json_loads.
  destruct (parse_value (S (length text)) (skip_ws text)) as [[v rest]|];
    [destruct (skip_ws rest)|]; congruence.
Qed.

Lemma load_of_file (fs : FS) (path : Path) (text : str) :
  files fs path = Some text ->
  load_student_errors fs path =
  match json_loads text with
  | Ok (JObject data) => Ok data
  | _ => Ok []
  end.
Proof.
  intros Hf; unfold load_student_errors, path_exists, read_text.
  rewrite Hf; simpl.
  destruct (json_loads text) as [v|e] eqn:E; simpl; [reflexivity|].
  rewrite (json_loads_raises _ _ E); reflexivity.
Qed.

(** C10. [load] returns the empty mapping when nothing exists at the
    path, when the file does not hold JSON, and when it holds JSON whose
    top-level value is not an object; whatever the text of the file,
    [load] returns and does not raise. *)
Theorem load_empty_unless_object (fs : FS) (path : Path) :
  (path_exists fs path = false -> load_student_errors fs path = Ok []) /\
  (forall text e,
      files fs path = Some text -> json_loads text = Raise e ->
      load_student_errors fs path = Ok []) /\
  (forall text v,
      files fs path = Some text -> json_loads text = Ok v ->
      (forall data, v <> JObject data) ->
      load_student_errors fs path = Ok []) /\
  (forall text data,
      files fs path = Some text -> json_loads text = Ok (JObject data) ->
      load_student_errors fs path = Ok data) /\
  (forall text,
      files fs path = Some text ->
      exists data, load_student_errors fs path = Ok data).
Proof.
  split; [|split; [|split; [|split]]].
  - intros Hne; unfold load_student_errors; rewrite Hne; reflexivity.
  - intros text e Hf He; rewrite (load_of_file _ _ _ Hf), He; reflexivity.
  - intros text v Hf Hv Hno; rewrite (load_of_file _ _ _ Hf), Hv.
    destruct v; try reflexivity.
    exfalso; eapply Hno; reflexivity.
  - intros text data Hf Hv; rewrite (load_of_file _ _ _ Hf), Hv; reflexivity.
  - intros text Hf; rewrite (load_of_file _ _ _ Hf).
    destruct (json_loads text) as [[]|]; eauto.
Qed.

Lemma load_empty_unless_object_witness :
  load_student_errors (fs_with store_path (lit "[1, 2]")) store_path = Ok [] /\
  load_student_errors (fs_with store_path (quote (lit "text"))) store_path
    = Ok [] /\
  load_student_errors (fs_with store_path (lit "{not json")) store_path
    = Ok [] /\
  load_student_errors (fs_with [lit "other.json"] []) store_path = Ok [].
Proof.
  pose proof (load_empty_unless_object
                (fs_with store_path (lit "[1, 2]")) store_path)
    as [_ [_ [Harr _]]].
  pose proof (load_empty_unless_object
                (fs_with store_path (quote (lit "text"))) store_path)
    as [_ [_ [Hstr _]]].
  pose proof (load_empty_unless_object
                (fs_with store_path (lit "{not json")) store_path)
    as [_ [Hbad _]].
  pose proof (load_empty_unless_object
                (fs_with [lit "other.json"] []) store_path)
    as [Habs _].
  split; [|split; [|split]].
  - apply (Harr (lit "[1, 2]") (JArray [JInt 1; JInt 2]));
      [reflexivity | vm_compute; reflexivity | discriminate].
  - apply (Hstr (quote (lit "text")) (JString (lit "text")));
      [reflexivity | vm_compute; reflexivity | discriminate].
  - apply (Hbad (lit "{not json") JSONDecodeError);
      [reflexivity | vm_compute; reflexivity].
  - apply Habs; reflexivity.
Defined.

(** *** Atomic save *)

Lemma apply_op_other (tmp q : Path) (op : fs_op) (fs : FS) :
  touches_only tmp op -> q <> tmp -> files (apply_op op fs) q = files fs q.
Proof.
  destruct op as [d|p|p chunk|src dst]; simpl; intros Ht Hq;
    try reflexivity; try contradiction; subst p;
    rewrite (path_eqb_neq _ _ Hq); reflexivity.
Qed.

Lemma run_ops_other (tmp q : Path) (ops : list fs_op) (fs : FS) :
  Forall (touches_only tmp) ops -> q <> tmp ->
  files (run_ops ops fs) q = files fs q.
Proof.
  unfold run_ops; revert fs; induction ops as [|op ops IH]; intros fs Hall Hq;
    simpl; [reflexivity|].
  inversion Hall as [|? ? Hop Hall']; subst.
  rewrite IH by assumption.
  apply apply_op_other with tmp; assumption.
Qed.

Lemma run_ops_app (ops1 ops2 : list fs_op) (fs : FS) :
  run_ops (ops1 ++ ops2) fs = run_ops ops2 (run_ops ops1 fs).
Proof. unfold run_ops; apply fold_left_app. Qed.

Lemma run_appends (tmp : Path) (text written : str) (fs : FS) :
  files fs tmp = Some written ->
  files (run_ops (map (fun c => AppendText tmp [c]) text) fs) tmp =
  Some (written ++ text).
Proof.
  unfold run_ops; revert written fs.
  induction text as [|c text IH]; intros written fs Hf; simpl.
  - rewrite app_nil_r; exact Hf.
  - rewrite (IH (written ++ [c])).
    + rewrite <- app_assoc; reflexivity.
    + simpl; rewrite path_eqb_refl, Hf; reflexivity.
Qed.

Lemma Forall_firstn {A} (P : A -> Prop) (n : nat) (l : list A) :
  Forall P l -> Forall P (firstn n l).
Proof.
  intros Hall; revert n; induction Hall as [|x l Hx Hall IH]; intros [|n];
    simpl; constructor; auto.
Qed.

Lemma save_ops_before_replace (path : Path) (temp_name : str) (text : str) :
  Forall (touches_only (temp_path path temp_name))
    ([MkdirParents (parent path); CreateFile (temp_path path temp_name)] ++
     map (fun c => AppendText (temp_path path temp_name) [c]) text).
Proof.
  apply Forall_app; split.
  - repeat constructor.
  - apply Forall_forall; intros op Hop.
    apply in_map_iff in Hop as [c [<- _]]; reflexivity.
Qed.

Lemma save_ops_length (path : Path) (temp_name : str) (text : str) :
  length (save_ops path temp_name text) = 3 + length text.
Proof.
  unfold save_ops; simpl; rewrite length_app, length_map; simpl; lia.
Qed.

Lemma saved_text (path : Path) (temp_name : str) (text : str) (fs : FS) :
  files (run_ops (save_ops path temp_name text) fs) path = Some text.
Proof.
  unfold save_ops.
  rewrite (app_assoc [_; _]), run_ops_app.
  set (tmp := temp_path path temp_name).
  set (fs1 := run_ops _ fs).
  assert (Htmp : files fs1 tmp = Some text).
  { subst fs1; rewrite run_ops_app.
    rewrite (run_appends tmp text []); [reflexivity|].
    simpl; rewrite path_eqb_refl; reflexivity. }
  unfold run_ops; simpl.
  destruct (path_eqb_spec tmp path) as [Heq|Hne];
    [rewrite <- Heq; exact Htmp|].
  simpl; rewrite path_eqb_refl; exact Htmp.
Qed.

Lemma parent_temp_path (path : Path) (temp_name : str) :
  parent (temp_path path temp_name) = parent path.
Proof. unfold temp_path, parent at 1; apply removelast_last. Qed.

(** C4. [save] writes the serialized store to a temporary file of the
    directory of the target and renames it onto the target as its last
    step. If the process stops after any number of steps short of the
    rename, with the temporary file created, empty or partly written, the
    target holds exactly what it held before (or is still absent) and so
    does every file other than the temporary one; once the rename is
    done the target holds the whole serialized store. *)
Theorem save_is_atomic (fs : FS) (path : Path) (temp_name : str)
  (data : sdict json) (k : nat) :
  temp_path path temp_name <> path ->
  k < length (save_ops path temp_name (json_dumps (JObject data))) ->
  parent (temp_path path temp_name) = parent path /\
  (exists before,
      save_ops path temp_name (json_dumps (JObject data)) =
        before ++ [Replace (temp_path path temp_name) path] /\
      Forall (touches_only (temp_path path temp_name)) before) /\
  files (save_interrupted k path temp_name data fs) path = files fs path /\
  (forall q, q <> temp_path path temp_name ->
             files (save_interrupted k path temp_name data fs) q =
             files fs q) /\
  (forall text,
      files (save_interrupted k path temp_name data fs) path = Some text ->
      files fs path = Some text) /\
  files (save_student_errors path temp_name data fs) path =
    Some (json_dumps (JObject data)).
Proof.
  intros Hne Hk.
  set (text := json_dumps (JObject data)) in *.
  set (tmp := temp_path path temp_name) in *.
  assert (Hother : forall q, q <> tmp ->
            files (save_interrupted k path temp_name data fs) q = files fs q).
  { intros q Hq; unfold save_interrupted; fold text.
    apply run_ops_other with tmp; [|exact Hq].
    unfold save_ops; fold tmp; rewrite app_assoc.
    rewrite save_ops_length in Hk.
    rewrite firstn_app.
    replace (k - length ([MkdirParents (parent path); CreateFile tmp] ++
                         map (fun c => AppendText tmp [c]) text)) with 0
      by (rewrite length_app, length_map; simpl; lia).
    simpl firstn at 2; rewrite app_nil_r.
    apply Forall_firstn, save_ops_before_replace. }
  split; [apply parent_temp_path|].
  split.
  { exists ([MkdirParents (parent path); CreateFile tmp] ++
            map (fun c => AppendText tmp [c]) text).
    split; [unfold save_ops; rewrite app_assoc; reflexivity|].
    apply save_ops_before_replace. }
  split; [apply Hother; congruence|].
  split; [exact Hother|].
  split; [intros t Ht; rewrite Hother in Ht by congruence; exact Ht|].
  apply saved_text.
Qed.

Lemma save_is_atomic_witness :
  files (save_interrupted 40 store_path (lit "tmpk3x9q_7a")
           (json_of_totals (record_calls sample_totals (lit "Alex Kim")
                              sample_calls))
           sample_fs) store_path =
  Some (json_dumps (JObject (json_of_totals sample_totals))).
Proof.
  destruct (save_is_atomic sample_fs store_path (lit "tmpk3x9q_7a")
              (json_of_totals (record_calls sample_totals (lit "Alex Kim")
                                 sample_calls)) 40)
    as [_ [_ [Hsame _]]].
  - discriminate.
  - vm_compute; lia.
  - rewrite Hsame; reflexivity.
Defined.

(** ** JSON: decoding what the encoder writes *)

Lemma land_15 (x : N) : N.land x 15 = (x mod 16)%N.
Proof. change 15%N with (N.ones 4); rewrite N.land_ones; reflexivity. Qed.

Lemma land_1023 (x : N) : N.land x 1023 = (x mod 1024)%N.
Proof. change 1023%N with (N.ones 10); rewrite N.land_ones; reflexivity. Qed.

Lemma hex_val_digit (d : N) : (d < 16)%N -> hex_val (hex_digit d) = Some d.
Proof.
  intros Hd; unfold hex_val, hex_digit, is_digit.
  destruct (N.ltb_spec d 10).
  - replace ((48 <=? 48 + d) && (48 + d <=? 57))%N with true; [f_equal; lia|].
    symmetry; apply andb_true_iff; split; apply N.leb_le; lia.
  - replace ((48 <=? 87 + d) && (87 + d <=? 57))%N with false.
    + replace ((97 <=? 87 + d) && (87 + d <=? 102))%N with true;
        [f_equal; lia|].
      symmetry; apply andb_true_iff; split; apply N.leb_le; lia.
    + symmetry; apply andb_false_iff; right; apply N.leb_gt; lia.
Qed.

Lemma hex4_escape (c : N) :
  (c < 65536)%N ->
  hex4 (hex_digit (N.shiftr c 12)) (hex_digit (N.land (N.shiftr c 8) 15))
       (hex_digit (N.land (N.shiftr c 4) 15)) (hex_digit (N.land c 15))
  = Some c.
Proof.
  intros Hc; unfold hex4.
  rewrite !land_15, !N.shiftr_div_pow2.
  change (2 ^ 12)%N with 4096%N; change (2 ^ 8)%N with 256%N;
    change (2 ^ 4)%N with 16%N.
  rewrite !hex_val_digit.
  - f_equal.
    replace (c / 4096)%N with (c / 16 / 16 / 16)%N
      by (rewrite !N.Div0.div_div; reflexivity).
    replace (c / 256)%N with (c / 16 / 16)%N
      by (rewrite !N.Div0.div_div; reflexivity).
    pose proof (N.Div0.div_mod c 16) as H0.
    pose proof (N.Div0.div_mod (c / 16) 16) as H1.
    pose proof (N.Div0.div_mod (c / 16 / 16) 16) as H2.
    generalize dependent (c mod 16)%N.
    generalize dependent ((c / 16) mod 16)%N.
    generalize dependent ((c / 16 / 16) mod 16)%N.
    generalize dependent (c / 16 / 16 / 16)%N.
    generalize dependent (c / 16 / 16)%N.
    generalize dependent (c / 16)%N.
    intros; lia.
  - apply N.mod_lt; lia.
  - apply N.mod_lt; lia.
  - apply N.mod_lt; lia.
  - apply N.Div0.div_lt_upper_bound; lia.
Qed.

Lemma scan_string_u (h1 h2 h3 h4 : char) (tail : str) :
  scan_string (92 :: 117 :: h1 :: h2 :: h3 :: h4 :: tail)%N =
  match hex4 h1 h2 h3 h4 with
  | None => None
  | Some uni =>
      if is_high_surrogate uni then
        match tail with
        | b :: u :: s4 =>
            if ((b =? 92) && (u =? 117))%N then
              match s4 with
              | g1 :: g2 :: g3 :: g4 :: s5 =>
                  match hex4 g1 g2 g3 g4 with
                  | None => None
                  | Some uni2 =>
                      if is_low_surrogate uni2
                      then push (join_surrogates uni uni2) (scan_string s5)
                      else push uni (scan_string tail)
                  end
              | _ => None
              end
            else push uni (scan_string tail)
        | _ => push uni (scan_string tail)
        end
      else push uni (scan_string tail)
  end.
Proof. reflexivity. Qed.

Lemma escape_u_scan (c : N) (tail : str) :
  (c < 65536)%N -> is_high_surrogate c = false ->
  scan_string (escape_u c ++ tail) = push c (scan_string tail).
Proof.
  intros Hc Hs; unfold escape_u; cbn [app].
  rewrite scan_string_u, (hex4_escape c Hc), Hs; reflexivity.
Qed.

Lemma lor_shiftl_10 (a b : N) :
  (b < 1024)%N -> N.lor (N.shiftl a 10) b = (a * 1024 + b)%N.
Proof.
  intros Hb.
  assert (Hland : N.land (N.shiftl a 10) b = 0%N).
  { apply N.bits_inj; intros i; rewrite N.land_spec, N.bits_0.
    destruct (N.ltb_spec i 10) as [Hi|Hi].
    - rewrite N.shiftl_spec_low by exact Hi; reflexivity.
    - destruct (N.eq_dec b 0) as [->|Hb0];
        [rewrite N.bits_0; apply andb_false_r|].
      rewrite (N.bits_above_log2 b i); [apply andb_false_r|].
      apply N.lt_le_trans with 10%N; [|exact Hi].
      apply N.log2_lt_pow2; [lia | exact Hb]. }
  rewrite <- N.lxor_lor, <- N.add_nocarry_lxor by exact Hland.
  rewrite N.shiftl_mul_pow2; reflexivity.
Qed.

Lemma lor_high_bits (base x : N) :
  (x < 1024)%N -> (base = 55296 \/ base = 56320)%N ->
  N.lor base x = (base + x)%N.
Proof.
  intros Hx Hb.
  assert (Hs : exists a, base = N.shiftl a 10)
    by (destruct Hb as [->| ->]; [exists 54%N | exists 55%N]; reflexivity).
  destruct Hs as [a ->].
  rewrite lor_shiftl_10 by exact Hx.
  rewrite N.shiftl_mul_pow2; reflexivity.
Qed.

Lemma surrogate_pair (c : N) :
  (65536 <= c)%N -> (c <= 1114111)%N ->
  let n := (c - 65536)%N in
  let hi := N.lor 55296 (N.land (N.shiftr n 10) 1023) in
  let lo := N.lor 56320 (N.land n 1023) in
  (hi < 65536)%N /\ (lo < 65536)%N /\
  is_high_surrogate hi = true /\ is_high_surrogate lo = false /\
  is_low_surrogate lo = true /\
  join_surrogates hi lo = c.
Proof.
  intros Hlo Hhi n hi lo.
  assert (Hn : (n < 1048576)%N) by (subst n; lia).
  assert (Ea : N.land (N.shiftr n 10) 1023 = (n / 1024)%N).
  { rewrite land_1023, N.shiftr_div_pow2.
    change (2 ^ 10)%N with 1024%N.
    apply N.mod_small, N.Div0.div_lt_upper_bound; lia. }
  assert (Eb : N.land n 1023 = (n mod 1024)%N) by apply land_1023.
  assert (Ha : (n / 1024 < 1024)%N)
    by (apply N.Div0.div_lt_upper_bound; lia).
  assert (Hb : (n mod 1024 < 1024)%N) by (apply N.mod_lt; lia).
  assert (Ehi : hi = (55296 + n / 1024)%N)
    by (subst hi; rewrite Ea; apply lor_high_bits; auto).
  assert (Elo : lo = (56320 + n mod 1024)%N)
    by (subst lo; rewrite Eb; apply lor_high_bits; auto).
  unfold is_high_surrogate, is_low_surrogate, join_surrogates.
  rewrite Ehi, Elo.
  repeat split; try lia.
  - apply andb_true_iff; split; apply N.leb_le; lia.
  - apply andb_false_iff; right; apply N.leb_gt; lia.
  - apply andb_true_iff; split; apply N.leb_le; lia.
  - replace (55296 + n / 1024 - 55296)%N with (n / 1024)%N by lia.
    replace (56320 + n mod 1024 - 56320)%N with (n mod 1024)%N by lia.
    rewrite lor_shiftl_10 by exact Hb.
    pose proof (N.Div0.div_mod n 1024); subst n; lia.
Qed.

Lemma escape_char_scan (c : char) (tail : str) :
  is_scalar_value c = true ->
  scan_string (escape_char c ++ tail) = push c (scan_string tail).
Proof.
  intros Hc; unfold escape_char.
  destruct (N.eqb_spec c 34) as [->|H34]; [reflexivity|].
  destruct (N.eqb_spec c 92) as [->|H92]; [reflexivity|].
  destruct (N.eqb_spec c 10) as [->|H10]; [reflexivity|].
  destruct (N.eqb_spec c 13) as [->|H13]; [reflexivity|].
  destruct (N.eqb_spec c 9) as [->|H9]; [reflexivity|].
  destruct (N.eqb_spec c 8) as [->|H8]; [reflexivity|].
  destruct (N.eqb_spec c 12) as [->|H12]; [reflexivity|].
  unfold is_scalar_value in Hc.
  destruct (N.leb_spec 32 c) as [H32|H32];
    [destruct (N.leb_spec c 126) as [H126|H126]|]; simpl andb.
  - cbn [app]; simpl scan_string.
    destruct (N.eqb_spec c 34); [contradiction|].
    destruct (N.eqb_spec c 92); [contradiction|].
    destruct (N.ltb_spec c 32); [lia|]; reflexivity.
  - destruct (N.ltb_spec c 65536) as [Hlt|Hge].
    + apply escape_u_scan; [exact Hlt|].
      unfold is_high_surrogate.
      destruct (N.ltb_spec c 55296); simpl in Hc.
      * apply andb_false_iff; left; apply N.leb_gt; lia.
      * apply andb_true_iff in Hc as [Hc _]; apply N.ltb_lt in Hc.
        apply andb_false_iff; right; apply N.leb_gt; lia.
    + assert (Hmax : (c <= 1114111)%N).
      { destruct (N.ltb_spec c 55296); [lia|]; simpl in Hc.
        apply andb_true_iff in Hc as [_ Hc]; apply N.leb_le in Hc; lia. }
      destruct (surrogate_pair c Hge Hmax) as [H1 [H2 [H3 [H4 [H5 H6]]]]].
      cbv zeta in *.
      set (hi := N.lor 55296 (N.land (N.shiftr (c - 65536) 10) 1023)) in *.
      set (lo := N.lor 56320 (N.land (c - 65536) 1023)) in *.
      rewrite <- app_assoc.
      unfold escape_u at 1; cbn [app].
      rewrite scan_string_u, (hex4_escape hi H1), H3.
      unfold escape_u; cbn [app].
      replace ((92 =? 92) && (117 =? 117))%N with true by reflexivity.
      rewrite (hex4_escape lo H2), H5, H6; reflexivity.
  - destruct (N.ltb_spec c 65536); [|lia].
    apply escape_u_scan; [lia|].
    unfold is_high_surrogate; apply andb_false_iff; left; apply N.leb_gt; lia.
Qed.

Lemma scan_quoted (s rest : str) :
  text_ok s = true ->
  scan_string (flat_map escape_char s ++ 34%N :: rest) = Some (s, rest).
Proof.
  unfold text_ok; induction s as [|c s IH]; simpl; intros Hs; [reflexivity|].
  apply andb_true_iff in Hs as [Hc Hs].
  rewrite <- app_assoc, escape_char_scan by exact Hc.
  rewrite IH by exact Hs; reflexivity.
Qed.

Lemma uint_of_digits_text (u : Decimal.uint) :
  uint_of_digits (str_of_uint u) = u.
Proof.
  unfold uint_of_digits; induction u; simpl; try rewrite IHu; reflexivity.
Qed.

Lemma str_of_uint_digits (u : Decimal.uint) :
  forallb is_digit (str_of_uint u) = true.
Proof. induction u; simpl; auto. Qed.

Lemma span_digits_app (ds rest : str) :
  forallb is_digit ds = true -> no_digit_head rest = true ->
  span_digits (ds ++ rest) = (ds, rest).
Proof.
  intros Hds Hrest; induction ds as [|d ds IH];
    cbn [app span_digits forallb] in *.
  - destruct rest as [|c rest]; [reflexivity|].
    cbn [no_digit_head] in Hrest; apply negb_true_iff in Hrest.
    cbn [span_digits]; rewrite Hrest; reflexivity.
  - apply andb_true_iff in Hds as [Hd Hds].
    rewrite Hd, (IH Hds); reflexivity.
Qed.

Lemma to_uint_head (p : positive) :
  exists c u,
    str_of_uint (Pos.to_uint p) = c :: str_of_uint u /\
    is_digit c = true /\ c <> 48%N.
Proof.
  pose proof (DecimalPos.Unsigned.to_of (Pos.to_uint p)) as Hn.
  rewrite DecimalPos.Unsigned.of_to in Hn; simpl in Hn.
  pose proof (DecimalPos.Unsigned.to_uint_nonzero p) as Hz.
  assert (Hnz : Decimal.nzhead (Pos.to_uint p) <> Decimal.Nil).
  { intros Hnil; apply DecimalFacts.unorm_0 in Hnil; congruence. }
  rewrite (DecimalFacts.unorm_nzhead _ Hnz) in Hn.
  pose proof (DecimalFacts.nzhead_nonzero (Pos.to_uint p)) as Hd0.
  rewrite <- Hn in Hd0, Hnz.
  destruct (Pos.to_uint p) as [|u|u|u|u|u|u|u|u|u|u];
    try congruence;
    try (exfalso; apply (Hd0 u); reflexivity);
    simpl; eexists; exists u; (split; [reflexivity|]); split;
    (reflexivity || discriminate).
Qed.

Lemma delim_no_digit (rest : str) : delim rest = true -> no_digit_head rest = true.
Proof.
  destruct rest as [|c rest]; simpl; [reflexivity|]; intros H.
  apply orb_true_iff in H as [H|H]; apply N.eqb_eq in H; subst; reflexivity.
Qed.

Lemma scan_fraction_delim (rest : str) :
  delim rest = true -> scan_fraction rest = ([], rest).
Proof.
  destruct rest as [|c rest]; simpl; [reflexivity|]; intros H.
  apply orb_true_iff in H as [H|H]; apply N.eqb_eq in H; subst; reflexivity.
Qed.

Lemma scan_exponent_delim (rest : str) :
  delim rest = true -> scan_exponent rest = ([], rest).
Proof.
  destruct rest as [|c rest]; simpl; [reflexivity|]; intros H.
  apply orb_true_iff in H as [H|H]; apply N.eqb_eq in H; subst; reflexivity.
Qed.

Lemma Z_of_digits_pos (p : positive) :
  Z_of_digits (str_of_uint (Pos.to_uint p)) = Z.pos p.
Proof.
  unfold Z_of_digits; rewrite uint_of_digits_text.
  unfold N.of_uint; rewrite DecimalPos.Unsigned.of_to; reflexivity.
Qed.

Lemma scan_positive (p : positive) (rest : str) :
  delim rest = true ->
  scan_integer (str_of_uint (Pos.to_uint p) ++ rest) =
  Some (false, str_of_uint (Pos.to_uint p), rest).
Proof.
  intros Hd; destruct (to_uint_head p) as [c [u [Hu [Hc H0]]]].
  rewrite Hu; unfold scan_integer; cbn [app].
  assert (H45 : (c =? 45)%N = false).
  { apply N.eqb_neq; intros ->; discriminate Hc. }
  rewrite H45; apply N.eqb_neq in H0; rewrite H0, Hc.
  rewrite span_digits_app;
    [reflexivity | apply str_of_uint_digits | apply delim_no_digit, Hd].
Qed.

Lemma scan_number_int (z : Z) (rest : str) :
  delim rest = true ->
  scan_number (str_of_Z z ++ rest) = Some (JInt z, rest).
Proof.
  intros Hd; unfold scan_number; destruct z as [|p|p]; unfold str_of_Z.
  - change (lit "0" ++ rest) with (48%N :: rest).
    change (scan_integer (48%N :: rest)) with (Some (false, [48%N], rest)).
    cbv iota beta.
    rewrite scan_fraction_delim, scan_exponent_delim by exact Hd.
    reflexivity.
  - rewrite scan_positive by exact Hd.
    rewrite scan_fraction_delim, scan_exponent_delim by exact Hd.
    rewrite Z_of_digits_pos; reflexivity.
  - cbn [app].
    assert (Hneg : scan_integer (45%N :: str_of_uint (Pos.to_uint p) ++ rest) =
                   Some (true, str_of_uint (Pos.to_uint p), rest)).
    { destruct (to_uint_head p) as [c [u [Hu [Hc H0]]]].
      rewrite Hu; unfold scan_integer; cbn [app].
      change (45 =? 45)%N with true; cbv iota.
      apply N.eqb_neq in H0; rewrite H0, Hc.
      rewrite span_digits_app;
        [reflexivity | apply str_of_uint_digits | apply delim_no_digit, Hd]. }
    rewrite Hneg.
    rewrite scan_fraction_delim, scan_exponent_delim by exact Hd.
    rewrite Z_of_digits_pos; reflexivity.
Qed.

Lemma str_of_Z_head (z : Z) :
  exists c s, str_of_Z z = c :: s /\ (is_digit c = true \/ c = 45%N).
Proof.
  destruct z as [|p|p]; unfold str_of_Z.
  - exists 48%N, []; split; [reflexivity | left; reflexivity].
  - destruct (to_uint_head p) as [c [u [Hu [Hc _]]]].
    exists c, (str_of_uint u); auto.
  - eexists; eexists; split; [reflexivity | right; reflexivity].
Qed.

Lemma parse_value_number (fuel : nat) (c : char) (s : str) (r : json * str) :
  is_digit c = true \/ c = 45%N ->
  scan_number (c :: s) = Some r ->
  parse_value (S fuel) (c :: s) = Some r.
Proof.
  intros Hc Hn.
  assert (H : forall k, (k < 45)%N \/ (57 < k)%N -> (c =? k)%N = false).
  { intros k Hk; apply N.eqb_neq; intros ->.
    destruct Hc as [Hc|Hc]; [|lia].
    unfold is_digit in Hc; apply andb_true_iff in Hc as [H1 H2].
    apply N.leb_le in H1, H2; lia. }
  assert (Hs : forall k t, (k < 45)%N \/ (57 < k)%N ->
                           startswith (k :: t) (c :: s) = false).
  { intros k t Hk; cbn [startswith]; rewrite N.eqb_sym, H by exact Hk.
    reflexivity. }
  cbn [parse_value].
  rewrite !H by lia.
  change (lit "null") with (110%N :: lit "ull").
  change (lit "true") with (116%N :: lit "rue").
  change (lit "false") with (102%N :: lit "alse").
  rewrite !Hs by lia.
  rewrite Hn; reflexivity.
Qed.

Lemma parse_value_int (fuel : nat) (z : Z) (rest : str) :
  delim rest = true ->
  parse_value (S fuel) (str_of_Z z ++ rest) = Some (JInt z, rest).
Proof.
  intros Hd; pose proof (scan_number_int z rest Hd) as Hn.
  destruct (str_of_Z_head z) as [c [s [Hz Hc]]].
  rewrite Hz in *; cbn [app] in *.
  apply parse_value_number; assumption.
Qed.

Lemma parse_value_string (fuel : nat) (s : str) :
  parse_value (S fuel) (34%N :: s) =
  match scan_string s with
  | Some (t, rest) => Some (JString t, rest)
  | None => None
  end.
Proof. reflexivity. Qed.

Lemma parse_value_array (fuel : nat) (s : str) :
  parse_value (S fuel) (91%N :: s) =
  match skip_ws s with
  | c1 :: r1 =>
      if (c1 =? 93)%N then Some (JArray [], r1)
      else
        match parse_items fuel (c1 :: r1) with
        | Some (items, rest) => Some (JArray items, rest)
        | None => None
        end
  | [] => None
  end.
Proof. reflexivity. Qed.

Lemma parse_value_object (fuel : nat) (s : str) :
  parse_value (S fuel) (123%N :: s) =
  match skip_ws s with
  | c1 :: r1 =>
      if (c1 =? 125)%N then Some (JObject [], r1)
      else if (c1 =? 34)%N then
        match parse_members fuel r1 with
        | Some (pairs, rest) => Some (JObject (dict_of_pairs pairs), rest)
        | None => None
        end
      else None
  | [] => None
  end.
Proof. reflexivity. Qed.

Lemma parse_items_S (fuel : nat) (s : str) :
  parse_items (S fuel) s =
  match parse_value fuel s with
  | None => None
  | Some (v, r1) =>
      match skip_ws r1 with
      | c :: r2 =>
          if (c =? 93)%N then Some ([v], r2)
          else if (c =? 44)%N then
            match parse_items fuel (skip_ws r2) with
            | Some (vs, rest) => Some (v :: vs, rest)
            | None => None
            end
          else None
      | [] => None
      end
  end.
Proof. reflexivity. Qed.

Lemma parse_members_S (fuel : nat) (s : str) :
  parse_members (S fuel) s =
  match scan_string s with
  | None => None
  | Some (key, r1) =>
      match skip_ws r1 with
      | c :: r2 =>
          if (c =? 58)%N then
            match parse_value fuel (skip_ws r2) with
            | None => None
            | Some (v, r3) =>
                match skip_ws r3 with
                | d :: r4 =>
                    if (d =? 125)%N then Some ([(key, v)], r4)
                    else if (d =? 44)%N then
                      match skip_ws r4 with
                      | q :: r5 =>
                          if (q =? 34)%N then
                            match parse_members fuel r5 with
                            | Some (ms, rest) => Some ((key, v) :: ms, rest)
                            | None => None
                            end
                          else None
                      | [] => None
                      end
                    else None
                | [] => None
                end
            end
          else None
      | [] => None
      end
  end.
Proof. reflexivity. Qed.

Lemma skip_ws_spaces (n : nat) (s : str) :
  skip_ws (repeat 32%N n ++ s) = skip_ws s.
Proof. induction n as [|n IH]; [reflexivity | exact IH]. Qed.

Lemma skip_ws_newline_indent (level : nat) (s : str) :
  skip_ws (newline_indent level ++ s) = skip_ws s.
Proof. unfold newline_indent; cbn [app skip_ws is_ws]; simpl; apply skip_ws_spaces. Qed.

Lemma skip_ws_head (c : char) (s : str) :
  is_ws c = false -> skip_ws (c :: s) = c :: s.
Proof. intros H; cbn [skip_ws]; rewrite H; reflexivity. Qed.

Lemma digit_not_ws (c : char) : is_digit c = true -> is_ws c = false.
Proof.
  unfold is_digit, is_ws; intros H.
  apply andb_true_iff in H as [H1 H2]; apply N.leb_le in H1, H2.
  repeat (apply orb_false_iff; split); apply N.eqb_neq; lia.
Qed.

Lemma digit_bounds (c : char) : is_digit c = true -> (48 <= c <= 57)%N.
Proof.
  unfold is_digit; intros H.
  apply andb_true_iff in H as [H1 H2]; apply N.leb_le in H1, H2; lia.
Qed.

(** What the encoder writes for a value starts with a character that is
    not white space and not a closing bracket. *)
Lemma dumps_head (level : nat) (v : json) :
  json_ok v = true ->
  exists c s, dumps_at level v = c :: s /\ is_ws c = false /\ c <> 93%N.
Proof.
  destruct v as [|[|]|z|literal|s|[|x items]|[|m members]]; intros Hok;
    try discriminate Hok;
    try (eexists; eexists; split; [reflexivity|];
         split; [reflexivity | discriminate]).
  destruct (str_of_Z_head z) as [c [s [Hz Hc]]].
  exists c, s; split; [exact Hz|].
  destruct Hc as [Hc| ->]; [|split; [reflexivity | discriminate]].
  split; [apply digit_not_ws, Hc|].
  pose proof (digit_bounds c Hc); lia.
Qed.

Lemma skip_ws_dumps (level : nat) (v : json) (rest : str) :
  json_ok v = true ->
  skip_ws (dumps_at level v ++ rest) = dumps_at level v ++ rest.
Proof.
  intros Hok; destruct (dumps_head level v Hok) as [c [s [-> [Hc _]]]].
  apply skip_ws_head, Hc.
Qed.

Lemma delim_newline_indent (level : nat) (s : str) :
  delim (newline_indent level ++ s) = true.
Proof. reflexivity. Qed.

Lemma join_items_text (level : nat) (items : list json) (tail : str) :
  items <> [] ->
  join (44%N :: newline_indent (S level)) (map (dumps_at (S level)) items) ++
  newline_indent level ++ 93%N :: tail =
  items_text level items tail.
Proof.
  induction items as [|x items IH]; [congruence|]; intros _.
  destruct items as [|y items].
  - reflexivity.
  - change (map (dumps_at (S level)) (x :: y :: items))
      with (dumps_at (S level) x :: map (dumps_at (S level)) (y :: items)).
    change (join ?sep (?p :: map ?f (y :: items)))
      with (p ++ sep ++ join sep (map f (y :: items))).
    rewrite <- !app_assoc, IH by discriminate.
    reflexivity.
Qed.

Lemma array_text (level : nat) (x : json) (items : list json) (tail : str) :
  dumps_at level (JArray (x :: items)) ++ tail =
  91%N :: newline_indent (S level) ++ items_text level (x :: items) tail.
Proof.
  rewrite <- join_items_text by discriminate.
  cbn [dumps_at].
  change (lit "[") with [91%N]; change (lit "]") with [93%N].
  change (lit ",") with [44%N].
  rewrite <- !app_assoc; reflexivity.
Qed.

Lemma join_members_text (level : nat) (members : list (str * json))
  (tail : str) :
  members <> [] ->
  join (44%N :: newline_indent (S level))
    (map (fun kv : str * json =>
            quote (fst kv) ++ lit ": " ++ dumps_at (S level) (snd kv))
       members) ++
  newline_indent level ++ 125%N :: tail =
  34%N :: members_text level members tail.
Proof.
  induction members as [|m members IH]; [congruence|]; intros _.
  destruct members as [|m' members].
  - cbn [map join members_text]; unfold quote.
    change (lit ": ") with [58%N; 32%N].
    cbn [app]; rewrite <- !app_assoc; reflexivity.
  - set (f := fun kv : str * json =>
                quote (fst kv) ++ lit ": " ++ dumps_at (S level) (snd kv)) in *.
    change (map f (m :: m' :: members)) with (f m :: map f (m' :: members)).
    change (join ?sep (?p :: map f (m' :: members)))
      with (p ++ sep ++ join sep (map f (m' :: members))).
    rewrite <- !app_assoc, IH by discriminate.
    subst f; cbv beta; unfold quote.
    change (lit ": ") with [58%N; 32%N].
    cbn [app members_text]; rewrite <- !app_assoc; reflexivity.
Qed.

Lemma object_text (level : nat) (m : str * json)
  (members : list (str * json)) (tail : str) :
  dumps_at level (JObject (m :: members)) ++ tail =
  123%N :: newline_indent (S level) ++
  34%N :: members_text level (m :: members) tail.
Proof.
  rewrite <- join_members_text by discriminate.
  cbn [dumps_at].
  change (lit "{") with [123%N]; change (lit "}") with [125%N].
  change (lit ",") with [44%N].
  rewrite <- !app_assoc; reflexivity.
Qed.

Lemma parse_items_text (level : nat) (items : list json) :
  items <> [] ->
  Forall parses_back items -> forallb json_ok items = true ->
  forall fuel tail,
    need_items items <= fuel ->
    parse_items fuel (items_text level items tail) = Some (items, tail).
Proof.
  induction items as [|x items IH]; [congruence|].
  intros _ Hall Hok fuel tail Hfuel.
  inversion Hall as [|? ? Hx Hall']; subst.
  cbn [forallb] in Hok; apply andb_true_iff in Hok as [Hokx Hok].
  cbn [need_items fold_right] in Hfuel; fold (need_items items) in Hfuel.
  destruct fuel as [|fuel]; [lia|].
  rewrite parse_items_S; cbn [items_text].
  destruct items as [|y items].
  - rewrite (Hx (S level) fuel) by (auto; lia).
    rewrite skip_ws_newline_indent; reflexivity.
  - rewrite (Hx (S level) fuel) by (auto; lia).
    cbn [skip_ws is_ws N.eqb Pos.eqb orb].
    rewrite skip_ws_newline_indent.
    assert (Hoky : json_ok y = true)
      by (cbn [forallb] in Hok; apply andb_true_iff in Hok; tauto).
    change (items_text level (y :: items) tail)
      with (dumps_at (S level) y ++
            match items with
            | [] => newline_indent level ++ 93%N :: tail
            | _ => 44%N :: newline_indent (S level) ++
                   items_text level items tail
            end) at 1.
    rewrite skip_ws_dumps by exact Hoky.
    change (dumps_at (S level) y ++
            match items with
            | [] => newline_indent level ++ 93%N :: tail
            | _ => 44%N :: newline_indent (S level) ++
                   items_text level items tail
            end)
      with (items_text level (y :: items) tail).
    rewrite IH; [reflexivity | discriminate | exact Hall' | exact Hok | lia].
Qed.

Lemma parse_members_text (level : nat) (members : list (str * json)) :
  members <> [] ->
  Forall (fun kv : str * json => parses_back (snd kv)) members ->
  forallb (fun kv : str * json => text_ok (fst kv) && json_ok (snd kv))
    members = true ->
  forall fuel tail,
    need_members members <= fuel ->
    parse_members fuel (members_text level members tail) =
    Some (members, tail).
Proof.
  induction members as [|[k v] members IH]; [congruence|].
  intros _ Hall Hok fuel tail Hfuel.
  inversion Hall as [|? ? Hv Hall']; subst; cbn [snd] in Hv.
  cbn [forallb fst snd] in Hok; apply andb_true_iff in Hok as [Hokkv Hok].
  apply andb_true_iff in Hokkv as [Hokk Hokv].
  cbn [need_members fold_right snd] in Hfuel;
    fold (need_members members) in Hfuel.
  destruct fuel as [|fuel]; [lia|].
  rewrite parse_members_S; cbn [members_text fst snd].
  rewrite scan_quoted by exact Hokk.
  cbn [skip_ws is_ws N.eqb Pos.eqb orb].
  rewrite skip_ws_dumps by exact Hokv.
  destruct members as [|[k' v'] members].
  - rewrite (Hv (S level) fuel) by (auto; lia).
    rewrite skip_ws_newline_indent; reflexivity.
  - rewrite (Hv (S level) fuel) by (auto; lia).
    cbn [skip_ws is_ws N.eqb Pos.eqb orb].
    rewrite skip_ws_newline_indent.
    cbn [skip_ws is_ws N.eqb Pos.eqb orb].
    rewrite IH; [reflexivity | discriminate | exact Hall' | exact Hok | lia].
Qed.

Lemma keys_distinct_NoDup (ks : list str) :
  keys_distinct ks = true -> NoDup ks.
Proof.
  induction ks as [|k ks IH]; simpl; intros H; [constructor|].
  apply andb_true_iff in H as [Hk Hks].
  apply negb_true_iff, str_mem_not_In in Hk.
  constructor; auto.
Qed.

Lemma dict_of_pairs_fold (pairs acc : sdict json) :
  NoDup (map fst (acc ++ pairs)) ->
  fold_left (fun d kv => sset (fst kv) (snd kv) d) pairs acc = acc ++ pairs.
Proof.
  revert acc; induction pairs as [|[k v] pairs IH]; intros acc Hnd; simpl.
  - rewrite app_nil_r; reflexivity.
  - assert (Habs : sget k acc = None).
    { apply sget_None_keys; unfold dict_keys; intros Hin.
      rewrite map_app in Hnd; simpl in Hnd.
      apply NoDup_remove_2 in Hnd; apply Hnd, in_or_app; auto. }
    rewrite (sset_absent _ _ _ _ Habs), IH, <- app_assoc; [reflexivity|].
    rewrite <- app_assoc; exact Hnd.
Qed.

Lemma dict_of_pairs_distinct (pairs : sdict json) :
  keys_distinct (map fst pairs) = true -> dict_of_pairs pairs = pairs.
Proof.
  intros H; unfold dict_of_pairs.
  rewrite dict_of_pairs_fold; [reflexivity|].
  apply keys_distinct_NoDup, H.
Qed.

(** The scanner reads back every value the encoder writes. *)
Lemma parse_dumps (v : json) : parses_back v.
Proof.
  induction v as [|b|z|literal|s|items IH|members IH] using json_induction;
    intros level fuel rest Hok Hfuel Hd;
    (destruct fuel as [|fuel]; [cbn [need] in Hfuel; lia|]).
  - reflexivity.
  - destruct b; reflexivity.
  - apply parse_value_int, Hd.
  - discriminate Hok.
  - cbn [dumps_at]; unfold quote; cbn [app].
    rewrite <- app_assoc; cbn [app].
    rewrite parse_value_string, scan_quoted by exact Hok; reflexivity.
  - destruct items as [|x items]; [reflexivity|].
    rewrite array_text, parse_value_array, skip_ws_newline_indent.
    cbn [json_ok] in Hok.
    assert (Hokx : json_ok x = true)
      by (cbn [forallb] in Hok; apply andb_true_iff in Hok; tauto).
    change (items_text level (x :: items) rest)
      with (dumps_at (S level) x ++
            match items with
            | [] => newline_indent level ++ 93%N :: rest
            | _ => 44%N :: newline_indent (S level) ++
                   items_text level items rest
            end) at 1.
    rewrite skip_ws_dumps by exact Hokx.
    destruct (dumps_head (S level) x Hokx) as [c [s [Hx [_ Hc]]]].
    rewrite Hx; cbn [app].
    apply N.eqb_neq in Hc; rewrite Hc.
    change (c :: s ++ ?t) with ((c :: s) ++ t); rewrite <- Hx.
    change (dumps_at (S level) x ++
            match items with
            | [] => newline_indent level ++ 93%N :: rest
            | _ => 44%N :: newline_indent (S level) ++
                   items_text level items rest
            end)
      with (items_text level (x :: items) rest).
    rewrite parse_items_text;
      [reflexivity | discriminate | exact IH | exact Hok |].
    cbn [need] in Hfuel; unfold need_items; lia.
  - destruct members as [|m members]; [reflexivity|].
    rewrite object_text, parse_value_object, skip_ws_newline_indent.
    cbn [skip_ws is_ws N.eqb Pos.eqb orb].
    cbn [json_ok] in Hok; apply andb_true_iff in Hok as [Hkeys Hok].
    rewrite parse_members_text;
      [| discriminate | exact IH | exact Hok |].
    + rewrite dict_of_pairs_distinct by exact Hkeys; reflexivity.
    + cbn [need] in Hfuel; unfold need_members; lia.
Qed.

Lemma length_newline_indent (level : nat) :
  length (newline_indent level) = S (2 * level).
Proof. unfold newline_indent; simpl; rewrite repeat_length; lia. Qed.

Lemma need_le_length (v : json) :
  forall level, json_ok v = true -> need v <= length (dumps_at level v).
Proof.
  induction v as [|b|z|literal|s|items IH|members IH] using json_induction;
    intros level Hok.
  - simpl; lia.
  - destruct b; simpl; lia.
  - destruct (str_of_Z_head z) as [c [s [Hz _]]].
    cbn [dumps_at need]; rewrite Hz; simpl; lia.
  - discriminate Hok.
  - cbn [dumps_at need]; unfold quote; simpl; lia.
  - destruct items as [|x items]; [simpl; lia|].
    pose proof (array_text level x items []) as Ht.
    rewrite app_nil_r in Ht; rewrite Ht; clear Ht.
    cbn [need json_ok] in *; fold (need_items (x :: items)).
    cbn [length]; rewrite length_app.
    enough (He : forall l tail,
               Forall (fun v => forall level,
                         json_ok v = true ->
                         need v <= length (dumps_at level v)) l ->
               forallb json_ok l = true ->
               need_items l <= length (items_text level l tail)) by
      (specialize (He (x :: items) [] IH Hok); lia).
    clear; induction l as [|y l IHl]; intros tail Hall Hok; [simpl; lia|].
    inversion Hall as [|? ? Hy Hall']; subst.
    cbn [forallb] in Hok; apply andb_true_iff in Hok as [Hoky Hok].
    cbn [need_items fold_right items_text]; fold (need_items l).
    rewrite length_app.
    specialize (Hy (S level) Hoky).
    destruct l as [|y' l].
    + rewrite length_app; simpl; lia.
    + specialize (IHl tail Hall' Hok).
      cbn [length]; rewrite length_app; lia.
  - destruct members as [|m members]; [simpl; lia|].
    pose proof (object_text level m members []) as Ht.
    rewrite app_nil_r in Ht; rewrite Ht; clear Ht.
    cbn [need json_ok] in *; fold (need_members (m :: members)).
    apply andb_true_iff in Hok as [_ Hok].
    cbn [length]; rewrite length_app; cbn [length].
    enough (He : forall l tail,
               Forall (fun kv : str * json => forall level,
                         json_ok (snd kv) = true ->
                         need (snd kv) <= length (dumps_at level (snd kv))) l ->
               forallb (fun kv : str * json =>
                          text_ok (fst kv) && json_ok (snd kv)) l = true ->
               need_members l <= length (members_text level l tail)) by
      (specialize (He (m :: members) [] IH Hok); lia).
    clear; induction l as [|[k v] l IHl]; intros tail Hall Hok; [simpl; lia|].
    inversion Hall as [|? ? Hv Hall']; subst; cbn [snd] in Hv.
    cbn [forallb fst snd] in Hok; apply andb_true_iff in Hok as [Hokkv Hok].
    apply andb_true_iff in Hokkv as [_ Hokv].
    cbn [need_members fold_right members_text fst snd]; fold (need_members l).
    rewrite length_app; cbn [length]; rewrite length_app.
    specialize (Hv (S level) Hokv).
    destruct l as [|kv' l].
    + rewrite length_app; simpl; lia.
    + specialize (IHl tail Hall' Hok).
      cbn [length]; rewrite length_app; cbn [length]; lia.
Qed.

(** [json.loads(json.dumps(v, indent=2)) == v] *)
Lemma json_loads_dumps (v : json) :
  json_ok v = true -> json_loads (json_dumps v) = Ok v.
Proof.
  intros Hok; unfold json_loads, json_dumps.
  pose proof (skip_ws_dumps 0 v [] Hok) as Hs.
  rewrite app_nil_r in Hs; rewrite Hs.
  pose proof (parse_dumps v 0 (S (length (dumps_at 0 v))) [] Hok) as Hp.
  rewrite app_nil_r in Hp; rewrite Hp; [reflexivity | | reflexivity].
  pose proof (need_le_length v 0 Hok); lia.
Qed.


(** ** Feedback orchestrator *)

(** Text that is not JSON makes the first statement of the [try] block
    raise. *)
Lemma parse_feedback_not_json (text : str) (e : exn) :
  json_loads text = Raise e -> parse_feedback text = Raise JSONDecodeError.
Proof.
  intros H; unfold parse_feedback; rewrite H; simpl.
  rewrite (json_loads_raises _ _ H); reflexivity.
Qed.

Section OrchestratorFacts.
Variable re_search : str -> str -> result bool.
Variable error_bank : Bank.
Variable name_map : NameMap.

(** With an answer in the expected format the submission is recorded,
    with the message, or with empty feedback text for an empty one. *)
Lemma process_submission_success (st : LoopState) (sub : Submission)
  (codes : list str) (m : str) :
  submission_codes re_search error_bank sub = Ok codes ->
  parse_feedback (sub_response sub) = Ok m ->
  exists st',
    process_submission re_search error_bank name_map st sub = Continue st' /\
    student_totals st' =
      record_student_submission (student_totals st)
        (or_empty (lookup_full_name name_map (sub_id sub)))
        (sub_id sub) codes (if is_empty m then None else Some m) /\
    msg st' = Some m.
Proof.
  intros Hc Hp; unfold process_submission; rewrite Hc, Hp.
  eexists; split; [reflexivity|]; split; reflexivity.
Qed.
End OrchestratorFacts.

(** C1, as amended. For every submission whose answer from the
    text-generation service cannot be used, because it is not JSON or
    not of the expected shape, the history store is as it was before the
    submission, and so is the last message kept by the loop: the
    submission is recorded only after its answer has been parsed. *)
Theorem unusable_response_leaves_history
  (re_search : str -> str -> result bool) (error_bank : Bank)
  (name_map : NameMap) (st : LoopState) (sub : Submission) (e : exn) :
  parse_feedback (sub_response sub) = Raise e ->
  student_totals
    (state_of (process_submission re_search error_bank name_map st sub)) =
    student_totals st /\
  msg (state_of (process_submission re_search error_bank name_map st sub)) =
    msg st.
Proof.
  intros Hp; unfold process_submission; rewrite Hp.
  destruct (submission_codes re_search error_bank sub) as [codes|e'];
    [|split; reflexivity].
  destruct (msg st) as [m|] eqn:Em.
  - destruct (is_empty m); simpl; rewrite ?Em; split; reflexivity.
  - simpl; rewrite Em; split; reflexivity.
Qed.

Lemma unusable_response_leaves_history_witness :
  parse_feedback (sub_response bad_submission) = Raise JSONDecodeError /\
  student_totals
    (state_of (process_submission literal_search sample_bank sample_name_map
                 (initial_state sample_totals) bad_submission)) =
  sample_totals.
Proof.
  assert (Hbad : parse_feedback (sub_response bad_submission) =
                 Raise JSONDecodeError) by (vm_compute; reflexivity).
  split; [exact Hbad|].
  exact (proj1 (unusable_response_leaves_history literal_search sample_bank
                  sample_name_map (initial_state sample_totals)
                  bad_submission JSONDecodeError Hbad)).
Defined.

(** C1 as stated fails on the answer ["not json"]. For the first
    submission of a run the handler reads the local [msg] before any
    assignment to it, [UnboundLocalError] leaves [generate_feedback] and
    the run stops; the submission is neither skipped nor recorded. After
    a submission that was answered well, the handler finds the message
    of that submission in [msg]: an entry with it is added to the
    feedback output for the failed submission, and the store has no
    record of the failed submission. *)
Lemma unusable_response_counterexample :
  json_loads (lit "not json") = Raise JSONDecodeError /\
  process_submission literal_search sample_bank sample_name_map
    (initial_state []) bad_submission =
    Abort UnboundLocalError (initial_state []) /\
  ~ skipped_and_recorded literal_search sample_bank sample_name_map
      (initial_state []) bad_submission /\
  exists st1 st2,
    process_submission literal_search sample_bank sample_name_map
      (initial_state []) good_submission = Continue st1 /\
    process_submission literal_search sample_bank sample_name_map
      st1 bad_submission = Continue st2 /\
    map fr_submission_id (results_out st2) =
      [lit "submission_1"; lit "submission_2"] /\
    map fr_feedback (results_out st2) =
      [lit "Check the bounds of range()."; lit "Check the bounds of range()."] /\
    student_totals st2 = student_totals st1 /\
    map fst (student_totals st2) = [lit "Alex Kim"] /\
    ~ skipped_and_recorded literal_search sample_bank sample_name_map
        st1 bad_submission.
Proof.
  split; [vm_compute; reflexivity|].
  assert (H : process_submission literal_search sample_bank sample_name_map
                (initial_state []) bad_submission =
              Abort UnboundLocalError (initial_state []))
    by (vm_compute; reflexivity).
  split; [exact H|].
  split; [intros [codes [st' [_ [Hc _]]]]; rewrite H in Hc; discriminate|].
  eexists; eexists.
  split; [vm_compute; reflexivity|].
  split; [vm_compute; reflexivity|].
  split; [reflexivity|]. split; [reflexivity|]. split; [reflexivity|].
  split; [reflexivity|].
  intros [codes [st' [_ [Hc [Hr _]]]]].
  vm_compute in Hc; injection Hc as <-.
  vm_compute in Hr; discriminate.
Qed.

(** The same through the loop: both submissions are processed and the
    feedback output holds two entries with the one message. *)
Example stale_message_reused :
  exists st,
    generate_feedback_loop literal_search sample_bank sample_name_map
      (initial_state []) [good_submission; bad_submission] = Continue st /\
    map fr_submission_id (results_out st) =
      [lit "submission_1"; lit "submission_2"] /\
    map fst (student_totals st) = [lit "Alex Kim"].
Proof.
  eexists; split; [vm_compute; reflexivity|].
  split; reflexivity.
Qed.


(** ** Saving then loading the history store *)

Lemma forallb_map {A B} (f : B -> bool) (g : A -> B) (l : list A) :
  forallb f (map g l) = forallb (fun x => f (g x)) l.
Proof.
  induction l as [|x l IH]; simpl; [reflexivity | rewrite IH; reflexivity].
Qed.

Lemma json_of_entry_ok (h : HistoryEntry) :
  entry_ok h = true -> json_ok (json_of_entry h) = true.
Proof.
  unfold entry_ok; intros H.
  apply andb_true_iff in H as [H Hf]; apply andb_true_iff in H as [Hs Hc].
  assert (Hc' : forallb (fun x => json_ok (JString x)) (error_codes h) = true)
    by exact Hc.
  cbn [json_of_entry json_ok map fst snd forallb].
  rewrite Hs, Hf, forallb_map, Hc'; reflexivity.
Qed.

Lemma json_of_student_ok (s : StudentRecord) :
  student_ok s = true -> json_ok (json_of_student s) = true.
Proof.
  unfold student_ok; intros H; apply andb_true_iff in H as [Hn Hh].
  cbn [json_of_student json_ok map fst snd forallb].
  rewrite Hn, forallb_map.
  replace (forallb (fun x => json_ok (json_of_entry x)) (history s))
    with true; [reflexivity|].
  symmetry; apply forallb_forall; intros h Hin.
  apply json_of_entry_ok.
  rewrite forallb_forall in Hh; apply Hh, Hin.
Qed.

Lemma json_of_totals_ok (totals : Totals) :
  totals_ok totals = true -> json_ok (JObject (json_of_totals totals)) = true.
Proof.
  unfold totals_ok, json_of_totals; intros H.
  apply andb_true_iff in H as [Hk Hv].
  cbn [json_ok]; apply andb_true_iff; split.
  - rewrite map_map; exact Hk.
  - rewrite forallb_map.
    apply forallb_forall; intros [k s] Hin; cbn [fst snd].
    rewrite forallb_forall in Hv; specialize (Hv _ Hin); cbn [fst snd] in Hv.
    apply andb_true_iff in Hv as [Hkt Hs].
    rewrite Hkt, json_of_student_ok by exact Hs; reflexivity.
Qed.

Lemma map_injective {A B} (f : A -> B) (l1 l2 : list A) :
  (forall a b, f a = f b -> a = b) -> map f l1 = map f l2 -> l1 = l2.
Proof.
  intros Hf; revert l2; induction l1 as [|x l1 IH]; intros [|y l2];
    cbn [map]; try discriminate; [reflexivity|].
  intros H; injection H as Hx Hl; f_equal; auto.
Qed.

Lemma json_of_entry_inj (h1 h2 : HistoryEntry) :
  json_of_entry h1 = json_of_entry h2 -> h1 = h2.
Proof.
  destruct h1 as [s1 c1 f1], h2 as [s2 c2 f2]; unfold json_of_entry;
    cbn [submission_id error_codes feedback].
  intros H; injection H as Hs Hc Hf; subst; f_equal.
  apply (map_injective JString); [|exact Hc].
  intros a b Hab; injection Hab as Hab; exact Hab.
Qed.

Lemma json_of_student_inj (s1 s2 : StudentRecord) :
  json_of_student s1 = json_of_student s2 -> s1 = s2.
Proof.
  destruct s1 as [n1 c1 h1], s2 as [n2 c2 h2]; unfold json_of_student;
    cbn [full_name feedback_count history].
  intros H; injection H as Hn Hc Hh; subst; f_equal.
  apply (map_injective json_of_entry); [apply json_of_entry_inj | exact Hh].
Qed.

Lemma json_of_totals_inj (t1 t2 : Totals) :
  json_of_totals t1 = json_of_totals t2 -> t1 = t2.
Proof.
  unfold json_of_totals; apply map_injective.
  intros [k1 s1] [k2 s2]; cbn [fst snd]; intros H.
  pose proof (f_equal fst H) as Hk; pose proof (f_equal snd H) as Hs.
  cbn [fst snd] in Hk, Hs.
  f_equal; [exact Hk | apply json_of_student_inj, Hs].
Qed.

(** C5. For every mapping that [json.dumps] can write and the decoder
    gives back as a value (keys distinct as in any [dict], strings of
    Unicode text, no float), saving it and loading the same path yields
    the mapping saved, whatever the file system held before and whatever
    name the temporary file takes. *)
Theorem save_then_load (fs : FS) (path : Path) (temp_name : str)
  (data : sdict json) :
  json_ok (JObject data) = true ->
  load_student_errors (save_student_errors path temp_name data fs) path =
  Ok data.
Proof.
  intros Hok.
  assert (Hf : files (save_student_errors path temp_name data fs) path =
               Some (json_dumps (JObject data))) by apply saved_text.
  rewrite (load_of_file _ _ _ Hf), (json_loads_dumps _ Hok); reflexivity.
Qed.

Lemma save_then_load_witness :
  load_student_errors
    (save_student_errors store_path (lit "tmpk3x9q_7a")
       (json_of_totals (record_calls sample_totals (lit "Sam Lee")
                          sample_calls))
       sample_fs)
    store_path =
  Ok (json_of_totals (record_calls sample_totals (lit "Sam Lee")
                        sample_calls)).
Proof.
  apply save_then_load; vm_compute; reflexivity.
Defined.

(** The same for the history store of the program: the mapping loaded
    is the image of the store saved and of no other store. *)
Corollary save_then_load_history (fs : FS) (path : Path) (temp_name : str)
  (totals : Totals) :
  totals_ok totals = true ->
  load_student_errors
    (save_student_errors path temp_name (json_of_totals totals) fs) path =
  Ok (json_of_totals totals) /\
  (forall totals',
      load_student_errors
        (save_student_errors path temp_name (json_of_totals totals) fs) path =
      Ok (json_of_totals totals') -> totals' = totals).
Proof.
  intros Hok.
  assert (H : load_student_errors
                (save_student_errors path temp_name (json_of_totals totals) fs)
                path = Ok (json_of_totals totals)).
  { assert (Hf : files (save_student_errors path temp_name
                          (json_of_totals totals) fs) path =
                 Some (json_dumps (JObject (json_of_totals totals))))
      by apply saved_text.
    rewrite (load_of_file _ _ _ Hf).
    rewrite (json_loads_dumps _ (json_of_totals_ok _ Hok)); reflexivity. }
  split; [exact H|].
  intros totals' H'; rewrite H in H'; injection H' as H'.
  symmetry; apply json_of_totals_inj, H'.
Qed.


(** ** Grouping: failure outputs by submission, codes by category *)

Lemma first_occurrences_snoc (codes seen : list str) (x : str) :
  first_occurrences seen (codes ++ [x]) =
  first_occurrences seen codes ++
  (if str_mem x seen || str_mem x codes then [] else [x]).
Proof.
  revert seen; induction codes as [|c codes IH]; intros seen; simpl.
  - rewrite orb_false_r; destruct (str_mem x seen); reflexivity.
  - destruct (str_mem c seen) eqn:E.
    + rewrite IH.
      destruct (str_eqb_spec x c) as [->|Hne]; simpl.
      * rewrite E; reflexivity.
      * reflexivity.
    + rewrite IH; simpl.
      destruct (str_eqb_spec x c) as [->|Hne]; simpl.
      * rewrite orb_true_r; reflexivity.
      * reflexivity.
Qed.

Lemma dedupe_snoc (codes : list str) (x : str) :
  dedupe (codes ++ [x]) =
  dedupe codes ++ (if str_mem x codes then [] else [x]).
Proof.
  rewrite !dedupe_first_occurrences, first_occurrences_snoc; reflexivity.
Qed.

Lemma filter_disjoint_Permutation {A} (p q : A -> bool) (xs : list A) :
  (forall x, In x xs -> p x = true -> q x = false) ->
  Permutation (filter p xs ++ filter q xs) (filter (fun x => p x || q x) xs).
Proof.
  induction xs as [|x xs IH]; simpl; intros H; [constructor|].
  assert (IH' := IH (fun y Hy => H y (or_intror Hy))).
  destruct (p x) eqn:Ep; simpl.
  - rewrite (H x (or_introl eq_refl) Ep); apply perm_skip, IH'.
  - destruct (q x); [|exact IH'].
    apply Permutation_sym, Permutation_cons_app, Permutation_sym, IH'.
Qed.

(** A dictionary given by its keys and a function of the key. *)
Section DictOfKeys.
Variable V : Type.
Variable f : str -> V.

Lemma sget_map_keys (k : str) (ks : list str) :
  sget k (map (fun k' => (k', f k')) ks) =
  if str_mem k ks then Some (f k) else None.
Proof.
  unfold sget; induction ks as [|a ks IH]; simpl; [reflexivity|].
  destruct (str_eqb_spec k a) as [->|Hne]; simpl; [reflexivity|exact IH].
Qed.

Lemma sset_map_keys_new (k : str) (v : V) (ks : list str) :
  ~ In k ks ->
  sset k v (map (fun k' => (k', f k')) ks) =
  map (fun k' => (k', f k')) ks ++ [(k, v)].
Proof.
  unfold sset; induction ks as [|a ks IH]; simpl; intros Hn; [reflexivity|].
  destruct (str_eqb_spec k a) as [->|Hne]; [tauto|].
  rewrite IH by tauto; reflexivity.
Qed.

Lemma sset_map_keys_old (k : str) (v : V) (ks : list str) :
  NoDup ks -> In k ks ->
  sset k v (map (fun k' => (k', f k')) ks) =
  map (fun k' => (k', if str_eqb k k' then v else f k')) ks.
Proof.
  unfold sset; induction ks as [|a ks IH]; simpl; intros Hnd Hin; [tauto|].
  inversion Hnd as [|? ? Hna Hnd']; subst.
  destruct (str_eqb_spec k a) as [->|Hne].
  - f_equal; apply map_ext_in; intros b Hb.
    destruct (str_eqb_spec a b) as [->|_]; [tauto|reflexivity].
  - f_equal; apply IH; [exact Hnd'|].
    destruct Hin as [->|Hin]; [congruence|exact Hin].
Qed.
End DictOfKeys.

(** The loop [for x in xs: d.setdefault(key(x), []).append(val(x))]. *)
Section Grouping.
Variables X V : Type.
Variable key : X -> str.
Variable val : X -> V.

Lemma filter_key_absent (k : str) (xs : list X) :
  str_mem k (map key xs) = false ->
  filter (fun x => str_eqb (key x) k) xs = [].
Proof.
  induction xs as [|x xs IH]; simpl; [reflexivity|].
  destruct (str_eqb_spec k (key x)) as [->|Hne]; simpl; [discriminate|].
  intros H.
  destruct (str_eqb_spec (key x) k) as [E|_]; [congruence|exact (IH H)].
Qed.

Lemma filter_key_present (k : str) (xs : list X) :
  In k (map key xs) -> filter (fun x => str_eqb (key x) k) xs <> [].
Proof.
  induction xs as [|x xs IH]; simpl; [tauto|].
  destruct (str_eqb_spec (key x) k) as [_|Hne]; [intros _; discriminate|].
  intros [E|Hin]; [congruence|exact (IH Hin)].
Qed.

Lemma grouping_closed_form (xs : list X) :
  fold_left (fun d x => setdefault_append (key x) (val x) d) xs [] =
  map (fun k => (k, map val (filter (fun x => str_eqb (key x) k) xs)))
    (dedupe (map key xs)).
Proof.
  induction xs as [|x xs IH] using rev_ind; [reflexivity|].
  rewrite fold_left_app; simpl; rewrite IH; clear IH.
  rewrite map_app; change (map key [x]) with [key x]; rewrite dedupe_snoc.
  unfold setdefault_append.
  rewrite (sget_map_keys (list V)
             (fun k => map val (filter (fun x0 => str_eqb (key x0) k) xs))).
  rewrite str_mem_dedupe.
  destruct (str_mem (key x) (map key xs)) eqn:E.
  - rewrite app_nil_r.
    rewrite (sset_map_keys_old (list V)
               (fun k => map val (filter (fun x0 => str_eqb (key x0) k) xs)))
      by (try apply dedupe_NoDup; apply dedupe_In, str_mem_In, E).
    apply map_ext; intros k.
    rewrite filter_app, map_app; simpl.
    destruct (str_eqb_spec (key x) k) as [<-|_]; simpl;
      [reflexivity|rewrite app_nil_r; reflexivity].
  - rewrite (sset_map_keys_new (list V)
               (fun k => map val (filter (fun x0 => str_eqb (key x0) k) xs)))
      by (rewrite dedupe_In; apply str_mem_not_In, E).
    rewrite map_app; simpl.
    f_equal.
    + apply map_ext_in; intros k Hk.
      rewrite filter_app, map_app; simpl.
      destruct (str_eqb_spec (key x) k) as [<-|_];
        [|rewrite app_nil_r; reflexivity].
      apply str_mem_In in Hk; rewrite str_mem_dedupe in Hk; congruence.
    + rewrite filter_app, map_app; simpl; rewrite str_eqb_refl; simpl.
      rewrite (filter_key_absent _ _ E); reflexivity.
Qed.

(** The groups of distinct keys hold, between them, each element with
    one of these keys once. *)
Lemma grouping_Permutation (xs : list X) (ks : list str) :
  NoDup ks ->
  Permutation
    (concat (map (fun k => map val
                              (filter (fun x => str_eqb (key x) k) xs)) ks))
    (map val (filter (fun x => str_mem (key x) ks) xs)).
Proof.
  induction 1 as [|k ks Hk Hnd IH]; simpl.
  - replace (filter (fun _ => false) xs) with (@nil X); [constructor|].
    induction xs; simpl; auto.
  - rewrite (Permutation_app_head _ IH), <- map_app.
    apply Permutation_map.
    rewrite filter_disjoint_Permutation.
    + erewrite filter_ext; [reflexivity|].
      intros x; reflexivity.
    + intros x _ E; apply str_eqb_eq in E; rewrite E.
      apply str_mem_not_In, Hk.
Qed.

Lemma grouping_all (xs : list X) :
  Permutation
    (concat (map snd
               (fold_left (fun d x => setdefault_append (key x) (val x) d)
                  xs [])))
    (map val xs).
Proof.
  rewrite grouping_closed_form, map_map; simpl.
  rewrite (grouping_Permutation xs _ (dedupe_NoDup _)).
  apply Permutation_map.
  replace (filter (fun x => str_mem (key x) (dedupe (map key xs))) xs)
    with xs; [reflexivity|].
  symmetry; apply forallb_filter_id, forallb_forall; intros x Hx.
  rewrite str_mem_dedupe; apply str_mem_In, in_map, Hx.
Qed.
End Grouping.

Lemma fetch_grouped_outputs_closed_form (rows : list (str * option str)) :
  fetch_grouped_outputs rows =
  map (fun sid => (sid, outputs_of sid rows)) (dedupe (map fst rows)).
Proof.
  apply (grouping_closed_form _ _ fst
           (fun row : str * option str => or_empty (snd row))).
Qed.

Lemma by_category_closed_form (bank : Bank) (error_codes : list str) :
  by_category bank error_codes =
  map (fun c => (c, codes_in bank c error_codes))
    (dedupe (map (category_of bank) error_codes)).
Proof.
  unfold by_category.
  rewrite (grouping_closed_form _ _ (category_of bank) (fun i : str => i)).
  apply map_ext; intros c; unfold codes_in; rewrite map_id; reflexivity.
Qed.

(** X1. [fetch_grouped_outputs] groups the outputs by submission: the
    dictionary holds the submissions in the order in which they first
    occur in the rows, each with the outputs of its rows in the order of
    the rows, a NULL output as the empty string; looking up a submission
    that has no row finds nothing. *)
Theorem fetch_grouped_outputs_by_submission (rows : list (str * option str)) :
  fetch_grouped_outputs rows =
    map (fun sid => (sid, outputs_of sid rows)) (dedupe (map fst rows)) /\
  (forall sid,
      sget sid (fetch_grouped_outputs rows) =
      if str_mem sid (map fst rows) then Some (outputs_of sid rows)
      else None).
Proof.
  split; [apply fetch_grouped_outputs_closed_form|].
  intros sid; rewrite fetch_grouped_outputs_closed_form.
  rewrite (sget_map_keys _ (fun sid => outputs_of sid rows)).
  rewrite str_mem_dedupe; reflexivity.
Qed.

(** X2. [fetch_grouped_outputs] loses no row and counts none twice: the
    submissions of the dictionary are distinct, none has an empty list,
    and the lists together are a rearrangement of the outputs of the
    rows. *)
Theorem fetch_grouped_outputs_keeps_rows (rows : list (str * option str)) :
  NoDup (dict_keys (fetch_grouped_outputs rows)) /\
  (forall sid outputs,
      In (sid, outputs) (fetch_grouped_outputs rows) -> outputs <> []) /\
  Permutation
    (concat (dict_values (fetch_grouped_outputs rows)))
    (map (fun row => or_empty (snd row)) rows).
Proof.
  split; [|split].
  - rewrite fetch_grouped_outputs_closed_form.
    unfold dict_keys; rewrite map_map; simpl.
    rewrite map_id; apply dedupe_NoDup.
  - intros sid outputs Hin; rewrite fetch_grouped_outputs_closed_form in Hin.
    apply in_map_iff in Hin as [k [E Hk]]; injection E as <- <-.
    apply (proj1 (dedupe_In _ _)) in Hk.
    unfold outputs_of; intros Hnil; apply map_eq_nil in Hnil.
    exact (filter_key_present _ fst k rows Hk Hnil).
  - apply (grouping_all _ _ fst
             (fun row : str * option str => or_empty (snd row))).
Qed.

Example fetch_grouped_outputs_rows :
  fetch_grouped_outputs
    [ (lit "submission_1", Some (lit "a")); (lit "submission_2", None);
      (lit "submission_1", Some (lit "b")) ] =
  [ (lit "submission_1", [lit "a"; lit "b"]); (lit "submission_2", [[]]) ].
Proof. reflexivity. Qed.

(** X3. The pattern block lists the categories in the order in which the
    codes first fall into them, one line a category, the category
    followed by its codes in sorted order; a code the bank does not
    hold, or holds without a category, falls under ["Unclassified"];
    without codes the block is the text ["none"]. *)
Theorem pattern_block_by_category (bank : Bank) (error_codes : list str) :
  make_student_pattern_block_for_submission bank [] = lit "none" /\
  by_category bank error_codes =
    map (fun c => (c, codes_in bank c error_codes))
      (dedupe (map (category_of bank) error_codes)) /\
  (forall c codes,
      error_codes = c :: codes ->
      make_student_pattern_block_for_submission bank error_codes =
      join NEWLINE
        (map (fun cat =>
                cat ++ lit ": " ++
                join (lit ", ")
                  (sorted str_leb (codes_in bank cat error_codes)))
           (dedupe (map (category_of bank) error_codes)))) /\
  (forall i, sget i bank = None -> category_of bank i = lit "Unclassified") /\
  (forall i entry,
      sget i bank = Some entry -> category entry = None ->
      category_of bank i = lit "Unclassified").
Proof.
  split; [reflexivity|].
  split; [apply by_category_closed_form|].
  split; [|split].
  - intros c codes ->.
    unfold make_student_pattern_block_for_submission.
    rewrite by_category_closed_form, map_map; reflexivity.
  - intros i H; unfold category_of; rewrite H; reflexivity.
  - intros i entry H Hc; unfold category_of; rewrite H, Hc; reflexivity.
Qed.

(** X4. The pattern block shows every code of the submission once for
    each of its occurrences, under the category the bank gives it: the
    categories are distinct, a code stands under its own category and
    under no other, and the groups together are a rearrangement of the
    codes. *)
Theorem pattern_block_partitions_codes (bank : Bank)
  (error_codes : list str) :
  NoDup (dict_keys (by_category bank error_codes)) /\
  (forall cat codes i,
      In (cat, codes) (by_category bank error_codes) -> In i codes ->
      In i error_codes /\ category_of bank i = cat) /\
  (forall i,
      In i error_codes ->
      exists codes,
        sget (category_of bank i) (by_category bank error_codes) =
          Some codes /\
        In i codes) /\
  Permutation (concat (dict_values (by_category bank error_codes)))
    error_codes.
Proof.
  split; [|split; [|split]].
  - rewrite by_category_closed_form.
    unfold dict_keys; rewrite map_map; simpl.
    rewrite map_id; apply dedupe_NoDup.
  - intros cat codes i Hin Hi; rewrite by_category_closed_form in Hin.
    apply in_map_iff in Hin as [k [E Hk]]; injection E as <- <-.
    unfold codes_in in Hi; apply filter_In in Hi as [Hi E].
    apply str_eqb_eq in E; auto.
  - intros i Hi; rewrite by_category_closed_form.
    rewrite (sget_map_keys _ (fun c => codes_in bank c error_codes)).
    rewrite str_mem_dedupe.
    assert (Hm : str_mem (category_of bank i)
                   (map (category_of bank) error_codes) = true)
      by (apply str_mem_In, in_map, Hi).
    rewrite Hm; eexists; split; [reflexivity|].
    unfold codes_in; apply filter_In; split; [exact Hi|apply str_eqb_refl].
  - pose proof (grouping_all _ _ (category_of bank) (fun i : str => i)
                  error_codes) as P.
    rewrite map_id in P; exact P.
Qed.

Example pattern_block_sample :
  make_student_pattern_block_for_submission sample_bank
    [lit "LOOP_BAD_RANGE"; lit "UNCLASSIFIED"; lit "FLOAT_ON_NONE";
     lit "OTHER"] =
  lit "Loops: LOOP_BAD_RANGE" ++ NEWLINE ++
  lit "Unclassified: OTHER, UNCLASSIFIED" ++ NEWLINE ++
  lit "Type: FLOAT_ON_NONE".
Proof. reflexivity. Qed.


(** ** Stripped text: the message normalizer and the excerpt reader *)

Lemma lstrip_head (s r : str) (c : char) :
  lstrip s = c :: r -> is_space c = false.
Proof.
  induction s as [|x s IH]; simpl; [discriminate|].
  destruct (is_space x) eqn:E; [exact IH|].
  intros H; injection H as <- _; exact E.
Qed.

Lemma lstrip_fixed (s : str) (c : char) :
  is_space c = false -> lstrip (c :: s) = c :: s.
Proof. intros H; simpl; rewrite H; reflexivity. Qed.

Lemma rstrip_head (s : str) (c : char) :
  is_space c = false -> exists r, rstrip (c :: s) = c :: r.
Proof.
  intros H; simpl; destruct (rstrip s) as [|y r]; rewrite ?H; eauto.
Qed.

Lemma rstrip_idempotent (s : str) : rstrip (rstrip s) = rstrip s.
Proof.
  induction s as [|x s IH]; simpl; [reflexivity|].
  destruct (rstrip s) as [|y r] eqn:E.
  - destruct (is_space x) eqn:Ex; simpl; rewrite ?Ex; reflexivity.
  - change (rstrip (x :: y :: r)) with
      (match rstrip (y :: r) with
       | [] => if is_space x then [] else [x]
       | r' => x :: r'
       end).
    rewrite IH; reflexivity.
Qed.

(** What [strip] returns has no white space at either end. *)
Lemma strip_idempotent (s : str) : strip (strip s) = strip s.
Proof.
  unfold strip.
  destruct (lstrip s) as [|c t] eqn:E; [reflexivity|].
  apply lstrip_head in E.
  destruct (rstrip_head t c E) as [r Hr]; rewrite Hr.
  rewrite (lstrip_fixed r c E), <- Hr; apply rstrip_idempotent.
Qed.

Lemma strip_head (s r : str) (c : char) :
  strip s = c :: r -> is_space c = false.
Proof.
  unfold strip; destruct (lstrip s) as [|x t] eqn:E; [discriminate|].
  apply lstrip_head in E.
  destruct (rstrip_head t x E) as [r' Hr]; rewrite Hr.
  intros H; injection H as <- _; exact E.
Qed.

Lemma lstrip_blank (s : str) :
  (forall c, In c s -> is_space c = true) -> lstrip s = [].
Proof.
  induction s as [|x s IH]; simpl; intros H; [reflexivity|].
  rewrite (H x) by auto; apply IH; auto.
Qed.

Lemma strip_blank (s : str) :
  (forall c, In c s -> is_space c = true) -> strip s = [].
Proof. intros H; unfold strip; rewrite (lstrip_blank s H); reflexivity. Qed.

(** The characters of the lines are characters of the text. *)
Lemma splitlines_from_chars (P : char -> Prop) (s line l : str) (c : char) :
  (forall x, In x line -> P x) -> (forall x, In x s -> P x) ->
  In l (splitlines_from line s) -> In c l -> P c.
Proof.
  revert line.
  enough (Hboth :
    (forall line,
        (forall x, In x line -> P x) -> (forall x, In x s -> P x) ->
        In l (splitlines_from line s) -> In c l -> P c) /\
    (forall a line,
        (forall x, In x line -> P x) -> (forall x, In x (a :: s) -> P x) ->
        In l (splitlines_from line (a :: s)) -> In c l -> P c))
    by apply Hboth.
  induction s as [|b s [IH0 IH1]].
  - split.
    + intros line Hline _; simpl; destruct line; simpl; [tauto|].
      intros [<-|[]]; auto.
    + intros a line Hline Ha; simpl.
      destruct (is_linebreak a) eqn:Ea; simpl.
      * intros [<-|[]]; auto.
      * intros Hin Hc.
        assert (Hl : l = line ++ [a]).
        { destruct (line ++ [a]) eqn:E; simpl in Hin; [tauto|].
          destruct Hin as [<-|[]]; reflexivity. }
        subst l; apply in_app_iff in Hc as [Hc|[<-|[]]]; auto.
        apply Ha; simpl; auto.
  - split; [exact (IH1 b)|].
    intros a line Hline Hs; simpl.
    assert (Hs' : forall x, In x (b :: s) -> P x)
      by (intros x Hx; apply Hs; right; exact Hx).
    destruct (is_linebreak a) eqn:Ea.
    + simpl; intros [<-|Hin]; [auto|].
      destruct ((a =? 13) && (b =? 10))%N.
      * apply (IH0 []); [simpl; tauto | | exact Hin].
        intros x Hx; apply Hs'; right; exact Hx.
      * apply (IH1 b []); [simpl; tauto | exact Hs' | exact Hin].
    + apply (IH1 b (line ++ [a])); [|exact Hs'].
      intros x Hx; apply in_app_iff in Hx as [Hx|[<-|[]]]; auto.
      apply Hs; left; reflexivity.
Qed.

(** Every line takes its characters and one more, the boundary that
    ends it, out of the text; only the last line may have none. *)
Lemma splitlines_from_length (s line : str) :
  length (concat (splitlines_from line s)) + length (splitlines_from line s)
  <= length line + length s + 1.
Proof.
  revert line.
  enough (Hboth :
    (forall line,
        length (concat (splitlines_from line s)) +
        length (splitlines_from line s) <= length line + length s + 1) /\
    (forall a line,
        length (concat (splitlines_from line (a :: s))) +
        length (splitlines_from line (a :: s))
        <= length line + length (a :: s) + 1))
    by apply Hboth.
  induction s as [|b s [IH0 IH1]].
  - split.
    + intros [|x line]; simpl; [lia|].
      rewrite app_nil_r; simpl; lia.
    + intros a line; simpl.
      destruct (is_linebreak a); simpl.
      * rewrite app_nil_r; lia.
      * destruct (line ++ [a]) as [|y l'] eqn:E; simpl; [lia|].
        rewrite app_nil_r.
        assert (Hl : length (line ++ [a]) = length line + 1)
          by (rewrite length_app; simpl; lia).
        rewrite E in Hl; simpl in Hl; lia.
  - split; [exact (IH1 b)|].
    intros a line; cbn [splitlines_from].
    destruct (is_linebreak a).
    + destruct ((a =? 13) && (b =? 10))%N; cbn [concat length];
        rewrite length_app.
      * specialize (IH0 []); simpl in IH0 |- *; lia.
      * specialize (IH1 b []); simpl in IH1 |- *; lia.
    + specialize (IH1 b (line ++ [a])).
      rewrite length_app in IH1; simpl in IH1 |- *; lia.
Qed.

Lemma kept_lines_length (ls : list str) :
  length (concat (map strip
                    (filter (fun line => negb (str_eqb (strip line) [])) ls)))
  + length (map strip
              (filter (fun line => negb (str_eqb (strip line) [])) ls))
  <= length (concat ls) + length ls.
Proof.
  induction ls as [|l ls IH]; simpl; [lia|].
  pose proof (length_strip l) as Hl.
  destruct (negb (str_eqb (strip l) [])); simpl; rewrite !length_app; lia.
Qed.

Lemma one_line_length (m : str) : length (one_line m) <= length m.
Proof.
  unfold one_line.
  pose proof (kept_lines_length (splitlines m)) as Hk.
  pose proof (splitlines_from_length m []) as Hs.
  fold (splitlines m) in Hs; cbn [length] in Hs.
  pose proof (len_join (lit " ")
                (map strip
                   (filter (fun line => negb (str_eqb (strip line) []))
                      (splitlines m)))) as Hj.
  unfold len in Hj; change (length (lit " ")) with 1 in Hj.
  set (kept := map strip
                 (filter (fun line => negb (str_eqb (strip line) []))
                    (splitlines m))) in *.
  destruct kept as [|p ps]; [simpl; lia|].
  cbn [length pred] in Hj, Hk; lia.
Qed.

Lemma replace_double_backslash_length (s : str) :
  length (replace_double_backslash s) <= length s.
Proof.
  enough (Hboth :
    length (replace_double_backslash s) <= length s /\
    (forall a, length (replace_double_backslash (a :: s)) <= S (length s)))
    by apply Hboth.
  induction s as [|b s [IH0 IH1]].
  - split; simpl; auto.
  - split; [exact (IH1 b)|].
    intros a.
    change (replace_double_backslash (a :: b :: s)) with
      (if ((a =? 92) && (b =? 92))%N
       then 92%N :: replace_double_backslash s
       else a :: replace_double_backslash (b :: s)).
    specialize (IH1 b).
    destruct ((a =? 92) && (b =? 92))%N; cbn [length] in *; lia.
Qed.

Lemma replace_double_backslash_head (s r : str) (c : char) :
  replace_double_backslash s = c :: r -> exists t, s = c :: t.
Proof.
  destruct s as [|a [|b s]]; simpl; [discriminate| |].
  - intros H; injection H as <- _; eauto.
  - destruct ((a =? 92) && (b =? 92))%N eqn:E.
    + apply andb_true_iff in E as [Ea _]; apply N.eqb_eq in Ea; subst a.
      intros H; injection H as <- _; eauto.
    + intros H; injection H as <- _; eauto.
Qed.

Lemma slice_to_head {A} (s r : list A) (c : A) (stop : Z) :
  slice_to s stop = c :: r -> exists t, s = c :: t.
Proof.
  unfold slice_to.
  destruct (0 <=? stop)%Z;
    match goal with
    | |- firstn ?n _ = _ -> _ => destruct n, s; simpl; try discriminate
    end;
    intros H; injection H as <- _; eauto.
Qed.

Lemma join_head (sep p r : str) (ps : list str) (c : char) :
  join sep (p :: ps) = c :: r -> p <> [] -> exists t, p = c :: t.
Proof.
  destruct p as [|x p]; [tauto|].
  intros H _; destruct ps; simpl in H; injection H as <- _; eauto.
Qed.

Lemma one_line_head (m r : str) (c : char) :
  one_line m = c :: r -> is_space c = false.
Proof.
  unfold one_line.
  destruct (filter (fun line => negb (str_eqb (strip line) []))
              (splitlines m)) as [|l ls] eqn:E; [discriminate|].
  assert (Hl : In l (filter (fun line => negb (str_eqb (strip line) []))
                       (splitlines m))) by (rewrite E; left; reflexivity).
  apply filter_In in Hl as [_ Hl].
  apply negb_true_iff, str_eqb_neq in Hl.
  cbn [map]; intros H.
  destruct (join_head _ _ _ _ _ H Hl) as [t Ht].
  exact (strip_head _ _ _ Ht).
Qed.

Lemma filter_none {A} (f : A -> bool) (l : list A) :
  (forall x, In x l -> f x = false) -> filter f l = [].
Proof.
  induction l as [|x l IH]; simpl; intros H; [reflexivity|].
  rewrite (H x) by auto; apply IH; auto.
Qed.

Lemma one_line_blank (m : str) :
  (forall c, In c m -> is_space c = true) -> one_line m = [].
Proof.
  intros H; unfold one_line.
  rewrite filter_none; [reflexivity|].
  intros l Hl; apply negb_false_iff, str_eqb_eq, strip_blank.
  intros c Hc.
  apply (splitlines_from_chars (fun x => is_space x = true) m [] l c);
    [simpl; tauto | exact H | exact Hl | exact Hc].
Qed.

(** X5. [condense] never makes a message longer, whatever the limit:
    lines are joined by one space where at least one character of a line
    boundary stood, and stripping, the replacement of backslashes and
    the slice only remove characters. *)
Theorem condense_never_longer (msg : option str) (limit : Z) :
  (len (condense msg limit) <= len (or_empty msg))%Z.
Proof.
  destruct msg as [[|x m]|]; simpl; try (unfold len; simpl; lia).
  pose proof (slice_to_length_le_len
                (replace_double_backslash (one_line (x :: m))) limit) as H1.
  pose proof (replace_double_backslash_length (one_line (x :: m))) as H2.
  pose proof (one_line_length (x :: m)) as H3.
  unfold len in *; simpl length in H3 |- *; lia.
Qed.

(** X6. What [condense] returns starts with text: its first character is
    never white space, and a message that holds nothing but white space
    and line boundaries condenses to the empty string. *)
Theorem condense_starts_with_text (msg : option str) (limit : Z) :
  (forall c r, condense msg limit = c :: r -> is_space c = false) /\
  (forall m,
      msg = Some m -> (forall c, In c m -> is_space c = true) ->
      condense msg limit = []).
Proof.
  split.
  - intros c r; destruct msg as [[|x m]|]; simpl; try discriminate.
    intros H.
    apply slice_to_head in H as [t H].
    apply replace_double_backslash_head in H as [t' H].
    exact (one_line_head _ _ _ H).
  - intros m -> H; destruct m as [|x m]; [reflexivity|].
    simpl; rewrite (one_line_blank (x :: m) H).
    unfold slice_to; destruct (0 <=? limit)%Z; simpl;
      [apply firstn_nil|reflexivity].
Qed.

Example condense_sample :
  condense (Some (lit "  Traceback:" ++ [13; 10] ++ lit "   x\\y  "))%N 400 =
  lit "Traceback: x\y".
Proof. reflexivity. Qed.

(** X7. [read_excerpt] gives the empty string for a path that does not
    exist and raises for a directory; for a file it returns text that
    has no white space at either end, is no longer than the file and,
    for a limit that is not negative, has at most [limit] characters. *)
Theorem read_excerpt_bounded_stripped (fs : FS) (p : Path) (limit : Z) :
  (path_exists fs p = false -> read_excerpt fs p limit = Ok []) /\
  (files fs p = None -> dirs fs p = true ->
   read_excerpt fs p limit = Raise IsADirectoryError) /\
  (forall text,
      files fs p = Some text ->
      exists r,
        read_excerpt fs p limit = Ok r /\
        strip r = r /\
        (len r <= len text)%Z /\
        ((0 <= limit)%Z -> (len r <= limit)%Z)).
Proof.
  unfold read_excerpt, path_exists, read_text.
  split; [|split].
  - intros H; rewrite H; reflexivity.
  - intros Hf Hd; rewrite Hf, Hd; reflexivity.
  - intros text Hf; rewrite Hf; simpl.
    eexists; split; [reflexivity|].
    split; [apply strip_idempotent|].
    pose proof (length_strip (slice_to text limit)) as Hs.
    pose proof (slice_to_length_le_len text limit) as Ht.
    split; [unfold len in *; lia|].
    intros Hl; pose proof (slice_to_length_le text limit Hl).
    unfold len in *; lia.
Qed.

Example read_excerpt_sample :
  read_excerpt (fs_with [lit "assignment.txt"] (lit " Task 1:  sum the list "))
    [lit "assignment.txt"] 9 =
  Ok (lit "Task 1:").
Proof. reflexivity. Qed.


(** ** The history of a student: recording and summarizing together *)

(** A code counts as frequent exactly when its lifetime count is at
    least two: the count over the recent window never exceeds it. *)
Lemma In_frequent_lifetime (hist : list HistoryEntry) (window : Z) (c : str) :
  In c (frequent_codes hist window) <-> (2 <= lifetime_count hist c)%Z.
Proof.
  rewrite In_frequent_codes.
  pose proof (recent_le_lifetime hist window c); lia.
Qed.

Lemma overlap_of_window (hist : list HistoryEntry) (now_codes : list str)
  (w1 w2 : Z) :
  overlap_of now_codes (frequent_codes hist w1) =
  overlap_of now_codes (frequent_codes hist w2).
Proof.
  unfold overlap_of; f_equal; apply filter_ext; intros c.
  apply eq_true_iff_eq.
  rewrite !str_mem_In, !In_frequent_lifetime; tauto.
Qed.

(** X8. The parameter [window] has no effect on what [summarize_history]
    returns, neither on the text nor on the overlap: a code that two
    entries of the recent window hold has a lifetime count of two at
    least, so the recent counts add nothing to the frequent codes. *)
Theorem summarize_history_window_irrelevant (student : option StudentRecord)
  (now_codes : list str) (top_k w1 w2 : Z) :
  summarize_history student now_codes top_k w1 =
  summarize_history student now_codes top_k w2.
Proof.
  unfold summarize_history.
  destruct student as [s|]; [|reflexivity].
  destruct (history s) as [|h hist]; [reflexivity|].
  cbv zeta.
  rewrite (overlap_of_window (h :: hist) now_codes w1 w2); reflexivity.
Qed.

Lemma In_summary_overlap (s : StudentRecord) (now_codes : list str)
  (top_k window : Z) (c : str) :
  In c (snd (summarize_history (Some s) now_codes top_k window)) <->
  In c now_codes /\ (2 <= lifetime_count (history s) c)%Z.
Proof.
  destruct (history s) as [|h hist] eqn:Eh.
  - unfold summarize_history; rewrite Eh; simpl.
    unfold lifetime_count, occurrences, len; simpl; lia.
  - rewrite summarize_history_overlap by congruence.
    rewrite In_overlap_of, In_frequent_lifetime, Eh; tauto.
Qed.

(** X9. The overlap returned by [summarize_history] is exactly the set
    of current codes that occur at least twice in the whole history of
    the student, every occurrence in every entry counted; it is empty
    for an unknown student. *)
Theorem summarize_overlap_lifetime (student : option StudentRecord)
  (now_codes : list str) (top_k window : Z) (c : str) :
  In c (snd (summarize_history student now_codes top_k window)) <->
  exists s,
    student = Some s /\ In c now_codes /\
    (2 <= lifetime_count (history s) c)%Z.
Proof.
  destruct student as [s|].
  - rewrite In_summary_overlap; split.
    + intros H; exists s; tauto.
    + intros [s' [E H]]; injection E as <-; exact H.
  - simpl; split; [tauto|]; intros [s [E _]]; discriminate.
Qed.

Lemma occurrences_nonneg (c : str) (l : list str) : (0 <= occurrences c l)%Z.
Proof. unfold occurrences, len; lia. Qed.

Lemma occurrences_In (c : str) (l : list str) :
  In c l -> (1 <= occurrences c l)%Z.
Proof.
  induction l as [|x l IH]; simpl; [tauto|].
  rewrite occurrences_cons.
  pose proof (occurrences_nonneg c l) as Hpos.
  destruct (str_eqb_spec c x) as [->|Hne]; [lia|].
  intros [E|Hin]; [congruence|]; specialize (IH Hin); lia.
Qed.

Lemma lifetime_count_app (h1 h2 : list HistoryEntry) (c : str) :
  lifetime_count (h1 ++ h2) c =
  (lifetime_count h1 c + lifetime_count h2 c)%Z.
Proof.
  unfold lifetime_count; rewrite flat_map_app; apply occurrences_app.
Qed.

(** X10. Recording and summarizing fit together: once two submissions
    of a student have been recorded with a code among their error codes,
    the summary of that student's record reports the code as recurring
    whenever it is among the current codes, whatever the store held
    before and whatever [top_k] and [window] are. *)
Theorem recorded_twice_is_frequent (totals : Totals) (name : str)
  (sid1 sid2 : str) (codes1 codes2 : list str) (fb1 fb2 : option str)
  (now_codes : list str) (top_k window : Z) (c : str) :
  In c codes1 -> In c codes2 -> In c now_codes ->
  exists s,
    sget name
      (record_student_submission
         (record_student_submission totals name sid1 codes1 fb1)
         name sid2 codes2 fb2) = Some s /\
    In c (snd (summarize_history (Some s) now_codes top_k window)).
Proof.
  intros H1 H2 Hn.
  rewrite record_get_same; eexists; split; [reflexivity|].
  apply In_summary_overlap; split; [exact Hn|].
  cbn [history]; unfold student_or_new at 1.
  rewrite record_get_same; cbn [history].
  rewrite !lifetime_count_app.
  unfold lifetime_count at 2 3; cbn [flat_map error_codes];
    rewrite !app_nil_r.
  pose proof (occurrences_In c codes1 H1).
  pose proof (occurrences_In c codes2 H2).
  pose proof (occurrences_nonneg c
                (flat_map error_codes (history (student_or_new totals name)))).
  unfold lifetime_count; lia.
Qed.

Lemma recorded_twice_is_frequent_witness :
  exists s,
    sget (lit "Sam Lee")
      (record_student_submission
         (record_student_submission sample_totals (lit "Sam Lee")
            (lit "submission_2") [lit "TYPE_NONE"; lit "LOOP_BAD_RANGE"] None)
         (lit "Sam Lee") (lit "submission_5") [lit "TYPE_NONE"]
         (Some (lit "Check for None before adding."))) = Some s /\
    In (lit "TYPE_NONE")
      (snd (summarize_history (Some s) [lit "TYPE_NONE"] 3 5)).
Proof.
  apply (recorded_twice_is_frequent sample_totals (lit "Sam Lee")
           (lit "submission_2") (lit "submission_5")
           [lit "TYPE_NONE"; lit "LOOP_BAD_RANGE"] [lit "TYPE_NONE"]
           None (Some (lit "Check for None before adding."))
           [lit "TYPE_NONE"] 3 5 (lit "TYPE_NONE"));
    simpl; auto.
Defined.

(** X11. [record_student_submission] touches one student only: the
    record of every other student is what it was, the students keep
    their order with a new student added last, and the entries the
    student had are kept, in their order, before the new one. *)
Theorem record_keeps_other_students (totals : Totals) (name sid : str)
  (codes : list str) (fb : option str) :
  (forall name',
      name' <> name ->
      sget name' (record_student_submission totals name sid codes fb) =
      sget name' totals) /\
  dict_keys (record_student_submission totals name sid codes fb) =
    match sget name totals with
    | Some _ => dict_keys totals
    | None => dict_keys totals ++ [name]
    end /\
  (forall s,
      sget name totals = Some s ->
      exists s',
        sget name (record_student_submission totals name sid codes fb) =
          Some s' /\
        full_name s' = full_name s /\
        history s' = history s ++ [{| submission_id := sid;
                                      error_codes := codes;
                                      feedback := or_empty fb |}]).
Proof.
  split; [|split].
  - intros name' Hne; apply record_get_other; exact Hne.
  - unfold record_student_submission.
    destruct (sget name totals) as [s|] eqn:E.
    + rewrite E; apply (sset_keys_present _ _ _ s _ E).
    + rewrite sget_sset_same.
      rewrite (sset_absent _ name (new_student name) totals E).
      rewrite (sset_keys_present _ name _ (new_student name)).
      * unfold dict_keys; rewrite map_app; reflexivity.
      * rewrite <- (sset_absent _ name (new_student name) totals E).
        apply sget_sset_same.
  - intros s E; rewrite record_get_same; unfold student_or_new; rewrite E.
    eexists; split; [reflexivity|]; split; reflexivity.
Qed.


(** ** Error classifier: which code a message gets *)

Section ClassifierCodes.
Variable re_search : str -> str -> result bool.

Lemma search_patterns_true (pats : list str) (i : str) :
  search_patterns re_search pats i = Ok true ->
  exists pat, In pat pats /\ re_search pat i = Ok true.
Proof.
  induction pats as [|p pats IH]; simpl; [discriminate|].
  destruct (re_search p i) as [[|]|e] eqn:E.
  - intros _; exists p; auto.
  - intros H; destruct (IH H) as [pat [Hin Hm]]; exists pat; auto.
  - destruct e; try discriminate.
    intros H; destruct (IH H) as [pat [Hin Hm]]; exists pat; auto.
Qed.

Lemma search_patterns_false (pats : list str) (i pat : str) :
  search_patterns re_search pats i = Ok false ->
  In pat pats -> re_search pat i <> Ok true.
Proof.
  induction pats as [|p pats IH]; simpl; [tauto|].
  destruct (re_search p i) as [[|]|e] eqn:E.
  - discriminate.
  - intros H [<-|Hin]; [congruence|auto].
  - destruct e; try discriminate.
    intros H [<-|Hin]; [congruence|auto].
Qed.

(** A code found in the bank is the key of an entry, other than
    ["UNCLASSIFIED"], one of whose patterns matches. *)
Lemma search_bank_Some (bank : Bank) (i code : str) :
  search_bank re_search bank i = Ok (Some code) ->
  code <> UNCLASSIFIED /\
  exists entry pats pat,
    In (code, entry) bank /\ regex entry = Some pats /\ In pat pats /\
    re_search pat i = Ok true.
Proof.
  induction bank as [|[c e] bank IH]; simpl; [discriminate|].
  assert (IH' : search_bank re_search bank i = Ok (Some code) ->
                code <> UNCLASSIFIED /\
                exists entry pats pat,
                  In (code, entry) ((c, e) :: bank) /\
                  regex entry = Some pats /\ In pat pats /\
                  re_search pat i = Ok true).
  { intros H; destruct (IH H) as [Hne [entry [pats [pat [Hin Hrest]]]]].
    split; [exact Hne|]; exists entry, pats, pat; simpl; auto. }
  destruct (str_eqb_spec c UNCLASSIFIED) as [->|Hc]; [exact IH'|].
  destruct (regex e) as [ps|] eqn:Er; simpl.
  - destruct (search_patterns re_search ps i) as [[|]|err] eqn:Es; simpl;
      [|exact IH'|discriminate].
    intros H; injection H as <-.
    split; [exact Hc|].
    destruct (search_patterns_true ps i Es) as [pat [Hin Hm]].
    exists e, ps, pat; simpl; auto.
  - exact IH'.
Qed.

(** No code found: no pattern of any entry, the one under the key
    ["UNCLASSIFIED"] apart, matches. *)
Lemma search_bank_None (bank : Bank) (i : str) :
  search_bank re_search bank i = Ok None ->
  forall code entry pats pat,
    In (code, entry) bank -> code <> UNCLASSIFIED ->
    regex entry = Some pats -> In pat pats ->
    re_search pat i <> Ok true.
Proof.
  induction bank as [|[c e] bank IH]; simpl; [tauto|].
  destruct (str_eqb_spec c UNCLASSIFIED) as [->|Hc].
  - intros H code entry pats pat [E|Hin] Hne;
      [injection E as <- <-; tauto|].
    exact (IH H code entry pats pat Hin Hne).
  - destruct (search_patterns re_search
                (match regex e with Some ps => ps | None => [] end) i)
      as [[|]|err] eqn:Es; simpl; try discriminate.
    intros H code entry pats pat [E|Hin] Hne Hr Hp.
    + injection E as <- <-; rewrite Hr in Es.
      exact (search_patterns_false pats i pat Es Hp).
    + exact (IH H code entry pats pat Hin Hne Hr Hp).
Qed.

Lemma message_codes_In (msgs : list str) (bank : Bank) (codes : list str)
  (c : str) :
  message_codes re_search msgs bank = Ok codes -> In c codes ->
  exists i, In i msgs /\ message_code re_search bank i = Ok c.
Proof.
  revert codes; induction msgs as [|i msgs IH]; simpl; intros codes.
  - intros H; injection H as <-; simpl; tauto.
  - destruct (message_code re_search bank i) as [c0|e] eqn:E0; simpl;
      [|discriminate].
    destruct (message_codes re_search msgs bank) as [cs|e]; simpl;
      [|discriminate].
    intros H; injection H as <-; intros [<-|Hin].
    + exists i; auto.
    + destruct (IH cs eq_refl Hin) as [j [Hj Hc]]; exists j; auto.
Qed.

Lemma message_codes_of (msgs : list str) (bank : Bank) (codes : list str)
  (i : str) :
  message_codes re_search msgs bank = Ok codes -> In i msgs ->
  exists c, message_code re_search bank i = Ok c /\ In c codes.
Proof.
  revert codes; induction msgs as [|j msgs IH]; simpl; intros codes;
    [tauto|].
  destruct (message_code re_search bank j) as [c0|e] eqn:E0; simpl;
    [|discriminate].
  destruct (message_codes re_search msgs bank) as [cs|e]; simpl;
    [|discriminate].
  intros H; injection H as <-; intros [<-|Hin].
  - exists c0; simpl; auto.
  - destruct (IH cs eq_refl Hin) as [c [Hc Hcs]]; exists c; simpl; auto.
Qed.

Lemma classify_out (msgs : list str) (bank : Bank) (out : list str) :
  classify_errors_with_bank re_search msgs bank = Ok out ->
  exists codes,
    message_codes re_search msgs bank = Ok codes /\
    (msgs = [] -> out = [UNCLASSIFIED]) /\
    (msgs <> [] -> forall c, In c out <-> In c codes).
Proof.
  unfold classify_errors_with_bank.
  destruct (message_codes re_search msgs bank) as [codes|e] eqn:E; simpl;
    [|discriminate].
  intros H; injection H as <-; exists codes; split; [reflexivity|].
  split.
  - intros ->; simpl in E; injection E as <-; reflexivity.
  - intros Hne c.
    destruct (dedupe codes) as [|a l] eqn:Ed.
    + apply dedupe_nil in Ed; subst codes.
      destruct msgs as [|i msgs]; [congruence|].
      simpl in E.
      destruct (message_code re_search bank i); simpl in E;
        [|discriminate].
      destruct (message_codes re_search msgs bank); simpl in E;
        discriminate.
    + rewrite <- Ed; apply dedupe_In.
Qed.

Hypothesis re_safe : re_raises_only_re_error re_search.

Lemma search_patterns_match (pats : list str) (i pat : str) :
  In pat pats -> re_search pat i = Ok true ->
  search_patterns re_search pats i = Ok true.
Proof.
  induction pats as [|p pats IH]; simpl; [tauto|].
  intros Hin Hm.
  destruct (re_search p i) as [[|]|e] eqn:E; [reflexivity| |].
  - destruct Hin as [->|Hin]; [congruence|auto].
  - rewrite (re_safe _ _ _ E).
    destruct Hin as [->|Hin]; [congruence|auto].
Qed.

(** The entries are tried in the order of the bank. *)
Lemma search_bank_first (before after : Bank) (code : str)
  (entry : BankEntry) (pats : list str) (pat i : str) :
  code <> UNCLASSIFIED ->
  regex entry = Some pats -> In pat pats -> re_search pat i = Ok true ->
  (forall c e ps p,
      In (c, e) before -> c <> UNCLASSIFIED -> regex e = Some ps ->
      In p ps -> re_search p i <> Ok true) ->
  search_bank re_search (before ++ (code, entry) :: after) i =
  Ok (Some code).
Proof.
  intros Hc Hr Hp Hm.
  induction before as [|[c e] before IH]; simpl; intros Hno.
  - apply str_eqb_neq in Hc; rewrite Hc, Hr.
    rewrite (search_patterns_match pats i pat Hp Hm); reflexivity.
  - assert (IH' : search_bank re_search
                    (before ++ (code, entry) :: after) i = Ok (Some code))
      by (apply IH; intros c' e' ps p Hin; apply (Hno c' e' ps p); auto).
    destruct (str_eqb_spec c UNCLASSIFIED) as [->|Hne]; [exact IH'|].
    rewrite search_patterns_no_match; simpl; [exact IH'|exact re_safe|].
    destruct (regex e) as [ps|] eqn:Ee; simpl; [|tauto].
    intros p Hin; apply (Hno c e ps p); auto.
Qed.

Lemma search_bank_unmatched (bank : Bank) (i : str) :
  (forall code entry pats pat,
      In (code, entry) bank -> code <> UNCLASSIFIED ->
      regex entry = Some pats -> In pat pats ->
      re_search pat i <> Ok true) ->
  search_bank re_search bank i = Ok None.
Proof.
  induction bank as [|[c e] bank IH]; simpl; intros Hno; [reflexivity|].
  assert (IH' : search_bank re_search bank i = Ok None)
    by (apply IH; intros c' e' ps p Hin; apply (Hno c' e' ps p); auto).
  destruct (str_eqb_spec c UNCLASSIFIED) as [->|Hne]; [exact IH'|].
  rewrite search_patterns_no_match; simpl; [exact IH'|exact re_safe|].
  destruct (regex e) as [ps|] eqn:Ee; simpl; [|tauto].
  intros p Hin; apply (Hno c e ps p); auto.
Qed.
End ClassifierCodes.

(** X12. The classifier invents no code: every code it returns, other
    than ["UNCLASSIFIED"], is the key of an entry of the bank one of
    whose patterns matches one of the messages. *)
Theorem classify_codes_are_matched
  (re_search : str -> str -> result bool) (msgs : list str) (bank : Bank)
  (out : list str) (c : str) :
  classify_errors_with_bank re_search msgs bank = Ok out ->
  In c out -> c <> UNCLASSIFIED ->
  exists entry pats pat i,
    In (c, entry) bank /\ regex entry = Some pats /\ In pat pats /\
    In i msgs /\ re_search pat i = Ok true.
Proof.
  intros Hout Hc Hne.
  destruct (classify_out re_search msgs bank out Hout)
    as [codes [Hcodes [Hnil Hin]]].
  destruct msgs as [|i0 msgs].
  - rewrite (Hnil eq_refl) in Hc; destruct Hc as [<-|[]]; congruence.
  - apply Hin in Hc; [|discriminate].
    destruct (message_codes_In re_search _ bank codes c Hcodes Hc)
      as [i [Hi Hm]].
    unfold message_code in Hm.
    destruct (search_bank re_search bank i) as [[code|]|e] eqn:Es;
      simpl in Hm; try discriminate; injection Hm as <-; [|congruence].
    destruct (search_bank_Some re_search bank i code Es)
      as [_ [entry [pats [pat [H1 [H2 [H3 H4]]]]]]].
    exists entry, pats, pat, i; auto.
Qed.

Lemma classify_codes_are_matched_witness :
  exists entry pats pat i,
    In (lit "FLOAT_ON_NONE", entry) sample_bank /\
    regex entry = Some pats /\ In pat pats /\
    In i sample_messages /\ literal_search pat i = Ok true.
Proof.
  apply (classify_codes_are_matched literal_search sample_messages
           sample_bank
           [lit "LOOP_BAD_RANGE"; lit "FLOAT_ON_NONE"; lit "UNCLASSIFIED"]
           (lit "FLOAT_ON_NONE")).
  - vm_compute; reflexivity.
  - simpl; auto.
  - discriminate.
Defined.

(** X13. The order of the bank decides between entries: a message takes
    the code of the first entry, in the order of the bank and the key
    ["UNCLASSIFIED"] passed over, that has a pattern matching it,
    whatever the entries after it hold. *)
Theorem classify_first_entry_wins
  (re_search : str -> str -> result bool) (before after : Bank)
  (code : str) (entry : BankEntry) (pats : list str) (pat i : str) :
  re_raises_only_re_error re_search ->
  code <> UNCLASSIFIED ->
  regex entry = Some pats -> In pat pats -> re_search pat i = Ok true ->
  (forall c e ps p,
      In (c, e) before -> c <> UNCLASSIFIED -> regex e = Some ps ->
      In p ps -> re_search p i <> Ok true) ->
  message_code re_search (before ++ (code, entry) :: after) i = Ok code /\
  classify_errors_with_bank re_search [i] (before ++ (code, entry) :: after)
    = Ok [code].
Proof.
  intros Hsafe Hc Hr Hp Hm Hno.
  assert (H : message_code re_search (before ++ (code, entry) :: after) i
              = Ok code).
  { unfold message_code.
    rewrite (search_bank_first re_search Hsafe before after code entry pats
               pat i Hc Hr Hp Hm Hno); reflexivity. }
  split; [exact H|].
  unfold classify_errors_with_bank; simpl; rewrite H; simpl.
  unfold dedupe; simpl; reflexivity.
Qed.

Lemma classify_first_entry_wins_witness :
  message_code literal_search
    ([ (lit "FLOAT_ON_NONE",
         {| category := Some (lit "Type");
            regex := Some [lit "("; lit "NoneType"] |}) ] ++
     (lit "LOOP_BAD_RANGE",
       {| category := Some (lit "Loops"); regex := Some [lit "range"] |}) ::
     [ (lit "ANY", {| category := None; regex := Some [lit "r"] |}) ])
    (lit "off by one in range()") = Ok (lit "LOOP_BAD_RANGE").
Proof.
  apply (classify_first_entry_wins literal_search
           [ (lit "FLOAT_ON_NONE",
               {| category := Some (lit "Type");
                  regex := Some [lit "("; lit "NoneType"] |}) ]
           [ (lit "ANY", {| category := None; regex := Some [lit "r"] |}) ]
           (lit "LOOP_BAD_RANGE")
           {| category := Some (lit "Loops"); regex := Some [lit "range"] |}
           [lit "range"] (lit "range") (lit "off by one in range()")).
  - exact literal_search_safe.
  - discriminate.
  - reflexivity.
  - simpl; auto.
  - reflexivity.
  - intros c e ps p [E|[]] _ Hr Hin.
    injection E as <- <-; simpl in Hr; injection Hr as <-.
    destruct Hin as [<-|[<-|[]]]; vm_compute; discriminate.
Defined.

(** X14. ["UNCLASSIFIED"] is among the codes returned exactly when there
    is no message at all or some message is matched by no pattern of the
    bank; the patterns of an entry stored under the key
    ["UNCLASSIFIED"] itself are never tried. *)
Theorem classify_unclassified_iff
  (re_search : str -> str -> result bool) (msgs : list str) (bank : Bank)
  (out : list str) :
  re_raises_only_re_error re_search ->
  classify_errors_with_bank re_search msgs bank = Ok out ->
  (In UNCLASSIFIED out <->
   msgs = [] \/
   exists i,
     In i msgs /\
     forall code entry pats pat,
       In (code, entry) bank -> code <> UNCLASSIFIED ->
       regex entry = Some pats -> In pat pats ->
       re_search pat i <> Ok true).
Proof.
  intros Hsafe Hout.
  destruct (classify_out re_search msgs bank out Hout)
    as [codes [Hcodes [Hnil Hin]]].
  destruct msgs as [|i0 msgs].
  - rewrite (Hnil eq_refl); simpl; tauto.
  - rewrite (Hin ltac:(discriminate)); split.
    + intros Hc; right.
      destruct (message_codes_In re_search _ bank codes _ Hcodes Hc)
        as [i [Hi Hm]].
      exists i; split; [exact Hi|].
      unfold message_code in Hm.
      destruct (search_bank re_search bank i) as [[code|]|e] eqn:Es;
        simpl in Hm; try discriminate.
      * injection Hm as Hm.
        destruct (search_bank_Some re_search bank i code Es) as [Hne _].
        congruence.
      * exact (search_bank_None re_search bank i Es).
    + intros [H|[i [Hi Hno]]]; [discriminate|].
      destruct (message_codes_of re_search _ bank codes i Hcodes Hi)
        as [c [Hc Hcs]].
      unfold message_code in Hc.
      rewrite (search_bank_unmatched re_search Hsafe bank i Hno) in Hc.
      simpl in Hc; injection Hc as <-; exact Hcs.
Qed.

Lemma classify_unclassified_iff_witness :
  In UNCLASSIFIED
    [lit "LOOP_BAD_RANGE"; lit "FLOAT_ON_NONE"; lit "UNCLASSIFIED"] <->
  sample_messages = [] \/
  exists i,
    In i sample_messages /\
    forall code entry pats pat,
      In (code, entry) sample_bank -> code <> UNCLASSIFIED ->
      regex entry = Some pats -> In pat pats ->
      literal_search pat i <> Ok true.
Proof.
  apply (classify_unclassified_iff literal_search sample_messages sample_bank
           [lit "LOOP_BAD_RANGE"; lit "FLOAT_ON_NONE"; lit "UNCLASSIFIED"]).
  - exact literal_search_safe.
  - vm_compute; reflexivity.
Defined.


(** ** A whole run of the loop of [generate_feedback] *)

Lemma subsequence_nil_l {A} (b : list A) : subsequence [] b.
Proof. induction b; constructor; auto. Qed.

Lemma subsequence_In {A} (a b : list A) (x : A) :
  subsequence a b -> In x a -> In x b.
Proof.
  induction 1 as [|y a b _ IH|y a b _ IH]; simpl; [tauto|auto|].
  intros [E|H]; auto.
Qed.

Lemma subsequence_NoDup {A} (a b : list A) :
  subsequence a b -> NoDup b -> NoDup a.
Proof.
  induction 1 as [|y a b _ IH|y a b Hs IH]; intros Hnd.
  - constructor.
  - inversion Hnd; auto.
  - inversion Hnd as [|? ? Hn Hb]; subst; constructor; [|auto].
    intros Hin; apply Hn; exact (subsequence_In _ _ _ Hs Hin).
Qed.

Lemma is_empty_false {A} (l : list A) : is_empty l = false -> l <> [].
Proof. destruct l; [discriminate|discriminate]. Qed.

(** The message read from an answer has no white space around it. *)
Lemma parse_feedback_stripped (text m : str) :
  parse_feedback text = Ok m -> strip m = m.
Proof.
  unfold parse_feedback.
  destruct (json_loads text) as [[| | | | | |members]|e]; simpl;
    try discriminate.
  destruct (truthy _); [|intros H; injection H as <-; reflexivity].
  destruct (item0 _) as [first|e]; simpl; [|discriminate].
  unfold message_of.
  destruct first as [| | | | | |ms]; try discriminate.
  destruct (sget (lit "message") ms) as [[| | | |t| |]|];
    try discriminate;
    intros H; injection H as <-; apply strip_idempotent.
Qed.

Lemma history_size_app (a b : Totals) :
  history_size (a ++ b) = (history_size a + history_size b)%Z.
Proof.
  unfold history_size; induction a as [|kv a IH]; simpl; [reflexivity|].
  rewrite IH; lia.
Qed.

Lemma history_size_sset_present (totals : Totals) (name : str)
  (s v : StudentRecord) :
  sget name totals = Some s ->
  history_size (sset name v totals) =
  (history_size totals - len (history s) + len (history v))%Z.
Proof.
  unfold sget, sset, history_size.
  induction totals as [|[k s0] totals IH]; simpl; [discriminate|].
  destruct (str_eqb name k); simpl.
  - intros H; injection H as <-; lia.
  - intros H; rewrite (IH H); lia.
Qed.

Lemma history_size_record (totals : Totals) (name sid : str)
  (codes : list str) (fb : option str) :
  history_size (record_student_submission totals name sid codes fb) =
  (history_size totals + 1)%Z.
Proof.
  unfold record_student_submission.
  destruct (sget name totals) as [s|] eqn:E.
  - rewrite E, (history_size_sset_present totals name s _ E).
    cbn [history]; rewrite len_app; unfold len; simpl; lia.
  - rewrite sget_sset_same.
    rewrite (history_size_sset_present _ name (new_student name))
      by apply sget_sset_same.
    rewrite (sset_absent _ name (new_student name) totals E).
    rewrite history_size_app; unfold history_size, len; simpl; lia.
Qed.

Section LoopFacts.
Variable re_search : str -> str -> result bool.
Variable error_bank : Bank.
Variable name_map : NameMap.

Local Abbreviation process :=
  (process_submission re_search error_bank name_map).
Local Abbreviation loop :=
  (generate_feedback_loop re_search error_bank name_map).

Lemma process_consistent (st : LoopState) (sub : Submission) :
  store_consistent (student_totals st) ->
  store_consistent (student_totals (state_of (process st sub))).
Proof.
  intros H; unfold process_submission.
  destruct (submission_codes re_search error_bank sub) as [codes|e];
    [|exact H].
  destruct (parse_feedback (sub_response sub)) as [m|e]; simpl.
  - apply record_preserves_consistency; exact H.
  - destruct (msg st) as [m|]; [|exact H].
    destruct (is_empty m); exact H.
Qed.

(** What one submission adds to the feedback output: nothing, or one
    record with the submission's id and a message that is not empty
    and has no white space around it. *)
Lemma process_results (st : LoopState) (sub : Submission) :
  (forall m, msg st = Some m -> strip m = m) ->
  (forall m, msg (state_of (process st sub)) = Some m -> strip m = m) /\
  (results_out (state_of (process st sub)) = results_out st \/
   exists r,
     results_out (state_of (process st sub)) = results_out st ++ [r] /\
     fr_submission_id r = sub_id sub /\
     fr_feedback r <> [] /\ strip (fr_feedback r) = fr_feedback r).
Proof.
  intros Hmsg; unfold process_submission.
  destruct (submission_codes re_search error_bank sub) as [codes|e];
    [|simpl; auto].
  destruct (parse_feedback (sub_response sub)) as [m|e] eqn:Ep; simpl.
  - pose proof (parse_feedback_stripped _ _ Ep) as Hs.
    split; [intros m' H; injection H as <-; exact Hs|].
    destruct (is_empty m) eqn:Em; [left; reflexivity|].
    right; eexists; split; [reflexivity|]; simpl.
    split; [reflexivity|]; split; [apply is_empty_false, Em|exact Hs].
  - destruct (msg st) as [m|] eqn:Em; [|simpl; rewrite Em; auto].
    destruct (is_empty m) eqn:Ee; simpl; rewrite ?Em.
    + split; [exact Hmsg|left; reflexivity].
    + split; [exact Hmsg|].
      right; eexists; split; [reflexivity|]; simpl.
      split; [reflexivity|]; split; [apply is_empty_false, Ee|auto].
Qed.

Lemma loop_results (subs : list Submission) (st : LoopState) :
  (forall m, msg st = Some m -> strip m = m) ->
  exists added,
    results_out (state_of (loop st subs)) = results_out st ++ added /\
    Forall (fun r => fr_feedback r <> [] /\
                     strip (fr_feedback r) = fr_feedback r) added /\
    subsequence (map fr_submission_id added) (map sub_id subs).
Proof.
  revert st; induction subs as [|sub subs IH]; intros st Hmsg.
  - exists []; simpl; rewrite app_nil_r; repeat constructor.
  - simpl.
    destruct (process_results st sub Hmsg) as [Hmsg1 Hres].
    destruct (process st sub) as [st1|e st1] eqn:Ep; simpl in *.
    + destruct (IH st1 Hmsg1) as [added [Hout [Hall Hsub]]].
      destruct Hres as [E|[r [E [Hid [Hne Hs]]]]].
      * exists added; rewrite Hout, E.
        split; [reflexivity|]; split; [exact Hall|].
        constructor; exact Hsub.
      * exists (r :: added); rewrite Hout, E, <- app_assoc.
        split; [reflexivity|]; split; [constructor; auto|].
        simpl; rewrite Hid; constructor; exact Hsub.
    + destruct Hres as [E|[r [E [Hid [Hne Hs]]]]].
      * exists []; rewrite E, app_nil_r.
        split; [reflexivity|]; split; [constructor|].
        apply subsequence_nil_l.
      * exists [r]; rewrite E.
        split; [reflexivity|]; split; [repeat constructor; auto|].
        simpl; rewrite Hid; constructor; apply subsequence_nil_l.
Qed.

Hypothesis re_safe : re_raises_only_re_error re_search.

Lemma submission_codes_total (sub : Submission) :
  exists codes, submission_codes re_search error_bank sub = Ok codes.
Proof.
  unfold submission_codes, classify_errors_with_bank.
  destruct (message_codes_total re_search re_safe
              (map (fun o => condense (Some o) MAX_CHARS_PER_OUTPUT)
                 (slice_to (sub_outputs sub) MAX_CASES_PER_SUB))
              error_bank) as [codes [-> _]].
  simpl; eauto.
Qed.

(** Once a message has been assigned the loop goes on to the end. *)
Lemma loop_continues (subs : list Submission) (st : LoopState) :
  msg st <> None ->
  exists st', loop st subs = Continue st' /\ msg st' <> None.
Proof.
  revert st; induction subs as [|sub subs IH]; intros st Hm; simpl;
    [eauto|].
  unfold process_submission.
  destruct (submission_codes_total sub) as [codes ->].
  destruct (parse_feedback (sub_response sub)) as [m|e].
  - apply IH; simpl; discriminate.
  - destruct (msg st) as [m|] eqn:Em; [|congruence].
    destruct (is_empty m); apply IH; simpl; congruence.
Qed.

Lemma loop_history_size (subs : list Submission) (st st' : LoopState) :
  loop st subs = Continue st' ->
  history_size (student_totals st') =
  (history_size (student_totals st) + len (filter usable subs))%Z.
Proof.
  revert st; induction subs as [|sub subs IH]; intros st; simpl.
  - intros H; injection H as <-; unfold len; simpl; lia.
  - unfold process_submission.
    destruct (submission_codes_total sub) as [codes ->].
    unfold usable at 1.
    destruct (parse_feedback (sub_response sub)) as [m|e]; cbv iota.
    + intros H; rewrite (IH _ H); cbn [student_totals].
      rewrite history_size_record; unfold len; cbn [length]; lia.
    + destruct (msg st) as [m|] eqn:Em; [|discriminate].
      destruct (is_empty m); intros H; rewrite (IH _ H); reflexivity.
Qed.
End LoopFacts.

(** X15. Whatever the answers are, and whether the loop runs to its end
    or is left by an exception, the store of the loop keeps
    [feedback_count == len(history)] for every student. *)
Theorem loop_keeps_store_consistent
  (re_search : str -> str -> result bool) (error_bank : Bank)
  (name_map : NameMap) (st : LoopState) (subs : list Submission) :
  store_consistent (student_totals st) ->
  store_consistent
    (student_totals
       (state_of (generate_feedback_loop re_search error_bank name_map
                    st subs))).
Proof.
  revert st; induction subs as [|sub subs IH]; intros st H; [exact H|].
  simpl.
  pose proof (process_consistent re_search error_bank name_map st sub H)
    as Hp.
  destruct (process_submission re_search error_bank name_map st sub)
    as [st1|e st1]; [apply IH|]; exact Hp.
Qed.

Lemma loop_keeps_store_consistent_witness :
  store_consistent
    (student_totals
       (state_of (generate_feedback_loop literal_search sample_bank
                    sample_name_map (initial_state sample_totals)
                    [good_submission; bad_submission]))).
Proof.
  apply (loop_keeps_store_consistent literal_search sample_bank
           sample_name_map (initial_state sample_totals)
           [good_submission; bad_submission]).
  exact sample_totals_consistent.
Defined.

(** X16. The feedback output of a run holds at most one record for a
    submission, in the order of the submissions: the ids of the records
    are the ids of the submissions with some left out, hence distinct
    when the submissions are; and the feedback of a record is never
    empty and has no white space around it. *)
Theorem loop_feedback_records
  (re_search : str -> str -> result bool) (error_bank : Bank)
  (name_map : NameMap) (totals : Totals) (subs : list Submission) :
  (forall r,
      In r (results_out
              (state_of (generate_feedback_loop re_search error_bank name_map
                           (initial_state totals) subs))) ->
      fr_feedback r <> [] /\ strip (fr_feedback r) = fr_feedback r) /\
  subsequence
    (map fr_submission_id
       (results_out
          (state_of (generate_feedback_loop re_search error_bank name_map
                       (initial_state totals) subs))))
    (map sub_id subs) /\
  (NoDup (map sub_id subs) ->
   NoDup
     (map fr_submission_id
        (results_out
           (state_of (generate_feedback_loop re_search error_bank name_map
                        (initial_state totals) subs))))).
Proof.
  destruct (loop_results re_search error_bank name_map subs
              (initial_state totals)) as [added [Hout [Hall Hsub]]];
    [simpl; discriminate|].
  simpl in Hout; rewrite Hout.
  split; [|split].
  - intros r Hr; rewrite Forall_forall in Hall; exact (Hall r Hr).
  - exact Hsub.
  - apply subsequence_NoDup; exact Hsub.
Qed.

(** X17. A run is left by an exception at its first submission or not at
    all. Provided [re.search] raises nothing but [re.error]: when the
    answer for the first submission can be read, the loop runs to the
    end of the submissions, whatever the later answers are; when it
    cannot, [UnboundLocalError] leaves [generate_feedback] there, with
    nothing recorded and nothing added to the feedback output. *)
Theorem loop_aborts_only_at_first_submission
  (re_search : str -> str -> result bool) (error_bank : Bank)
  (name_map : NameMap) (totals : Totals) (sub : Submission)
  (rest : list Submission) :
  re_raises_only_re_error re_search ->
  (usable sub = true ->
   exists st',
     generate_feedback_loop re_search error_bank name_map
       (initial_state totals) (sub :: rest) = Continue st') /\
  (usable sub = false ->
   generate_feedback_loop re_search error_bank name_map
     (initial_state totals) (sub :: rest) =
   Abort UnboundLocalError (initial_state totals)).
Proof.
  intros Hsafe; unfold usable; simpl; unfold process_submission.
  destruct (submission_codes_total re_search error_bank Hsafe sub)
    as [codes ->].
  destruct (parse_feedback (sub_response sub)) as [m|e]; simpl.
  - split; [intros _|discriminate].
    match goal with
    | |- exists st', generate_feedback_loop _ _ _ ?st1 _ = _ =>
        destruct (loop_continues re_search error_bank name_map Hsafe rest st1)
          as [st' [H _]]; [simpl; discriminate|eauto]
    end.
  - split; [discriminate|reflexivity].
Qed.

Lemma loop_aborts_only_at_first_submission_witness :
  (exists st',
      generate_feedback_loop literal_search sample_bank sample_name_map
        (initial_state []) [good_submission; bad_submission] = Continue st') /\
  generate_feedback_loop literal_search sample_bank sample_name_map
    (initial_state []) [bad_submission; good_submission] =
  Abort UnboundLocalError (initial_state []).
Proof.
  split.
  - apply (loop_aborts_only_at_first_submission literal_search sample_bank
             sample_name_map [] good_submission [bad_submission]
             literal_search_safe).
    vm_compute; reflexivity.
  - apply (loop_aborts_only_at_first_submission literal_search sample_bank
             sample_name_map [] bad_submission [good_submission]
             literal_search_safe).
    vm_compute; reflexivity.
Defined.

(** X18. In a run that reaches the end of the submissions every
    submission whose answer can be read is recorded once and no other
    submission is recorded: the store gains as many history entries as
    there are such submissions. *)
Theorem loop_records_usable_once
  (re_search : str -> str -> result bool) (error_bank : Bank)
  (name_map : NameMap) (st st' : LoopState) (subs : list Submission) :
  re_raises_only_re_error re_search ->
  generate_feedback_loop re_search error_bank name_map st subs
    = Continue st' ->
  history_size (student_totals st') =
  (history_size (student_totals st) + len (filter usable subs))%Z.
Proof.
  intros Hsafe; apply loop_history_size; exact Hsafe.
Qed.

Lemma loop_records_usable_once_witness :
  history_size
    (student_totals
       (state_of
          (generate_feedback_loop literal_search sample_bank sample_name_map
             (initial_state sample_totals)
             [good_submission; bad_submission; good_submission]))) =
  (history_size sample_totals + 2)%Z.
Proof.
  assert (H : generate_feedback_loop literal_search sample_bank
                sample_name_map (initial_state sample_totals)
                [good_submission; bad_submission; good_submission] =
              Continue
                (state_of
                   (generate_feedback_loop literal_search sample_bank
                      sample_name_map (initial_state sample_totals)
                      [good_submission; bad_submission; good_submission])))
    by (vm_compute; reflexivity).
  rewrite (loop_records_usable_once literal_search sample_bank
             sample_name_map (initial_state sample_totals) _
             [good_submission; bad_submission; good_submission]
             literal_search_safe H).
  vm_compute; reflexivity.
Defined.


(** ** Saving the store: what is left behind *)

Lemma run_ops_dirs (ops : list fs_op) (fs : FS) (q : Path) :
  Forall (fun op => match op with
                    | MkdirParents _ => False
                    | _ => True
                    end) ops ->
  dirs (run_ops ops fs) q = dirs fs q.
Proof.
  unfold run_ops; revert fs; induction ops as [|op ops IH]; intros fs H;
    [reflexivity|].
  inversion H as [|? ? Hop Hops]; subst; simpl.
  rewrite (IH _ Hops).
  destruct op as [d|p|p chunk|src dst]; simpl; try reflexivity; [tauto|].
  destruct (path_eqb src dst); reflexivity.
Qed.

Lemma is_prefix_path_refl (d : Path) : is_prefix_path d d = true.
Proof. unfold is_prefix_path; rewrite firstn_all; apply path_eqb_refl. Qed.

Lemma save_frame (fs : FS) (path : Path) (temp_name : str)
  (data : sdict json) :
  temp_path path temp_name <> path ->
  files (save_student_errors path temp_name data fs)
    (temp_path path temp_name) = None /\
  (forall q,
      q <> path -> q <> temp_path path temp_name ->
      files (save_student_errors path temp_name data fs) q = files fs q) /\
  (forall q,
      dirs (save_student_errors path temp_name data fs) q =
      dirs fs q || is_prefix_path q (parent path)).
Proof.
  intros Hne.
  unfold save_student_errors, save_ops.
  set (text := json_dumps (JObject data)).
  set (tmp := temp_path path temp_name) in *.
  rewrite (app_assoc [_; _]), run_ops_app.
  set (fs1 := run_ops _ fs).
  assert (Hother : forall q, q <> tmp -> files fs1 q = files fs q).
  { intros q Hq; subst fs1.
    apply run_ops_other with tmp; [|exact Hq].
    apply save_ops_before_replace. }
  assert (Hdirs : forall q,
             dirs fs1 q = dirs fs q || is_prefix_path q (parent path)).
  { intros q; subst fs1.
    change ([MkdirParents (parent path); CreateFile tmp] ++
            map (fun c => AppendText tmp [c]) text)
      with ([MkdirParents (parent path)] ++
            CreateFile tmp :: map (fun c => AppendText tmp [c]) text).
    rewrite run_ops_app, run_ops_dirs; [reflexivity|].
    constructor; [exact I|].
    apply Forall_forall; intros op Hop.
    apply in_map_iff in Hop as [c [<- _]]; exact I. }
  unfold run_ops; simpl.
  apply path_eqb_neq in Hne as Hb; rewrite Hb; simpl.
  split; [|split].
  - rewrite Hb, path_eqb_refl; reflexivity.
  - intros q Hq Hq'.
    rewrite (path_eqb_neq _ _ Hq), (path_eqb_neq _ _ Hq').
    apply Hother; exact Hq'.
  - exact Hdirs.
Qed.

(** X19. A completed [save_student_errors] leaves nothing behind but
    the target: the temporary file is gone, every other file holds what
    it held, the directory of the target exists, and no directory has
    disappeared. *)
Theorem save_changes_only_target (fs : FS) (path : Path) (temp_name : str)
  (data : sdict json) :
  temp_path path temp_name <> path ->
  files (save_student_errors path temp_name data fs)
    (temp_path path temp_name) = None /\
  (forall q,
      q <> path -> q <> temp_path path temp_name ->
      files (save_student_errors path temp_name data fs) q = files fs q) /\
  dirs (save_student_errors path temp_name data fs) (parent path) = true /\
  (forall q,
      dirs fs q = true ->
      dirs (save_student_errors path temp_name data fs) q = true).
Proof.
  intros Hne.
  destruct (save_frame fs path temp_name data Hne) as [Htmp [Hother Hdirs]].
  split; [exact Htmp|]. split; [exact Hother|]. split.
  - rewrite Hdirs, is_prefix_path_refl; apply orb_true_r.
  - intros q Hq; rewrite Hdirs, Hq; reflexivity.
Qed.

Lemma save_changes_only_target_witness :
  files (save_student_errors store_path (lit "tmpk3x9q_7a")
           (json_of_totals sample_totals) (fs_with feedback_path (lit "[]")))
    feedback_path = Some (lit "[]") /\
  files (save_student_errors store_path (lit "tmpk3x9q_7a")
           (json_of_totals sample_totals) (fs_with feedback_path (lit "[]")))
    [lit "tmpk3x9q_7a"] = None.
Proof.
  destruct (save_changes_only_target (fs_with feedback_path (lit "[]"))
              store_path (lit "tmpk3x9q_7a") (json_of_totals sample_totals))
    as [Htmp [Hother _]]; [discriminate|].
  split; [|exact Htmp].
  rewrite Hother; [reflexivity|discriminate|discriminate].
Defined.

(** ** The code excerpt: its length *)

Lemma excerpt_pieces_no_room (py_files : list DirEntry) (limit : Z) :
  (limit <= 0)%Z ->
  join NEWLINE (excerpt_pieces py_files [] 0 limit) = [].
Proof.
  intros Hl; destruct py_files as [|py rest]; [reflexivity|].
  cbn [excerpt_pieces].
  set (chunk := (lit "# FILE: " ++ entry_name py ++ NEWLINE) ++
                match entry_text py with Some t => t | None => [] end).
  assert (Hc : (0 < len chunk)%Z)
    by (subst chunk; unfold len; rewrite !length_app; simpl; lia).
  destruct (Z.gtb_spec (0 + len chunk) limit) as [_|Hle]; [|lia].
  replace (Z.max 0 (limit - 0)) with 0%Z by lia.
  change (slice_to chunk 0) with (@nil N).
  change (0 + len (@nil N))%Z with 0%Z.
  destruct (Z.geb_spec 0 limit) as [_|Hlt]; [reflexivity|lia].
Qed.

(** X20. The excerpt of a submission's code has no white space at
    either end; it is empty when the limit is zero or negative; for a
    limit that is not negative its length is at most the limit plus one
    character for every Python file after the first, so that a
    directory with a single Python file never goes over the limit. *)
Theorem read_student_code_excerpt_lengths (sub_dir : SubDir) (limit : Z) :
  strip (read_student_code_excerpt sub_dir limit) =
    read_student_code_excerpt sub_dir limit /\
  ((limit <= 0)%Z -> read_student_code_excerpt sub_dir limit = []) /\
  ((0 <= limit)%Z ->
   (len (read_student_code_excerpt sub_dir limit) <=
    limit + match sub_dir with
            | ExistingPath children =>
                Z.of_nat (pred (length (py_files_of children)))
            | _ => 0
            end)%Z) /\
  (forall children,
      sub_dir = ExistingPath children ->
      length (py_files_of children) <= 1 -> (0 <= limit)%Z ->
      (len (read_student_code_excerpt sub_dir limit) <= limit)%Z).
Proof.
  split; [|split; [|split]].
  - destruct sub_dir; simpl; try reflexivity; apply strip_idempotent.
  - intros Hl; destruct sub_dir as [| |children]; simpl; try reflexivity.
    rewrite (excerpt_pieces_no_room _ _ Hl); reflexivity.
  - apply read_student_code_excerpt_bound.
  - intros children -> Hn Hl.
    pose proof (read_student_code_excerpt_bound (ExistingPath children)
                  limit Hl) as Hb.
    cbv beta iota in Hb.
    destruct (length (py_files_of children)) as [|[|n]];
      cbn [pred Z.of_nat] in Hb; lia.
Qed.


(** ** The feedback file: merging the records of a run *)

Lemma find_map {A B} (f : A -> B) (p : B -> bool) (l : list A) :
  find p (map f l) = option_map f (find (fun x => p (f x)) l).
Proof.
  induction l as [|x l IH]; simpl; [reflexivity|].
  destruct (p (f x)); [reflexivity|exact IH].
Qed.

Lemma find_app {A} (p : A -> bool) (a b : list A) :
  find p (a ++ b) = match find p a with
                    | Some x => Some x
                    | None => find p b
                    end.
Proof.
  induction a as [|x a IH]; simpl; [reflexivity|].
  destruct (p x); [reflexivity|exact IH].
Qed.

Lemma find_ext {A} (p q : A -> bool) (l : list A) :
  (forall x, p x = q x) -> find p l = find q l.
Proof.
  intros H; induction l as [|x l IH]; simpl; [reflexivity|].
  rewrite H, IH; reflexivity.
Qed.

Lemma find_none_iff {A} (p : A -> bool) (l : list A) :
  find p l = None <-> forall x, In x l -> p x = false.
Proof.
  induction l as [|y l IH]; simpl; [tauto|].
  destruct (p y) eqn:E.
  - split; [discriminate|]; intros H; rewrite (H y) in E; auto.
    discriminate.
  - rewrite IH; split; [intros H x [<-|Hx]; auto|auto].
Qed.

Lemma last_row_snoc (sid : str) (rows : list json) (row : json) :
  last_row sid (rows ++ [row]) =
  if has_id sid row then Some row else last_row sid rows.
Proof. unfold last_row; rewrite rev_unit; reflexivity. Qed.

Lemma last_row_app (sid : str) (a b : list json) :
  last_row sid (a ++ b) = match last_row sid b with
                          | Some row => Some row
                          | None => last_row sid a
                          end.
Proof. unfold last_row; rewrite rev_app_distr; apply find_app. Qed.

Lemma has_id_json_of_feedback (sid : str) (r : FeedbackRecord) :
  has_id sid (json_of_feedback r) = str_eqb sid (fr_submission_id r).
Proof. reflexivity. Qed.

Lemma mergeable_json_of_feedback (r : FeedbackRecord) :
  mergeable (json_of_feedback r) = true.
Proof. reflexivity. Qed.

(** Among records with distinct ids the one with a given id is found by
    its id. *)
Lemma find_record (results : list FeedbackRecord) (r : FeedbackRecord) :
  NoDup (map fr_submission_id results) -> In r results ->
  find (fun x => str_eqb (fr_submission_id r) (fr_submission_id x)) results
  = Some r.
Proof.
  induction results as [|y results IH]; simpl; [tauto|].
  intros Hnd Hin; inversion Hnd as [|? ? Hn Hnd']; subst.
  destruct Hin as [->|Hin]; [rewrite str_eqb_refl; reflexivity|].
  destruct (str_eqb_spec (fr_submission_id r) (fr_submission_id y))
    as [E|_]; [|auto].
  exfalso; apply Hn; rewrite <- E; apply in_map, Hin.
Qed.

Lemma last_row_records (results : list FeedbackRecord) (sid : str) :
  ~ In sid (map fr_submission_id results) ->
  last_row sid (map json_of_feedback results) = None.
Proof.
  intros Hn; unfold last_row; apply find_none_iff; intros row Hrow.
  apply in_rev, in_map_iff in Hrow as [r [<- Hr]].
  rewrite has_id_json_of_feedback; apply str_eqb_neq.
  intros ->; apply Hn, in_map, Hr.
Qed.

Lemma last_row_record (results : list FeedbackRecord) (r : FeedbackRecord) :
  NoDup (map fr_submission_id results) -> In r results ->
  last_row (fr_submission_id r) (map json_of_feedback results) =
  Some (json_of_feedback r).
Proof.
  intros Hnd Hin; unfold last_row.
  rewrite <- map_rev, find_map.
  erewrite find_ext;
    [|intros x; apply has_id_json_of_feedback].
  rewrite (find_record (rev results) r); [reflexivity| |].
  - rewrite map_rev; apply NoDup_rev, Hnd.
  - apply in_rev; rewrite rev_involutive; exact Hin.
Qed.

Section MergeFacts.
Variable num_eqb : json -> json -> bool.

Local Abbreviation keqb := (key_eqb num_eqb).

(** With a string on one side, [==] on keys is equality. *)
Lemma key_eqb_string (sid : str) (k : json) :
  keqb (JString sid) k = true <-> k = JString sid.
Proof.
  destruct k; simpl; try (split; [discriminate|congruence]).
  rewrite str_eqb_eq; split; congruence.
Qed.

Lemma key_eqb_string_r (sid : str) (k : json) :
  keqb k (JString sid) = true <-> k = JString sid.
Proof.
  destruct k; simpl; try (split; [discriminate|congruence]).
  rewrite str_eqb_eq; split; congruence.
Qed.

Lemma key_eqb_same_string (sid : str) (k k0 : json) :
  keqb k k0 = true -> keqb (JString sid) k0 = keqb (JString sid) k.
Proof.
  intros H; apply eq_true_iff_eq; rewrite !key_eqb_string.
  split; intros ->.
  - apply key_eqb_string_r in H; exact H.
  - apply key_eqb_string in H; exact H.
Qed.

Lemma has_id_key (sid : str) (row k : json) :
  row_key row = Ok k -> has_id sid row = keqb (JString sid) k.
Proof.
  intros H; unfold has_id; rewrite H; destruct k; reflexivity.
Qed.

Lemma dict_get_set_string (sid : str) (k v : json) (d : dict json json) :
  dict_get keqb (JString sid) (dict_set keqb k v d) =
  if keqb (JString sid) k then Some v else dict_get keqb (JString sid) d.
Proof.
  induction d as [|[k0 v0] d IH]; cbn [dict_get dict_set]; [reflexivity|].
  destruct (keqb k k0) eqn:E; cbn [dict_get].
  - rewrite (key_eqb_same_string sid k k0 E).
    destruct (keqb (JString sid) k); reflexivity.
  - rewrite IH.
    destruct (keqb (JString sid) k0) eqn:E0; [|reflexivity].
    destruct (keqb (JString sid) k) eqn:E1; [|reflexivity].
    apply key_eqb_string in E0, E1; subst.
    simpl in E; rewrite str_eqb_refl in E; discriminate.
Qed.

Local Abbreviation keyed := (keyed_by_id num_eqb).
Local Abbreviation string_keys_once := (string_keys_once num_eqb).

Lemma keyed_dict_set (k row : json) (m : dict json json) :
  row_key row = Ok k -> keyed m -> keyed (dict_set keqb k row m).
Proof.
  intros Hk; unfold keyed_by_id.
  induction m as [|[k0 v0] m IH]; cbn [dict_set]; intros H.
  - constructor; [|constructor].
    intros sid; cbn [fst snd]; symmetry; apply has_id_key, Hk.
  - inversion H as [|? ? H0 Hm]; subst.
    destruct (keqb k k0) eqn:E.
    + constructor; [|exact Hm].
      intros sid; cbn [fst snd].
      rewrite (key_eqb_same_string sid k k0 E).
      symmetry; apply has_id_key, Hk.
    + constructor; [exact H0|exact (IH Hm)].
Qed.

Lemma dict_set_keys (k v : json) (m : dict json json) :
  dict_keys (dict_set keqb k v m) = dict_keys m \/
  (dict_keys (dict_set keqb k v m) = dict_keys m ++ [k] /\
   forall k0, In k0 (dict_keys m) -> keqb k k0 = false).
Proof.
  unfold dict_keys; induction m as [|[k0 v0] m IH]; simpl.
  - right; split; [reflexivity|tauto].
  - destruct (keqb k k0) eqn:E; simpl; [left; reflexivity|].
    destruct IH as [->|[-> Hno]]; [left; reflexivity|].
    right; split; [reflexivity|].
    intros k1 [<-|H1]; auto.
Qed.

Lemma string_keys_once_dict_set (k v : json) (m : dict json json) :
  string_keys_once m -> string_keys_once (dict_set keqb k v m).
Proof.
  intros H sid; specialize (H sid).
  destruct (dict_set_keys k v m) as [->|[-> Hno]]; [exact H|].
  rewrite filter_app, length_app; cbn [filter].
  destruct (keqb (JString sid) k) eqn:E; cbn [length]; [|lia].
  apply key_eqb_string in E; subst k.
  rewrite filter_none; [cbn [length]; lia|].
  intros k0 Hk0.
  destruct (keqb (JString sid) k0) eqn:E0; [|reflexivity].
  apply key_eqb_string in E0; subst k0.
  rewrite <- (Hno _ Hk0); simpl; symmetry; apply str_eqb_refl.
Qed.

Lemma merge_row_Ok (m m1 : dict json json) (row : json) :
  merge_row num_eqb m row = Ok m1 ->
  mergeable row = true /\
  exists k, row_key row = Ok k /\ m1 = dict_set keqb k row m.
Proof.
  unfold merge_row, mergeable.
  destruct (row_key row) as [k|e]; simpl; [|discriminate].
  destruct k; try discriminate;
    intros H; injection H as <-; split; eauto.
Qed.

Lemma merge_row_Raise (m : dict json json) (row : json) (e : exn) :
  merge_row num_eqb m row = Raise e ->
  mergeable row = false /\ (e = KeyError \/ e = TypeError).
Proof.
  unfold merge_row, mergeable, row_key.
  destruct row as [| | | | | |members]; simpl;
    try (intros H; injection H as <-; auto).
  destruct (sget (lit "submission_id") members) as [k|]; simpl;
    [|intros H; injection H as <-; auto].
  destruct k; try discriminate; intros H; injection H as <-; auto.
Qed.

Lemma merge_row_mergeable (m : dict json json) (row : json) :
  mergeable row = true -> exists m1, merge_row num_eqb m row = Ok m1.
Proof.
  unfold merge_row, mergeable.
  destruct (row_key row) as [k|e]; simpl; [|discriminate].
  destruct k; try discriminate; eauto.
Qed.

(** The state of [merged] after the rows [done] have been read and
    the rows [rows] are read next. *)
Lemma merge_rows_Ok (rows done : list json) (m m' : dict json json) :
  keyed m -> string_keys_once m ->
  (forall sid, dict_get keqb (JString sid) m = last_row sid done) ->
  merge_rows num_eqb m rows = Ok m' ->
  keyed m' /\ string_keys_once m' /\
  (forall sid,
      dict_get keqb (JString sid) m' = last_row sid (done ++ rows)) /\
  length m' <= length m + length rows.
Proof.
  revert done m; induction rows as [|row rows IH]; intros done m Hk Ho Hg;
    simpl.
  - intros H; injection H as <-; rewrite app_nil_r; auto with arith.
  - destruct (merge_row num_eqb m row) as [m1|e] eqn:E; simpl;
      [|discriminate].
    destruct (merge_row_Ok m m1 row E) as [_ [k [Hrk ->]]].
    intros H.
    destruct (IH (done ++ [row]) (dict_set keqb k row m)) with (4 := H)
      as [Hk' [Ho' [Hg' Hl']]].
    + apply keyed_dict_set; assumption.
    + apply string_keys_once_dict_set; exact Ho.
    + intros sid; rewrite dict_get_set_string, last_row_snoc, Hg.
      rewrite (has_id_key sid row k Hrk); reflexivity.
    + rewrite <- app_assoc in Hg'; simpl in Hg'.
      split; [exact Hk'|]; split; [exact Ho'|]; split; [exact Hg'|].
      assert (Hs : length (dict_set keqb k row m) <= S (length m)).
      { clear; induction m as [|[k0 v0] m IHm]; simpl; [lia|].
        destruct (keqb k k0); simpl; lia. }
      lia.
Qed.

Lemma merge_rows_Raise (rows : list json) (m : dict json json) (e : exn) :
  merge_rows num_eqb m rows = Raise e ->
  (e = KeyError \/ e = TypeError) /\
  exists row, In row rows /\ mergeable row = false.
Proof.
  revert m; induction rows as [|row rows IH]; intros m; simpl;
    [discriminate|].
  destruct (merge_row num_eqb m row) as [m1|e1] eqn:E; simpl.
  - intros H; destruct (IH m1 H) as [He [r [Hr Hm]]].
    split; [exact He|]; exists r; auto.
  - intros H; injection H as <-.
    destruct (merge_row_Raise m row e1 E) as [Hm He].
    split; [exact He|]; exists row; auto.
Qed.

Lemma merge_rows_mergeable (rows : list json) (m : dict json json) :
  forallb mergeable rows = true ->
  exists m', merge_rows num_eqb m rows = Ok m'.
Proof.
  revert m; induction rows as [|row rows IH]; intros m; simpl; [eauto|].
  intros H; apply andb_true_iff in H as [Hr Hrs].
  destruct (merge_row_mergeable m row Hr) as [m1 ->]; simpl.
  apply IH; exact Hrs.
Qed.

Lemma merge_rows_not_mergeable (rows : list json) (m : dict json json)
  (row : json) :
  In row rows -> mergeable row = false ->
  exists e, merge_rows num_eqb m rows = Raise e.
Proof.
  revert m; induction rows as [|r rows IH]; intros m; simpl; [tauto|].
  intros Hin Hm.
  destruct (merge_row num_eqb m r) as [m1|e1] eqn:E; simpl; [|eauto].
  destruct Hin as [->|Hin]; [|apply IH; assumption].
  destruct (merge_row_Ok m m1 row E) as [Hm' _]; congruence.
Qed.

Lemma first_row_values (m : dict json json) (sid : str) :
  keyed m ->
  first_row sid (dict_values m) = dict_get keqb (JString sid) m.
Proof.
  unfold first_row, dict_values, keyed_by_id.
  induction m as [|[k v] m IH]; cbn [map find dict_get snd]; intros H;
    [reflexivity|].
  inversion H as [|? ? H0 Hm]; subst; cbn [fst snd] in H0.
  rewrite <- H0; destruct (keqb (JString sid) k); [reflexivity|auto].
Qed.

Lemma count_values (m : dict json json) (sid : str) :
  keyed m ->
  length (filter (has_id sid) (dict_values m)) =
  length (filter (fun k => keqb (JString sid) k) (dict_keys m)).
Proof.
  unfold dict_values, dict_keys, keyed_by_id.
  induction m as [|[k v] m IH]; cbn [map filter fst snd]; intros H;
    [reflexivity|].
  inversion H as [|? ? H0 Hm]; subst; cbn [fst snd] in H0.
  rewrite <- H0; destruct (keqb (JString sid) k); cbn [length]; auto.
Qed.

(** What the two loops leave in [merged]. *)
Lemma merge_feedback_Ok (existing : list json)
  (results : list FeedbackRecord) (rows : list json) :
  merge_feedback num_eqb existing results = Ok rows ->
  (forall sid,
      first_row sid rows =
      last_row sid (existing ++ map json_of_feedback results)) /\
  (forall sid, length (filter (has_id sid) rows) <= 1) /\
  length rows <= length existing + length results.
Proof.
  unfold merge_feedback.
  destruct (merge_rows num_eqb [] existing) as [m1|e] eqn:E1; simpl;
    [|discriminate].
  destruct (merge_rows num_eqb m1 (map json_of_feedback results))
    as [m2|e] eqn:E2; simpl; [|discriminate].
  intros H; injection H as <-.
  destruct (merge_rows_Ok existing [] [] m1) with (4 := E1)
    as [Hk1 [Ho1 [Hg1 Hl1]]];
    [constructor | intros sid; simpl; lia | reflexivity |].
  destruct (merge_rows_Ok (map json_of_feedback results) existing m1 m2)
    with (4 := E2) as [Hk2 [Ho2 [Hg2 Hl2]]]; try assumption.
  split; [|split].
  - intros sid; rewrite (first_row_values m2 sid Hk2); apply Hg2.
  - intros sid; rewrite (count_values m2 sid Hk2); apply Ho2.
  - unfold dict_values; rewrite length_map.
    rewrite length_map in Hl2; cbn [length] in Hl1; lia.
Qed.
End MergeFacts.

(** X21. The merged rows hold, for every submission id, the last row
    that carries it, the rows of the file taken before the records of
    the run, and hold it once; a submission id that no row carries is
    not among them; there are no more rows than the file and the run
    brought together. *)
Theorem merge_feedback_latest_row (num_eqb : json -> json -> bool)
  (existing : list json) (results_out : list FeedbackRecord)
  (rows : list json) :
  merge_feedback num_eqb existing results_out = Ok rows ->
  (forall sid,
      first_row sid rows =
      last_row sid (existing ++ map json_of_feedback results_out)) /\
  (forall sid, length (filter (has_id sid) rows) <= 1) /\
  length rows <= length existing + length results_out.
Proof. apply merge_feedback_Ok. Qed.

Lemma merge_feedback_latest_row_witness :
  first_row (lit "submission_1") [json_of_feedback new_record; other_row] =
  last_row (lit "submission_1")
    ([stale_row; other_row] ++ map json_of_feedback [new_record]).
Proof.
  apply (merge_feedback_latest_row literal_num_eqb [stale_row; other_row]
           [new_record] [json_of_feedback new_record; other_row]).
  vm_compute; reflexivity.
Defined.

(** X22. The feedback of the run replaces what the file held for the
    same submission and leaves the other rows alone: a record of a run
    whose records have distinct ids is the row of its submission after
    the merge, and a submission without a record in the run keeps the
    last row the file had for it. *)
Theorem merge_feedback_new_wins (num_eqb : json -> json -> bool)
  (existing : list json) (results_out : list FeedbackRecord)
  (rows : list json) :
  merge_feedback num_eqb existing results_out = Ok rows ->
  (forall r,
      NoDup (map fr_submission_id results_out) -> In r results_out ->
      first_row (fr_submission_id r) rows = Some (json_of_feedback r)) /\
  (forall sid,
      ~ In sid (map fr_submission_id results_out) ->
      first_row sid rows = last_row sid existing).
Proof.
  intros H.
  destruct (merge_feedback_Ok num_eqb existing results_out rows H)
    as [Hrow _].
  split.
  - intros r Hnd Hin.
    rewrite Hrow, last_row_app, (last_row_record _ _ Hnd Hin); reflexivity.
  - intros sid Hn.
    rewrite Hrow, last_row_app, (last_row_records _ _ Hn); reflexivity.
Qed.

Lemma merge_feedback_new_wins_witness :
  first_row (lit "submission_1") [json_of_feedback new_record; other_row] =
    Some (json_of_feedback new_record) /\
  first_row (lit "submission_7") [json_of_feedback new_record; other_row] =
    Some other_row.
Proof.
  destruct (merge_feedback_new_wins literal_num_eqb [stale_row; other_row]
              [new_record] [json_of_feedback new_record; other_row])
    as [Hnew Hold]; [vm_compute; reflexivity|].
  split.
  - apply (Hnew new_record); [repeat constructor; simpl; tauto|].
    left; reflexivity.
  - rewrite (Hold (lit "submission_7")); [reflexivity|].
    simpl; intros [H|[]]; discriminate.
Defined.

(** X23. The merge fails exactly when the file holds a row that cannot
    be keyed: a row that is not an object, an object without
    ["submission_id"], or one whose id is a list or an object. The
    exception, [KeyError] or [TypeError], is raised outside every [try]
    block, so the end of the run raises it and the file is not
    written. *)
Theorem merge_feedback_fails_on_malformed_row
  (num_eqb : json -> json -> bool) (existing : list json)
  (results_out : list FeedbackRecord) :
  (forallb mergeable existing = true ->
   exists rows, merge_feedback num_eqb existing results_out = Ok rows) /\
  (forall row,
      In row existing -> mergeable row = false ->
      exists e,
        (e = KeyError \/ e = TypeError) /\
        merge_feedback num_eqb existing results_out = Raise e) /\
  (forall fs p row,
      In row (load_existing_feedback fs p) -> mergeable row = false ->
      exists e, write_feedback num_eqb fs p results_out = Raise e).
Proof.
  assert (Hbad : forall rows row,
             In row rows -> mergeable row = false ->
             exists e,
               (e = KeyError \/ e = TypeError) /\
               merge_feedback num_eqb rows results_out = Raise e).
  { intros rows row Hin Hm; unfold merge_feedback.
    destruct (merge_rows_not_mergeable num_eqb rows [] row Hin Hm)
      as [e He].
    rewrite He; simpl; exists e; split; [|reflexivity].
    apply (merge_rows_Raise num_eqb rows [] e He). }
  split; [|split].
  - intros Hall; unfold merge_feedback.
    destruct (merge_rows_mergeable num_eqb existing [] Hall) as [m1 ->].
    simpl.
    destruct (merge_rows_mergeable num_eqb
                (map json_of_feedback results_out) m1) as [m2 ->];
      [|simpl; eauto].
    apply forallb_forall; intros row Hrow.
    apply in_map_iff in Hrow as [r [<- _]].
    apply mergeable_json_of_feedback.
  - exact (Hbad existing).
  - intros fs p row Hin Hm; unfold write_feedback.
    destruct (Hbad _ row Hin Hm) as [e [_ ->]]; simpl; eauto.
Qed.

Example merge_feedback_malformed :
  load_existing_feedback (fs_with feedback_path (lit "[3]")) feedback_path
    = [JInt 3] /\
  write_feedback literal_num_eqb (fs_with feedback_path (lit "[3]"))
    feedback_path [new_record] = Raise TypeError.
Proof. split; vm_compute; reflexivity. Qed.

Lemma write_text_Ok (fs fs' : FS) (p : Path) (text : str) :
  write_text fs p text = Ok fs' ->
  files fs' p = Some text /\
  (forall q, q <> p -> files fs' q = files fs q) /\
  (forall q, dirs fs' q = dirs fs q).
Proof.
  unfold write_text.
  destruct (dirs fs p) eqn:Ed; [discriminate|].
  destruct (files fs (parent p)); [discriminate|].
  destruct (dirs fs (parent p)); [|discriminate].
  intros H; injection H as <-; simpl.
  rewrite path_eqb_refl; split; [reflexivity|]; split; [|reflexivity].
  intros q Hq; rewrite (path_eqb_neq _ _ Hq); reflexivity.
Qed.

(** X24. When the end of the run succeeds the feedback file holds the
    merged rows and no other file has changed; and the next run reads
    the same rows back from it, provided they are rows the encoder and
    the decoder agree on (no float, text without surrogates). *)
Theorem feedback_file_round_trip (num_eqb : json -> json -> bool) (fs fs' : FS)
  (p : Path) (results_out : list FeedbackRecord) :
  write_feedback num_eqb fs p results_out = Ok fs' ->
  exists rows,
    merge_feedback num_eqb (load_existing_feedback fs p) results_out
      = Ok rows /\
    files fs' p = Some (json_dumps (JArray rows)) /\
    (forall q, q <> p -> files fs' q = files fs q) /\
    (json_ok (JArray rows) = true -> load_existing_feedback fs' p = rows).
Proof.
  unfold write_feedback.
  destruct (merge_feedback num_eqb (load_existing_feedback fs p) results_out)
    as [rows|e]; simpl; [|discriminate].
  intros H; destruct (write_text_Ok _ _ _ _ H) as [Hp [Hq _]].
  exists rows; split; [reflexivity|]; split; [exact Hp|];
    split; [exact Hq|].
  intros Hok; unfold load_existing_feedback, path_exists, read_text.
  rewrite Hp; cbn [bind].
  rewrite (json_loads_dumps (JArray rows) Hok); reflexivity.
Qed.

Lemma feedback_file_round_trip_witness :
  exists fs',
    write_feedback literal_num_eqb
      (fs_with feedback_path (json_dumps (JArray [stale_row; other_row])))
      feedback_path [new_record] = Ok fs' /\
    load_existing_feedback fs' feedback_path =
      [json_of_feedback new_record; other_row].
Proof.
  destruct (write_feedback literal_num_eqb
              (fs_with feedback_path
                 (json_dumps (JArray [stale_row; other_row])))
              feedback_path [new_record]) as [fs'|e] eqn:E;
    [|vm_compute in E; discriminate].
  exists fs'; split; [reflexivity|].
  destruct (feedback_file_round_trip literal_num_eqb _ fs' _ _ E)
    as [rows [Hm [_ [_ Hload]]]].
  vm_compute in Hm; injection Hm as <-.
  apply Hload; vm_compute; reflexivity.
Defined.


(** ** The name map built from the roster export *)

Section NameMapFacts.
Variable repr : json -> str.

Lemma roster_entry_cases (payload : json) :
  match first_submitter payload with
  | None =>
      roster_entry repr payload =
      Ok {| roster_full_name := None;
            roster_sid := None;
            roster_email := None |}
  | Some s0 =>
      if submitter_well_formed s0
      then exists e,
             roster_entry repr payload = Ok e /\
             (forall n, roster_full_name e = Some n -> name_normalized n) /\
             roster_sid e <> None
      else roster_entry repr payload = Raise AttributeError
  end.
Proof.
  unfold first_submitter, roster_entry, submitter_well_formed.
  destruct payload as [| | | | | |members]; try reflexivity.
  destruct (get_either (lit "submitters") members (JArray []))
    as [| | | | |[|s0 items]|]; try reflexivity.
  destruct s0 as [| | | | | |fields]; try reflexivity.
  destruct (get_either (lit "name") fields (JString []))
    as [| | | |s| |]; try reflexivity.
  cbn [bind]; eexists; split; [reflexivity|].
  cbn [roster_full_name roster_sid]; split; [|discriminate].
  intros n; destruct (is_empty (strip s)) eqn:E; [discriminate|].
  intros Hn; injection Hn as <-.
  split; [apply is_empty_false, E|apply strip_idempotent].
Qed.

Lemma roster_entry_name (payload : json) (e : RosterEntry) (n : str) :
  roster_entry repr payload = Ok e -> roster_full_name e = Some n ->
  name_normalized n.
Proof.
  pose proof (roster_entry_cases payload) as H.
  destruct (first_submitter payload) as [s0|].
  - destruct (submitter_well_formed s0); [|congruence].
    destruct H as [e' [He' [Hn _]]].
    intros He; rewrite He in He'; injection He' as <-; apply Hn.
  - rewrite H; intros He; injection He as <-; discriminate.
Qed.

Lemma roster_entry_Raise (payload : json) (err : exn) :
  roster_entry repr payload = Raise err ->
  err = AttributeError /\
  exists s0,
    first_submitter payload = Some s0 /\ submitter_well_formed s0 = false.
Proof.
  pose proof (roster_entry_cases payload) as H.
  destruct (first_submitter payload) as [s0|]; [|congruence].
  destruct (submitter_well_formed s0) eqn:E.
  - destruct H as [e [-> _]]; discriminate.
  - rewrite H; intros He; injection He as <-; eauto.
Qed.

Lemma roster_entries_names (items : list (str * json))
  (out out' : sdict RosterEntry) :
  (forall kv n, In kv out -> roster_full_name (snd kv) = Some n ->
                name_normalized n) ->
  roster_entries repr items out = Ok out' ->
  forall kv n, In kv out' -> roster_full_name (snd kv) = Some n ->
               name_normalized n.
Proof.
  revert out; induction items as [|[sub_key payload] items IH];
    intros out Hout; simpl.
  - intros H; injection H as <-; exact Hout.
  - destruct (roster_entry repr payload) as [e|err] eqn:E; simpl;
      [|discriminate].
    apply IH; intros kv n Hin Hn.
    apply In_sset in Hin as [Hv|Hin]; [|exact (Hout kv n Hin Hn)].
    rewrite Hv in Hn; exact (roster_entry_name payload e n E Hn).
Qed.

Lemma roster_entries_keys (items : list (str * json))
  (out out' : sdict RosterEntry) (key : str) :
  roster_entries repr items out = Ok out' ->
  (In key (dict_keys out') <->
   In key (dict_keys out) \/ In key (map fst items)).
Proof.
  revert out; induction items as [|[sub_key payload] items IH];
    intros out; simpl.
  - intros H; injection H as <-; tauto.
  - destruct (roster_entry repr payload) as [e|err]; simpl;
      [|discriminate].
    intros H; rewrite (IH _ H).
    assert (Hk : In key (dict_keys (sset sub_key e out)) <->
                 In key (dict_keys out) \/ sub_key = key).
    { destruct (sget sub_key out) as [v0|] eqn:Eg.
      - rewrite (sset_keys_present _ _ _ v0 _ Eg).
        apply sget_Some_keys in Eg.
        split; [tauto|]; intros [Hin|<-]; assumption.
      - rewrite (sset_absent _ _ _ _ Eg).
        unfold dict_keys; rewrite map_app, in_app_iff; simpl; tauto. }
    rewrite Hk; tauto.
Qed.

Lemma roster_entries_total (items : list (str * json))
  (out : sdict RosterEntry) :
  (forall kv s0,
      In kv items -> first_submitter (snd kv) = Some s0 ->
      submitter_well_formed s0 = true) ->
  exists out', roster_entries repr items out = Ok out'.
Proof.
  revert out; induction items as [|[sub_key payload] items IH];
    intros out H; simpl; [eauto|].
  assert (He : exists e, roster_entry repr payload = Ok e).
  { pose proof (roster_entry_cases payload) as Hc.
    destruct (first_submitter payload) as [s0|] eqn:Ef; [|eauto].
    rewrite (H (sub_key, payload) s0 (or_introl eq_refl) Ef) in Hc.
    destruct Hc as [e [He _]]; eauto. }
  destruct He as [e ->]; simpl.
  apply IH; intros kv s0 Hkv; apply H; right; exact Hkv.
Qed.

Lemma roster_entries_Raise (items : list (str * json))
  (out : sdict RosterEntry) (err : exn) :
  roster_entries repr items out = Raise err ->
  err = AttributeError /\
  exists kv s0,
    In kv items /\ first_submitter (snd kv) = Some s0 /\
    submitter_well_formed s0 = false.
Proof.
  revert out; induction items as [|[sub_key payload] items IH];
    intros out; simpl; [discriminate|].
  destruct (roster_entry repr payload) as [e|err1] eqn:E; simpl.
  - intros H; destruct (IH _ H) as [He [kv [s0 [Hin Hs]]]].
    split; [exact He|]; exists kv, s0; auto.
  - intros H; injection H as <-.
    destruct (roster_entry_Raise payload err1 E) as [He [s0 Hs]].
    split; [exact He|]; exists (sub_key, payload), s0; auto.
Qed.

Lemma roster_entries_ill_formed (items : list (str * json))
  (out : sdict RosterEntry) (kv : str * json) (s0 : json) :
  In kv items -> first_submitter (snd kv) = Some s0 ->
  submitter_well_formed s0 = false ->
  roster_entries repr items out = Raise AttributeError.
Proof.
  revert out; induction items as [|[sub_key payload] items IH];
    intros out; simpl; [tauto|].
  intros Hin Hf Hw.
  destruct (roster_entry repr payload) as [e|err] eqn:E; simpl.
  - destruct Hin as [<-|Hin]; [|exact (IH _ Hin Hf Hw)].
    pose proof (roster_entry_cases payload) as Hc.
    simpl in Hf; rewrite Hf, Hw in Hc; congruence.
  - destruct (roster_entry_Raise payload err E) as [-> _]; reflexivity.
Qed.

Lemma name_map_of_items (data : json) :
  name_map_of repr data =
  match data with
  | JObject items => roster_entries repr items []
  | _ => Ok []
  end.
Proof.
  unfold name_map_of.
  destruct data as [|[|]|z|literal|[|c s]|[|x items]|[|kv items]];
    try reflexivity; unfold truthy.
  - destruct (z =? 0)%Z; reflexivity.
  - destruct (float_is_zero literal); reflexivity.
Qed.
End NameMapFacts.

(** X25. Every full name of the name map is usable as the key of a
    student: an entry has no full name at all or one that is not empty
    and has no white space around it, whatever the export holds. *)
Theorem name_map_names_are_normalized
  (yaml_safe_load : str -> result json) (repr : json -> str) (fs : FS)
  (yml_path : Path) (out : sdict RosterEntry) (key : str)
  (entry : RosterEntry) (n : str) :
  load_name_map_from_yaml yaml_safe_load repr fs yml_path = Ok out ->
  sget key out = Some entry -> roster_full_name entry = Some n ->
  n <> [] /\ strip n = n.
Proof.
  unfold load_name_map_from_yaml.
  destruct (read_text fs yml_path) as [text|e]; cbn [bind]; [|discriminate].
  destruct (yaml_safe_load text) as [data|e]; cbn [bind]; [|discriminate].
  rewrite name_map_of_items; intros Hout Hget Hn.
  apply sget_In in Hget.
  destruct data as [| | | | | |items]; cbv iota in Hout;
    try (injection Hout as <-; destruct Hget; fail).
  apply (roster_entries_names repr items [] out) with (kv := (key, entry));
    [simpl; tauto|exact Hout|exact Hget|exact Hn].
Qed.

Lemma name_map_names_are_normalized_witness :
  load_name_map_from_yaml (fun _ => Ok sample_roster) (fun _ => [])
    (fs_with [lit "submission_metadata.yml"] [])
    [lit "submission_metadata.yml"] =
    Ok [ (lit "submission_1",
           {| roster_full_name := Some (lit "Alex Kim");
              roster_sid := Some (lit "1001");
              roster_email := Some (JString (lit "akim@example.edu")) |});
         (lit "submission_2",
           {| roster_full_name := None;
              roster_sid := None;
              roster_email := None |}) ] /\
  lit "Alex Kim" <> [] /\ strip (lit "Alex Kim") = lit "Alex Kim".
Proof.
  assert (H : load_name_map_from_yaml (fun _ => Ok sample_roster)
                (fun _ => []) (fs_with [lit "submission_metadata.yml"] [])
                [lit "submission_metadata.yml"] =
              Ok [ (lit "submission_1",
                     {| roster_full_name := Some (lit "Alex Kim");
                        roster_sid := Some (lit "1001");
                        roster_email :=
                          Some (JString (lit "akim@example.edu")) |});
                   (lit "submission_2",
                     {| roster_full_name := None;
                        roster_sid := None;
                        roster_email := None |}) ])
    by (vm_compute; reflexivity).
  split; [exact H|].
  apply (name_map_names_are_normalized (fun _ => Ok sample_roster)
           (fun _ => []) (fs_with [lit "submission_metadata.yml"] [])
           [lit "submission_metadata.yml"] _
           (lit "submission_1")
           {| roster_full_name := Some (lit "Alex Kim");
              roster_sid := Some (lit "1001");
              roster_email := Some (JString (lit "akim@example.edu")) |}
           (lit "Alex Kim") H); reflexivity.
Defined.

(** X26. The name map has an entry for exactly the submissions of the
    export; a document that is not a mapping gives the empty map; the
    loop raises nothing when the first submitter of every submission is
    a mapping whose name is a string or is missing, and raises
    [AttributeError], and no other exception, when one of them is
    not. *)
Theorem name_map_entry_per_submission (repr : json -> str) :
  (forall data,
      (forall items, data <> JObject items) ->
      name_map_of repr data = Ok []) /\
  (forall items out key,
      name_map_of repr (JObject items) = Ok out ->
      (In key (dict_keys out) <-> In key (map fst items))) /\
  (forall items,
      (forall kv s0,
          In kv items -> first_submitter (snd kv) = Some s0 ->
          submitter_well_formed s0 = true) ->
      exists out, name_map_of repr (JObject items) = Ok out) /\
  (forall items kv s0,
      In kv items -> first_submitter (snd kv) = Some s0 ->
      submitter_well_formed s0 = false ->
      name_map_of repr (JObject items) = Raise AttributeError) /\
  (forall data err,
      name_map_of repr data = Raise err -> err = AttributeError).
Proof.
  split; [|split; [|split; [|split]]].
  - intros data Hd; rewrite name_map_of_items.
    destruct data; try reflexivity; exfalso; eapply Hd; reflexivity.
  - intros items out key; rewrite name_map_of_items; intros H.
    rewrite (roster_entries_keys repr items [] out key H); simpl; tauto.
  - intros items H; rewrite name_map_of_items.
    apply roster_entries_total; exact H.
  - intros items kv s0 Hin Hf Hw; rewrite name_map_of_items.
    exact (roster_entries_ill_formed repr items [] kv s0 Hin Hf Hw).
  - intros data err; rewrite name_map_of_items.
    destruct data as [| | | | | |items]; try discriminate.
    intros H; apply (roster_entries_Raise repr items [] err H).
Qed.

Example name_map_bad_submitter :
  name_map_of (fun _ => [])
    (JObject
       [ (lit "submission_3",
           JObject [ (lit "submitters", JArray [JString (lit "Alex Kim")]) ]) ])
  = Raise AttributeError.
Proof. reflexivity. Qed.


(** ** The codes recorded for a submission *)

Lemma dedupe_length (codes : list str) : length (dedupe codes) <= length codes.
Proof.
  apply NoDup_incl_length; [apply dedupe_NoDup|].
  intros c Hc; apply dedupe_In, Hc.
Qed.

(** X27. The codes of a submission, as the loop computes them from the
    failure outputs: provided [re.search] raises nothing but [re.error]
    there is at least one code and there are at most fifty, one for each
    of the first [MAX_CASES_PER_SUB] outputs at most; they are distinct,
    and each is ["UNCLASSIFIED"] or a key of the bank. *)
Theorem submission_codes_bounded
  (re_search : str -> str -> result bool) (error_bank : Bank)
  (sub : Submission) :
  re_raises_only_re_error re_search ->
  exists codes,
    submission_codes re_search error_bank sub = Ok codes /\
    codes <> [] /\ NoDup codes /\
    length codes <= Nat.max 1 (Nat.min 50 (length (sub_outputs sub))) /\
    (forall c, In c codes -> c = UNCLASSIFIED \/ In c (dict_keys error_bank)).
Proof.
  intros Hsafe; unfold submission_codes, classify_errors_with_bank.
  set (condensed := map (fun o => condense (Some o) MAX_CHARS_PER_OUTPUT)
                      (slice_to (sub_outputs sub) MAX_CASES_PER_SUB)).
  destruct (message_codes_total re_search Hsafe condensed error_bank)
    as [codes0 [Hcodes Hlen]].
  rewrite Hcodes; cbn [bind].
  assert (Hn : length condensed = Nat.min 50 (length (sub_outputs sub)))
    by (subst condensed; rewrite length_map; apply length_firstn).
  assert (Hkey : forall c, In c codes0 ->
                   c = UNCLASSIFIED \/ In c (dict_keys error_bank)).
  { intros c Hc.
    destruct (message_codes_In re_search condensed error_bank codes0 c
                Hcodes Hc) as [i [_ Hm]].
    unfold message_code in Hm.
    destruct (search_bank re_search error_bank i) as [[code|]|e] eqn:Es;
      simpl in Hm; try discriminate; injection Hm as <-; [|auto].
    destruct (search_bank_Some re_search error_bank i code Es)
      as [_ [entry [_ [_ [Hin _]]]]].
    right; unfold dict_keys; apply in_map_iff; exists (code, entry); auto. }
  pose proof (dedupe_length codes0) as Hd.
  pose proof (dedupe_NoDup codes0) as Hnd.
  pose proof (dedupe_In codes0) as Hin.
  destruct (dedupe codes0) as [|a l] eqn:E.
  - eexists; split; [reflexivity|].
    split; [discriminate|].
    split; [repeat constructor; simpl; tauto|].
    split; [cbn [length]; lia|].
    intros c [<-|[]]; auto.
  - eexists; split; [reflexivity|].
    split; [discriminate|]. split; [exact Hnd|].
    split; [lia|].
    intros c Hc; apply Hkey, Hin, Hc.
Qed.

Lemma submission_codes_bounded_witness :
  exists codes,
    submission_codes literal_search sample_bank good_submission = Ok codes /\
    codes <> [] /\ NoDup codes /\
    length codes <=
      Nat.max 1 (Nat.min 50 (length (sub_outputs good_submission))) /\
    (forall c, In c codes -> c = UNCLASSIFIED \/ In c (dict_keys sample_bank)).
Proof.
  exact (submission_codes_bounded literal_search sample_bank good_submission
           literal_search_safe).
Defined.


(** ** The end of a run: the store, then the feedback file *)

(** Saving the store does not change what the feedback file is read
    as. *)
Lemma load_existing_after_save (fs : FS) (temp_name : str)
  (data : sdict json) :
  temp_path store_path temp_name <> store_path ->
  temp_path store_path temp_name <> feedback_path ->
  load_existing_feedback
    (save_student_errors store_path temp_name data fs) feedback_path =
  load_existing_feedback fs feedback_path.
Proof.
  intros Hs Hf.
  destruct (save_frame fs store_path temp_name data Hs) as [_ [Hfiles Hdirs]].
  unfold load_existing_feedback, path_exists, read_text.
  rewrite Hfiles, Hdirs; [|discriminate|congruence].
  change (is_prefix_path feedback_path (parent store_path)) with false.
  rewrite orb_false_r; reflexivity.
Qed.

(** X28. After the loop the store is saved before the feedback file is
    touched. Whatever happens next the store file holds the serialized
    store of the run; when the merge or the write raises, the feedback
    file is left as it was, although the store already counts the
    submissions of the run; when nothing is raised the feedback file
    holds the merged rows, no file other than these two has changed,
    and the next run loads the store that was saved. *)
Theorem run_saves_store_then_feedback (num_eqb : json -> json -> bool)
  (temp_name : str) (st : LoopState) (fs : FS) :
  temp_path store_path temp_name <> store_path ->
  temp_path store_path temp_name <> feedback_path ->
  files (fst (generate_feedback_end num_eqb temp_name st fs)) store_path =
    Some (json_dumps (JObject (json_of_totals (student_totals st)))) /\
  (forall e,
      snd (generate_feedback_end num_eqb temp_name st fs) = Some e ->
      files (fst (generate_feedback_end num_eqb temp_name st fs))
        feedback_path = files fs feedback_path) /\
  (snd (generate_feedback_end num_eqb temp_name st fs) = None ->
   exists rows,
     merge_feedback num_eqb (load_existing_feedback fs feedback_path)
       (results_out st) = Ok rows /\
     files (fst (generate_feedback_end num_eqb temp_name st fs))
       feedback_path = Some (json_dumps (JArray rows))) /\
  (forall q,
      q <> store_path -> q <> feedback_path ->
      q <> temp_path store_path temp_name ->
      files (fst (generate_feedback_end num_eqb temp_name st fs)) q =
      files fs q) /\
  (snd (generate_feedback_end num_eqb temp_name st fs) = None ->
   totals_ok (student_totals st) = true ->
   load_student_errors (fst (generate_feedback_end num_eqb temp_name st fs))
     store_path = Ok (json_of_totals (student_totals st))).
Proof.
  intros Hs Hf.
  unfold generate_feedback_end, write_feedback.
  rewrite (load_existing_after_save fs temp_name _ Hs Hf).
  set (saved := save_student_errors store_path temp_name
                  (json_of_totals (student_totals st)) fs).
  assert (Hstore : files saved store_path =
                   Some (json_dumps
                           (JObject (json_of_totals (student_totals st)))))
    by apply saved_text.
  destruct (save_frame fs store_path temp_name
              (json_of_totals (student_totals st)) Hs) as [_ [Hfiles _]].
  fold saved in Hfiles.
  destruct (merge_feedback num_eqb (load_existing_feedback fs feedback_path)
              (results_out st)) as [rows|e]; cbn [bind].
  - destruct (write_text saved feedback_path (json_dumps (JArray rows)))
      as [written|e] eqn:Ew; cbn [fst snd].
    + destruct (write_text_Ok _ _ _ _ Ew) as [Hp [Hq _]].
      assert (Hw : files written store_path =
                   Some (json_dumps
                           (JObject (json_of_totals (student_totals st)))))
        by (rewrite Hq; [exact Hstore|discriminate]).
      split; [exact Hw|].
      split; [discriminate|].
      split; [intros _; exists rows; auto|].
      split.
      * intros q H1 H2 H3; rewrite Hq by exact H2.
        apply Hfiles; assumption.
      * intros _ Hok; rewrite (load_of_file _ _ _ Hw).
        rewrite (json_loads_dumps _ (json_of_totals_ok _ Hok)); reflexivity.
    + split; [exact Hstore|].
      split; [intros _ _; apply Hfiles; [discriminate|congruence]|].
      split; [discriminate|].
      split; [intros q H1 H2 H3; apply Hfiles; assumption|discriminate].
  - cbn [fst snd].
    split; [exact Hstore|].
    split; [intros _ _; apply Hfiles; [discriminate|congruence]|].
    split; [discriminate|].
    split; [intros q H1 H2 H3; apply Hfiles; assumption|discriminate].
Qed.

Lemma run_saves_store_then_feedback_witness :
  files
    (fst (generate_feedback_end literal_num_eqb (lit "tmpk3x9q_7a")
            {| student_totals := sample_totals;
               results_out := [new_record];
               msg := Some (lit "Check the bounds of range().") |}
            (fs_with feedback_path (lit "[3]"))))
    store_path =
    Some (json_dumps (JObject (json_of_totals sample_totals))) /\
  files
    (fst (generate_feedback_end literal_num_eqb (lit "tmpk3x9q_7a")
            {| student_totals := sample_totals;
               results_out := [new_record];
               msg := Some (lit "Check the bounds of range().") |}
            (fs_with feedback_path (lit "[3]"))))
    feedback_path = Some (lit "[3]").
Proof.
  destruct (run_saves_store_then_feedback literal_num_eqb (lit "tmpk3x9q_7a")
              {| student_totals := sample_totals;
                 results_out := [new_record];
                 msg := Some (lit "Check the bounds of range().") |}
              (fs_with feedback_path (lit "[3]")))
    as [Hstore [Hfail _]]; [discriminate|discriminate|].
  split; [exact Hstore|].
  rewrite (Hfail TypeError); [reflexivity|].
  vm_compute; reflexivity.
Defined.

(** X29. No feedback of a run is lost in the merge: when the
    submissions of the run have distinct ids, as the keys of
    [outputs_by_sid] have, and the merge succeeds, every record the loop
    has added to [results_out] is, after the merge, the row of its
    submission, whatever rows the file held. *)
Theorem run_feedback_reaches_file
  (re_search : str -> str -> result bool) (error_bank : Bank)
  (name_map : NameMap) (num_eqb : json -> json -> bool) (totals : Totals)
  (subs : list Submission) (existing rows : list json) :
  NoDup (map sub_id subs) ->
  merge_feedback num_eqb existing
    (results_out
       (state_of (generate_feedback_loop re_search error_bank name_map
                    (initial_state totals) subs))) = Ok rows ->
  forall r,
    In r (results_out
            (state_of (generate_feedback_loop re_search error_bank name_map
                         (initial_state totals) subs))) ->
    first_row (fr_submission_id r) rows = Some (json_of_feedback r).
Proof.
  intros Hnd Hmerge r Hr.
  destruct (loop_results re_search error_bank name_map subs
              (initial_state totals)) as [added [Hout [_ Hsub]]];
    [simpl; discriminate|].
  simpl in Hout.
  assert (Hids : NoDup
                   (map fr_submission_id
                      (results_out
                         (state_of
                            (generate_feedback_loop re_search error_bank
                               name_map (initial_state totals) subs)))))
    by (rewrite Hout; exact (subsequence_NoDup _ _ Hsub Hnd)).
  destruct (merge_feedback_Ok num_eqb _ _ _ Hmerge) as [Hrow _].
  rewrite Hrow, last_row_app, (last_row_record _ _ Hids Hr); reflexivity.
Qed.

Lemma run_feedback_reaches_file_witness :
  first_row (lit "submission_1")
    [ JObject [ (lit "submission_id", JString (lit "submission_1"));
                (lit "full_name", JString (lit "Alex Kim"));
                (lit "feedback",
                  JString (lit "Check the bounds of range().")) ];
      other_row ] =
  Some (json_of_feedback new_record).
Proof.
  apply (run_feedback_reaches_file literal_search sample_bank
           sample_name_map literal_num_eqb [] [good_submission]
           [stale_row; other_row]
           [ JObject [ (lit "submission_id", JString (lit "submission_1"));
                       (lit "full_name", JString (lit "Alex Kim"));
                       (lit "feedback",
                         JString (lit "Check the bounds of range().")) ];
             other_row ]
           ltac:(repeat constructor; simpl; tauto)
           ltac:(vm_compute; reflexivity) new_record).
  vm_compute; left; reflexivity.
Defined.
